(** * fb-weekly-analyzer: the aggregation and analytics core

    A shallow embedding of the pure data-transformation functions of
    [metric_categorizer.js], [weekly_models.js], [reach_calculator.js],
    [weekly_analytics.js], [aggregation_service.js],
    [period_extractor.js] and [period_validator.js], with the properties
    the specification states about them and further properties read off
    the code.

    Modelling conventions.
    - Metric values are integers ([WeeklyMetrics] stores the result of
      [parseInt(..) || 0]); they are modelled as [Z], and so are their
      sums and differences.
    - Any other JavaScript number is the rational [Q] that the IEEE 754
      double stands for.  The percentages multiply a quotient twice
      before they round it, and there the rounding of doubles decides
      results on small integers: [x - y], [x * y] and [x / y] are
      [js_sub], [js_mul] and [js_div], the exact result rounded to the
      nearest number with 53 significant bits, a tie going to the even
      one ([binary64]).  The exponent is not bounded: overflow to
      [Infinity] and the subnormal range, which no quotient of metric
      values reaches, are outside the model.
    - A quotient of integers that goes to [Math.round] at once (the
      means and the median) is the exact rational: for a dividend below
      [2 ^ 52] the binary64 quotient rounds to the same integer
      ([Math_round_quotient]).
    - [Math.round x] is [floor (x + 1/2)] (ties go towards +infinity).
    - A plain JavaScript object used as a dictionary is a [gmap string _]
      of its own properties together with the members it inherits from
      [Object.prototype]: a read [obj[k]] that finds no own property
      falls through to the prototype.
    - [Array.prototype.sort] is stable (ECMAScript 2019); it is modelled
      by a stable insertion sort driven by the comparator.
    - An uncaught [TypeError] is the [TypeError] outcome of [completion].
    - Functions of the host ([Date], [Number.prototype.toLocaleString])
      are parameters of the definitions that call them.
    - Lengths and numbers of weeks ([minWeeks]) are natural numbers; the
      [metric] argument is one of ['reach'] and ['engagements'].
    - A [Map] or [Set] is the list of its entries in insertion order.
    - A regular expression is the function that matches it: one
      definition per part of the pattern, tried in the order in which
      the backtracking matcher tries them.  Under the [i] flag, and for
      [toLowerCase], only ASCII letters change case; no other character
      turns into, or matches, a character of the patterns.

    The definitions come first, in the order of the source files; the
    properties follow, grouped by function. *)

From Stdlib Require Import ZArith QArith Qround Qabs Qpower Lia Lqa List.
From Stdlib Require Import Sorting.Sorted Sorting.Permutation.
From Stdlib Require Import Strings.String Strings.Ascii DecimalString.
From Stdlib Require Import DecimalZ DecimalPos.
From Stdlib Require SpecFloat.
From stdpp Require Import gmap strings sorting.

Local Open Scope Z_scope.

(** ** JavaScript numbers, strings, arrays and objects *)

Module JsNumber.

(** [Math.round]: nearest integer, halves rounded up. *)
Definition Math_round (x : Q) : Z := Qfloor (x + (1 # 2))%Q.

(** [Math.ceil]. *)
Definition Math_ceil (x : Q) : Z := Qceiling x.

(** [Math.floor]. *)
Definition Math_floor (x : Q) : Z := Qfloor x.

(** [x > y] on numbers. *)
Definition Qgt_bool (x y : Q) : bool := negb (Qle_bool x y).

(** [values.reduce((sum, v) => sum + v, 0)]. *)
Definition sum (values : list Z) : Z := fold_left Z.add values 0.

(** [Math.min(...values)] and [Math.max(...values)] of a non-empty
    array (every call site has checked the length). *)
Definition Math_min (values : list Z) : Z :=
  match values with
  | [] => 0
  | v :: vs => fold_left Z.min vs v
  end.

Definition Math_max (values : list Z) : Z :=
  match values with
  | [] => 0
  | v :: vs => fold_left Z.max vs v
  end.

(** The defining property of rounding half-up, independent of how
    [Math_round] computes it: [r] is the integer with
    [r - 1/2 <= x < r + 1/2]. *)
Definition rounds_half_up (x : Q) (r : Z) : Prop :=
  (inject_Z r - (1 # 2) <= x)%Q /\ (x < inject_Z r + (1 # 2))%Q.

(** The integer nearest to [x], a half going to the even neighbour:
    the rounding of IEEE 754 arithmetic. *)
Definition roundTiesToEven (x : Q) : Z :=
  let f := Qfloor x in
  match Qcompare (x - inject_Z f) (1 # 2) with
  | Lt => f
  | Gt => f + 1
  | Eq => if Z.even f then f else f + 1
  end.

(** For [x <> 0], the exponent [m] with [2 ^ (m - 1) <= |x| < 2 ^ m]:
    the difference of the bit lengths of numerator and denominator, or
    one more. *)
Definition magnitude (x : Q) : Z :=
  let k := Z.log2 (Z.abs (Qnum x)) - Z.log2 (Zpos (Qden x)) in
  if Qle_bool (2 ^ k) (Qabs x) then k + 1 else k.

(** The binary64 number nearest to [x]: [x] rounded to 53 significant
    bits, that is to a multiple of [2 ^ (magnitude x - 53)]. *)
Definition binary64 (x : Q) : Q :=
  if Qeq_bool x 0 then 0%Q
  else
    let ulp := (2 ^ (magnitude x - 53))%Q in
    (inject_Z (roundTiesToEven (x / ulp)) * ulp)%Q.

(** [x - y], [x * y] and [x / y] on numbers: the exact result, rounded
    once. *)
Definition js_sub (x y : Q) : Q := binary64 (x - y).
Definition js_mul (x y : Q) : Q := binary64 (x * y).
Definition js_div (x y : Q) : Q := binary64 (x / y).

(** The largest relative error of one rounding. *)
Definition unitRoundoff : Q := (2 ^ (-53))%Q.

(** A bound on the relative error that up to four rounded operations
    in a row accumulate. *)
Definition slack : Q := (2 ^ (-50))%Q.

(** [a] is [x] up to the relative error [eps]. *)
Definition within (eps x a : Q) : Prop := (Qabs (a - x) <= eps * Qabs x)%Q.

End JsNumber.
Import JsNumber.

(** IEEE 754 arithmetic as the Standard Library specifies it
    ([SpecFloat]), at the precision and the exponent range of doubles:
    the reference that [binary64] is compared with on sample values. *)
Module Ieee754.

Definition ofInteger (n : Z) : SpecFloat.spec_float :=
  SpecFloat.binary_normalize 53 1024 n 0 false.

Definition sub := SpecFloat.SFsub 53 1024.
Definition mul := SpecFloat.SFmul 53 1024.
Definition div := SpecFloat.SFdiv 53 1024.

(** [f] is a finite double, and [x] is the number it stands for. *)
Definition represents (f : SpecFloat.spec_float) (x : Q) : bool :=
  match f with
  | SpecFloat.S754_zero _ => Qeq_bool x 0
  | SpecFloat.S754_finite negative m e =>
      Qeq_bool x ((if negative then -1 else 1) * inject_Z (Zpos m) * 2 ^ e)
  | SpecFloat.S754_infinity _ | SpecFloat.S754_nan => false
  end.

(** [((current - previous) / previous) * 100 * 10] in both. *)
Definition changeAgrees (current previous : Z) : bool :=
  represents
    (mul (mul (div (sub (ofInteger current) (ofInteger previous))
                 (ofInteger previous))
            (ofInteger 100))
       (ofInteger 10))
    (js_mul
       (js_mul
          (js_div (js_sub (inject_Z current) (inject_Z previous))
             (inject_Z previous))
          100)
       10).

(** [r / 10] in both. *)
Definition tenthAgrees (r : Z) : bool :=
  represents (div (ofInteger r) (ofInteger 10)) (js_div (inject_Z r) 10).

(** The integers [first], [first + 1], ... *)
Definition integers (first : Z) (count : nat) : list Z :=
  map (fun i => first + Z.of_nat i) (seq 0 count).

End Ieee754.

Module JsString.

(** [String(n)] of an integer: its decimal digits, with a leading minus
    sign when negative. *)
Definition Number_toString (n : Z) : string :=
  NilZero.string_of_int (Z.to_int n).

(** [s.padStart(targetLength, fill)] with a one-character fill. *)
Definition padStart (targetLength : nat) (fill : ascii) (s : string) : string :=
  string_of_list_ascii (repeat fill (targetLength - String.length s)) +:+ s.

(** The sign of the comparison of two strings by character codes: the
    order of [Array.prototype.sort] without a comparator. *)
Definition codeUnitCompare (a b : string) : Z :=
  match String.compare a b with
  | Lt => -1
  | Eq => 0
  | Gt => 1
  end.

(** [a.localeCompare(b)] on ISO dates ["YYYY-MM-DD"]: two such dates
    differ first at a digit, where collation and character codes agree. *)
Definition localeCompare (a b : string) : Z := codeUnitCompare a b.

(** The double-quote character. *)
Definition dquote : string := String (ascii_of_nat 34) EmptyString.

(** [needle] occurs in [s]. *)
Definition includes (s needle : string) : Prop :=
  exists before after : string, s = before +:+ needle +:+ after.

End JsString.
Import JsString.

Module JsArray.

Section Sort.
Context {A : Type} (compareFn : A -> A -> Z).

(** [x] goes in front of the first element it does not have to follow. *)
Fixpoint sort_insert (x : A) (l : list A) : list A :=
  match l with
  | [] => [x]
  | y :: l' =>
      if compareFn x y <=? 0 then x :: y :: l' else y :: sort_insert x l'
  end.

(** [[...l].sort(compareFn)]: a stable sort of a copy. *)
Definition Array_sort (l : list A) : list A := fold_right sort_insert [] l.

(** The order the comparator stands for: [x] may stand in front of
    [y]. *)
Definition before (x y : A) : Prop := compareFn x y <= 0.

End Sort.

(** [[...new Set(l)]]: the distinct elements in order of first
    occurrence. *)
Definition Set_add (seen : list string) (x : string) : list string :=
  if bool_decide (x ∈ seen) then seen else seen ++ [x].

Definition Set_of (l : list string) : list string := fold_left Set_add l [].

End JsArray.
Import JsArray.

Module JsObject.

(** The members every object literal inherits from [Object.prototype]
    (ECMAScript 2015 with Annex B).  Each is a function, or for
    [__proto__] the prototype object itself: a truthy value without any
    of the fields this program stores. *)
Definition Object_prototype_keys : list string :=
  [ "constructor"; "__defineGetter__"; "__defineSetter__"; "hasOwnProperty";
    "__lookupGetter__"; "__lookupSetter__"; "isPrototypeOf";
    "propertyIsEnumerable"; "toString"; "valueOf"; "__proto__";
    "toLocaleString" ]%string.

(** What a read [obj[k]] finds. *)
Inductive property (V : Type) : Type :=
| Own (v : V)
| Inherited
| Undefined.
Arguments Own {V} v.
Arguments Inherited {V}.
Arguments Undefined {V}.

Definition js_get {V : Type} (obj : gmap string V) (k : string) : property V :=
  match obj !! k with
  | Some v => Own v
  | None =>
      if bool_decide (k ∈ Object_prototype_keys) then Inherited else Undefined
  end.

(** Truthiness of a read whose own values are objects. *)
Definition truthy {V : Type} (p : property V) : bool :=
  match p with
  | Own _ | Inherited => true
  | Undefined => false
  end.

(** [obj[k] = v] where [v] is a number: it creates or updates an own
    property, except that [__proto__] is an inherited setter, which
    ignores a value that is not an object. *)
Definition js_set_number (obj : gmap string Z) (k : string) (v : Z) : gmap string Z :=
  if bool_decide (k = "__proto__"%string) then obj else <[k := v]> obj.

(** The first character of a string is a decimal digit or a minus
    sign, as in every key built from a number first. *)
Definition startsWithNumber (s : string) : bool :=
  match s with
  | EmptyString => false
  | String c _ =>
      bool_decide
        (c ∈ ["0"; "1"; "2"; "3"; "4"; "5"; "6"; "7"; "8"; "9"; "-"]%char)
  end.

(** The outcome of a call: a value, or an uncaught [TypeError]. *)
Inductive completion (A : Type) : Type :=
| Normal (a : A)
| TypeError.
Arguments Normal {A} a.
Arguments TypeError {A}.

End JsObject.
Import JsObject.

(** ** metric_categorizer.js *)

Module MetricCategorizer.

(** An entry of [METRIC_DEFINITIONS]; [None] is a [null] field. *)
Record MetricDefinition : Type := {
  key : string;
  displayName : string;
  category : string;
  description : string;
  canSum : bool;
  aggregationMethod : string;
  unit : option string;
  formatType : string;
  warningMessage : option string
}.

Definition reach_definition : MetricDefinition := {|
  key := "reach";
  displayName := "Räckvidd";
  category := "non_summable";
  description := "Antal unika personer som nåddes";
  canSum := false;
  aggregationMethod := "average";
  unit := Some "personer"%string;
  formatType := "number";
  warningMessage :=
    Some "Reach kan ALDRIG summeras över veckor. Använd genomsnitt."%string
|}.

Definition engagements_definition : MetricDefinition := {|
  key := "engagements";
  displayName := "Engagemang";
  category := "summable";
  description := "Totalt antal interaktioner";
  canSum := true;
  aggregationMethod := "sum";
  unit := Some "interaktioner"%string;
  formatType := "number";
  warningMessage := None
|}.

Definition status_definition : MetricDefinition := {|
  key := "status";
  displayName := "Status";
  category := "metadata";
  description := "Sidans status";
  canSum := false;
  aggregationMethod := "none";
  unit := None;
  formatType := "string";
  warningMessage := None
|}.

Definition comment_definition : MetricDefinition := {|
  key := "comment";
  displayName := "Kommentar";
  category := "metadata";
  description := "Kommentarer";
  canSum := false;
  aggregationMethod := "none";
  unit := None;
  formatType := "string";
  warningMessage := None
|}.

(** The own properties of the object literal [METRIC_DEFINITIONS]. *)
Definition METRIC_DEFINITIONS : gmap string MetricDefinition :=
  <["reach"%string := reach_definition]>
  (<["engagements"%string := engagements_definition]>
  (<["status"%string := status_definition]>
  (<["comment"%string := comment_definition]> ∅))).

(** The values the lookup functions return. *)
Inductive value : Type :=
| undefined
| boolean (b : bool)
| text (s : string).

(** [canSumMetric(metricKey)]: an inherited member is truthy and has no
    [canSum] field. *)
Definition canSumMetric (metricKey : string) : value :=
  match js_get METRIC_DEFINITIONS metricKey with
  | Own metric => boolean (canSum metric)
  | Inherited => undefined
  | Undefined => boolean false
  end.

(** [getAggregationMethod(metricKey)]. *)
Definition getAggregationMethod (metricKey : string) : value :=
  match js_get METRIC_DEFINITIONS metricKey with
  | Own metric => text (aggregationMethod metric)
  | Inherited => undefined
  | Undefined => text "none"
  end.

(** The object [{isValid, errorMessage}]; [None] is [null]. *)
Record ValidationResult : Type := {
  isValid : bool;
  errorMessage : option string
}.

(** The message of the mismatch branch, from the three interpolated
    texts and the trailing [warningMessage || '']. *)
Definition mismatch_message (name correctMethod attemptedMethod warning : string)
    : string :=
  "Felaktig aggregeringsmetod för " +:+ name +:+ ". "
  +:+ "Använd " +:+ dquote +:+ correctMethod +:+ dquote
  +:+ " istället för " +:+ dquote +:+ attemptedMethod +:+ dquote +:+ ". "
  +:+ warning.

(** [validateAggregationMethod(metricKey, attemptedMethod)] with a
    string [attemptedMethod].  On an inherited member [displayName],
    [aggregationMethod] and [warningMessage] are all undefined, so the
    strict comparison with the string fails. *)
Definition validateAggregationMethod (metricKey attemptedMethod : string)
    : ValidationResult :=
  match js_get METRIC_DEFINITIONS metricKey with
  | Undefined =>
      {| isValid := false;
         errorMessage := Some ("Okänd metric: " +:+ metricKey) |}
  | Own metric =>
      let correctMethod := aggregationMethod metric in
      if negb (String.eqb attemptedMethod correctMethod) then
        {| isValid := false;
           errorMessage :=
             Some (mismatch_message (displayName metric) correctMethod
                     attemptedMethod (default ""%string (warningMessage metric))) |}
      else {| isValid := true; errorMessage := None |}
  | Inherited =>
      {| isValid := false;
         errorMessage :=
           Some (mismatch_message "undefined" "undefined" attemptedMethod "") |}
  end.

End MetricCategorizer.

(** ** weekly_models.js *)

Record Page : Type := { pageId : string; pageName : string }.

Record WeekPeriod : Type := {
  year : Z;
  week : Z;
  startDate : string;
  endDate : string
}.

Record WeeklyMetrics : Type := { reach : Z; engagements : Z }.

Record WeeklyPageData : Type := {
  page : Page;
  period : WeekPeriod;
  metrics : WeeklyMetrics;
  status : string;
  comment : option string
}.

(** [new WeeklyPageData(new Page(pageId, pageId),
      new WeekPeriod(year, week, startDate, startDate),
      new WeeklyMetrics(reach, engagements), 'OK', null)]: the records
    of the examples. *)
Definition weekRecord (pageId : string) (year week : Z) (startDate : string)
    (reach engagements : Z) : WeeklyPageData :=
  {| page := {| pageId := pageId; pageName := pageId |};
     period := {| year := year; week := week;
                  startDate := startDate; endDate := startDate |};
     metrics := {| reach := reach; engagements := engagements |};
     status := "OK";
     comment := None |}.

(** [period.getPeriodKey()]: the template [`${year}_${week}`]. *)
Definition getPeriodKey (p : WeekPeriod) : string :=
  Number_toString (year p) +:+ "_" +:+ Number_toString (week p).

(** The [metric] argument, ['reach'] or ['engagements'], and the read
    [data.metrics[metric]]. *)
Inductive MetricKey : Type := reachKey | engagementsKey.

Definition metricValue (metric : MetricKey) (data : WeeklyPageData) : Z :=
  match metric with
  | reachKey => reach (metrics data)
  | engagementsKey => engagements (metrics data)
  end.

(** ** reach_calculator.js *)

(** [calculateAverageReach(reachValues)]; [None] is a missing ([null]
    or [undefined]) argument. *)
Definition calculateAverageReach (reachValues : option (list Z)) : Z :=
  match reachValues with
  | None => 0
  | Some values =>
      if (length values =? 0)%nat then 0
      else
        let total := sum values in
        Math_round (inject_Z total / inject_Z (Z.of_nat (length values)))%Q
  end.

(** [detectIncorrectReachSum(suspectedSum, weekCount)]; [None] is the
    [null] result. *)
Definition detectIncorrectReachSum (toLocaleString : Z -> string)
    (suspectedSum weekCount : Z) : option string :=
  if weekCount <=? 1 then None
  else
    let suspiciouslyHigh := 10000000 <? suspectedSum in
    if suspiciouslyHigh then
      Some ("VARNING: Detta reach-värde (" +:+ toLocaleString suspectedSum
            +:+ ") verkar misstänkt högt. "
            +:+ "Har reach summerats felaktigt över "
            +:+ Number_toString weekCount
            +:+ " veckor istället för att beräkna genomsnitt?")
    else None.

(** ** weekly_analytics.js *)

(** [calculateWeekOverWeekChange(currentValue, previousValue)]. *)
Definition calculateWeekOverWeekChange (currentValue previousValue : Q) : Q :=
  if Qeq_bool previousValue 0 then
    (if Qgt_bool currentValue 0 then 100 else 0)%Q
  else
    let change :=
      js_mul (js_div (js_sub currentValue previousValue) previousValue) 100 in
    js_div (inject_Z (Math_round (js_mul change 10))) 10.

(** The object [{min, max, average, median, total}]. *)
Module Statistics.
Record t : Type := {
  min : Z;
  max : Z;
  average : Z;
  median : Z;
  total : Z
}.
End Statistics.

(** [sorted[i]] for an index inside the array. *)
Definition at_index (sorted : list Z) (i : nat) : Z := nth i sorted 0.

(** [calculateMetricStatistics(weeklyDataArray, metric)]. *)
Definition calculateMetricStatistics (weeklyDataArray : list WeeklyPageData)
    (metric : MetricKey) : Statistics.t :=
  if (length weeklyDataArray =? 0)%nat then
    {| Statistics.min := 0; Statistics.max := 0; Statistics.average := 0;
       Statistics.median := 0; Statistics.total := 0 |}
  else
    let values := map (metricValue metric) weeklyDataArray in
    let min := Math_min values in
    let max := Math_max values in
    let total := sum values in
    let average :=
      Math_round (inject_Z total / inject_Z (Z.of_nat (length values)))%Q in
    let sorted := Array_sort (fun a b => a - b) values in
    let mid := (length sorted / 2)%nat in
    let median :=
      if (length sorted mod 2 =? 0)%nat then
        Math_round
          (inject_Z (at_index sorted (mid - 1) + at_index sorted mid) / 2)%Q
      else at_index sorted mid in
    {| Statistics.min := min; Statistics.max := max;
       Statistics.average := average; Statistics.median := median;
       Statistics.total := total |}.

(** The median as the specification words it: on the ascending
    sequence of the values, the middle value for an odd count and the
    arithmetic mean of the two middle values for an even count. *)
Definition textbookMedian (values : list Z) : Q :=
  let sorted := Array_sort (fun a b => a - b) values in
  let mid := (length sorted / 2)%nat in
  if (length sorted mod 2 =? 0)%nat then
    ((inject_Z (at_index sorted (mid - 1)) + inject_Z (at_index sorted mid)) / 2)%Q
  else inject_Z (at_index sorted mid).

(** An entry of the ranking: [{rank, page, value, status}]. *)
Module Ranking.
Record t : Type := {
  rank : Z;
  page : Page;
  value : Z;
  status : string
}.
End Ranking.

(** [rankPagesByMetric(weeklyDataArray, metric)]. *)
Definition rankPagesByMetric (weeklyDataArray : list WeeklyPageData)
    (metric : MetricKey) : list Ranking.t :=
  if (length weeklyDataArray =? 0)%nat then []
  else
    imap
      (fun index item =>
         {| Ranking.rank := Z.of_nat index + 1;
            Ranking.page := Ranking.page item;
            Ranking.value := Ranking.value item;
            Ranking.status := Ranking.status item |})
      (Array_sort (fun a b => Ranking.value b - Ranking.value a)
         (map
            (fun data =>
               {| Ranking.rank := 0;
                  Ranking.page := page data;
                  Ranking.value := metricValue metric data;
                  Ranking.status := status data |})
            weeklyDataArray)).

(** The fields an entry of the ranking copies from its record, and the
    same fields read off the record. *)
Definition rankedFields (item : Ranking.t) : Page * Z * string :=
  (Ranking.page item, Ranking.value item, Ranking.status item).

Definition recordFields (metric : MetricKey) (data : WeeklyPageData)
    : Page * Z * string :=
  (page data, metricValue metric data, status data).

(** The triples whose value is [v]. *)
Definition hasValue (v : Z) (fields : Page * Z * string) : bool :=
  snd (fst fields) =? v.

(** An entry of the growth report:
    [{page, consecutiveWeeks, totalWeeks}]. *)
Module Growth.
Record t : Type := {
  page : Page;
  consecutiveWeeks : nat;
  totalWeeks : nat
}.
End Growth.

(** The [for (let i = 1; ...)] loop of [findConsistentGrowth], from the
    element at [i - 1] ([previous]) over the elements still ahead, with
    the two counters. *)
Fixpoint growthLoop (previous : Z) (ahead : list Z)
    (consecutiveGrowthWeeks maxConsecutiveGrowth : nat) : nat :=
  match ahead with
  | [] => maxConsecutiveGrowth
  | current :: ahead' =>
      if previous <? current then
        growthLoop current ahead' (S consecutiveGrowthWeeks)
          (Nat.max maxConsecutiveGrowth (S consecutiveGrowthWeeks))
      else growthLoop current ahead' 0%nat maxConsecutiveGrowth
  end.

Definition maxConsecutiveGrowth (values : list Z) : nat :=
  match values with
  | [] => 0%nat
  | first :: ahead => growthLoop first ahead 0%nat 0%nat
  end.

(** The longest run of strictly increasing consecutive values, as the
    specification words it, with the length of a run counted in
    increasing steps: [increasingRun values start steps] says that the
    [steps] steps from position [start] all go up. *)
Definition increasingRun (values : list Z) (start steps : nat) : Prop :=
  (start + steps < length values)%nat
  /\ forall j : nat,
       (start <= j < start + steps)%nat ->
       at_index values j < at_index values (S j).

Definition longestIncreasingRun (values : list Z) (steps : nat) : Prop :=
  (exists start : nat, increasingRun values start steps)
  /\ forall start steps' : nat,
       increasingRun values start steps' -> (steps' <= steps)%nat.

(** The same by recursion on the sequence: the steps that go up from
    the front, and the most over all positions. *)
Fixpoint climb (previous : Z) (ahead : list Z) : nat :=
  match ahead with
  | [] => 0%nat
  | current :: ahead' =>
      if previous <? current then S (climb current ahead') else 0%nat
  end.

Fixpoint longestClimb (values : list Z) : nat :=
  match values with
  | [] => 0%nat
  | first :: ahead => Nat.max (climb first ahead) (longestClimb ahead)
  end.

(** Ascending order of two records by [startDate], as strings. *)
Definition startsNoLater (a b : WeeklyPageData) : Prop :=
  String.le (startDate (period a)) (startDate (period b)).

(** [[...pageData].sort((a, b) =>
      a.period.startDate.localeCompare(b.period.startDate))]. *)
Definition sortByStartDate (pageData : list WeeklyPageData) : list WeeklyPageData :=
  Array_sort
    (fun a b => localeCompare (startDate (period a)) (startDate (period b)))
    pageData.

(** One turn of the [for (const pageId in dataByPage)] loop: the report
    after visiting [pageData].  [minWeeks] is a number of weeks. *)
Definition growthStep (metric : MetricKey) (minWeeks : nat)
    (consistentGrowthPages : list Growth.t) (pageData : list WeeklyPageData)
    : list Growth.t :=
  if (length pageData <? minWeeks + 1)%nat then consistentGrowthPages
  else
    let sorted := sortByStartDate pageData in
    let maxGrowth := maxConsecutiveGrowth (map (metricValue metric) sorted) in
    match sorted with
    | first :: _ =>
        if (minWeeks <=? maxGrowth)%nat then
          consistentGrowthPages
            ++ [ {| Growth.page := page first;
                    Growth.consecutiveWeeks := maxGrowth;
                    Growth.totalWeeks := length sorted |} ]
        else consistentGrowthPages
    | [] => consistentGrowthPages
    end.

(** What the report says of a page with records [pageData]: the page of
    its earliest record, the longest increasing run of its values in
    order of [startDate], and its number of records. *)
Definition reportsPage (metric : MetricKey) (pageData : list WeeklyPageData)
    (entry : Growth.t) : Prop :=
  (exists first rest,
     sortByStartDate pageData = first :: rest
     /\ Growth.page entry = page first)
  /\ longestIncreasingRun
       (map (metricValue metric) (sortByStartDate pageData))
       (Growth.consecutiveWeeks entry)
  /\ Growth.totalWeeks entry = length pageData.

(** [findConsistentGrowth(dataByPage, metric, minWeeks)]; [dataByPage]
    lists the own properties of the object in the order [for ... in]
    visits them. *)
Definition findConsistentGrowth
    (dataByPage : list (string * list WeeklyPageData))
    (metric : MetricKey) (minWeeks : nat) : list Growth.t :=
  Array_sort
    (fun a b =>
       Z.of_nat (Growth.consecutiveWeeks b) - Z.of_nat (Growth.consecutiveWeeks a))
    (fold_left (growthStep metric minWeeks) (map snd dataByPage) []).

(** ** aggregation_service.js *)

(** The [metrics] object of a group:
    [{totalEngagements, averageReach, weekCount}] ([pageCount] in
    [aggregateByWeek]). *)
Record GroupMetrics : Type := {
  totalEngagements : Z;
  averageReach : Z;
  weekCount : Z
}.

(** A group object.  The four grouping functions build the same shape:
    identifying fields taken from the first record of the group
    ([header]: [page]; [year], [month], [monthName]; [period]; [year],
    [quarter]), the member records ([weeks], or [pages] in
    [aggregateByWeek]) and [metrics]. *)
Record Group (H : Type) : Type := {
  header : H;
  weeks : list WeeklyPageData;
  groupMetrics : GroupMetrics
}.
Arguments header {H} g.
Arguments weeks {H} g.
Arguments groupMetrics {H} g.

(** The members of the group of key [k], the way the specification
    words a partition: the records with that key, in input order. *)
Definition membersOf (keyOf : WeeklyPageData -> string) (k : string)
    (weeklyDataArray : list WeeklyPageData) : list WeeklyPageData :=
  List.filter (fun data => String.eqb (keyOf data) k) weeklyDataArray.

Section Grouping.
Context {H : Type}.
Variable keyOf : WeeklyPageData -> string.
Variable headerOf : WeeklyPageData -> H.

(** The object literal assigned to a key that reads as falsy. *)
Definition freshGroup (data : WeeklyPageData) : Group H :=
  {| header := headerOf data;
     weeks := [];
     groupMetrics :=
       {| totalEngagements := 0; averageReach := 0; weekCount := 0 |} |}.

(** [g.weeks.push(data); g.metrics.totalEngagements += ...;
     g.metrics.weekCount++]. *)
Definition addMember (g : Group H) (data : WeeklyPageData) : Group H :=
  {| header := header g;
     weeks := weeks g ++ [data];
     groupMetrics :=
       {| totalEngagements :=
            totalEngagements (groupMetrics g) + engagements (metrics data);
          averageReach := averageReach (groupMetrics g);
          weekCount := weekCount (groupMetrics g) + 1 |} |}.

(** The group the [forEach] loop has built under key [k] once it has
    visited [visited]: none when no record had the key, else the
    records with the key under the header of the first of them. *)
Definition groupOf (k : string) (visited : list WeeklyPageData)
    : option (Group H) :=
  match membersOf keyOf k visited with
  | [] => None
  | (first :: _) as members =>
      Some
        {| header := headerOf first;
           weeks := members;
           groupMetrics :=
             {| totalEngagements :=
                  sum (map (fun data => engagements (metrics data)) members);
                averageReach := 0;
                weekCount := Z.of_nat (length members) |} |}
  end.

(** The body of the [forEach] callback.  When the key names an inherited
    member the test [!groups[key]] is false, no group is created, and
    [groups[key].weeks] is undefined: the [push] throws. *)
Definition groupStep (acc : completion (gmap string (Group H)))
    (data : WeeklyPageData) : completion (gmap string (Group H)) :=
  match acc with
  | TypeError => TypeError
  | Normal groups =>
      let k := keyOf data in
      let groups' :=
        if negb (truthy (js_get groups k)) then <[k := freshGroup data]> groups
        else groups in
      match js_get groups' k with
      | Own g => Normal (<[k := addMember g data]> groups')
      | Inherited | Undefined => TypeError
      end
  end.

(** The [for (const key in groups)] loop that fills in [averageReach]. *)
Definition setAverageReach (g : Group H) : Group H :=
  let reachValues := map (fun w => reach (metrics w)) (weeks g) in
  {| header := header g;
     weeks := weeks g;
     groupMetrics :=
       {| totalEngagements := totalEngagements (groupMetrics g);
          averageReach := calculateAverageReach (Some reachValues);
          weekCount := weekCount (groupMetrics g) |} |}.

Definition aggregateBy (weeklyDataArray : list WeeklyPageData)
    : completion (gmap string (Group H)) :=
  if (length weeklyDataArray =? 0)%nat then Normal ∅
  else
    match fold_left groupStep weeklyDataArray (Normal ∅) with
    | Normal groups => Normal (setAverageReach <$> groups)
    | TypeError => TypeError
    end.

End Grouping.

(** What the specification asks of a grouping function with key
    [keyOf]: it returns an object in which every record is a member of
    the group under its key, and in which each group holds exactly the
    records with its key, identified by the first of them, with the sum
    of their engagements, the rounded mean of their reach (which is not
    their sum when there are two or more, all positive) and their
    number. *)
Definition groupedBy {H : Type} (keyOf : WeeklyPageData -> string)
    (headerOf : WeeklyPageData -> H) (weeklyDataArray : list WeeklyPageData)
    (result : completion (gmap string (Group H))) : Prop :=
  exists groups : gmap string (Group H),
    result = Normal groups
    /\ (forall data,
          In data weeklyDataArray ->
          exists g, groups !! keyOf data = Some g /\ In data (weeks g))
    /\ (forall k g,
          groups !! k = Some g ->
          weeks g = membersOf keyOf k weeklyDataArray
          /\ (exists first rest,
                weeks g = first :: rest /\ header g = headerOf first)
          /\ totalEngagements (groupMetrics g)
             = sum (map (fun data => engagements (metrics data)) (weeks g))
          /\ averageReach (groupMetrics g)
             = Math_round
                 (inject_Z (sum (map (fun data => reach (metrics data)) (weeks g)))
                  / inject_Z (Z.of_nat (length (weeks g))))%Q
          /\ weekCount (groupMetrics g) = Z.of_nat (length (weeks g))
          /\ ((1 < length (weeks g))%nat ->
              Forall (fun data => 0 < reach (metrics data)) (weeks g) ->
              averageReach (groupMetrics g)
              <> sum (map (fun data => reach (metrics data)) (weeks g)))).

(** [aggregateByPage(weeklyDataArray)]. *)
Definition aggregateByPage : list WeeklyPageData -> completion (gmap string (Group Page)) :=
  aggregateBy (fun data => pageId (page data)) page.

(** [aggregateByWeek(weeklyDataArray)]. *)
Definition aggregateByWeek : list WeeklyPageData -> completion (gmap string (Group WeekPeriod)) :=
  aggregateBy (fun data => getPeriodKey (period data)) period.

(** [`${year}_${String(month).padStart(2, '0')}`]. *)
Definition monthKey (getMonthNumber : WeekPeriod -> Z) (data : WeeklyPageData) : string :=
  Number_toString (year (period data)) +:+ "_"
  +:+ padStart 2 "0"%char (Number_toString (getMonthNumber (period data))).

(** The identifying fields [{year, month, monthName}]. *)
Record MonthHeader : Type := {
  monthYear : Z;
  month : Z;
  monthName : string
}.

(** [aggregateByMonth(weeklyDataArray)]; [getMonthNumber] and
    [getMonthName] read the month of [startDate] through the host's
    [Date]. *)
Definition aggregateByMonth (getMonthNumber : WeekPeriod -> Z)
    (getMonthName : WeekPeriod -> string)
    : list WeeklyPageData -> completion (gmap string (Group MonthHeader)) :=
  aggregateBy (monthKey getMonthNumber)
    (fun data =>
       {| monthYear := year (period data);
          month := getMonthNumber (period data);
          monthName := getMonthName (period data) |}).

(** [Math.ceil(month / 3)]. *)
Definition quarterOf (month : Z) : Z := Math_ceil (inject_Z month / 3)%Q.

(** [`${year}_Q${quarter}`]. *)
Definition quarterKey (getMonthNumber : WeekPeriod -> Z) (data : WeeklyPageData) : string :=
  Number_toString (year (period data)) +:+ "_Q"
  +:+ Number_toString (quarterOf (getMonthNumber (period data))).

(** The identifying fields [{year, quarter}]. *)
Record QuarterHeader : Type := {
  quarterYear : Z;
  quarter : Z
}.

(** [aggregateByQuarter(weeklyDataArray)]. *)
Definition aggregateByQuarter (getMonthNumber : WeekPeriod -> Z)
    : list WeeklyPageData -> completion (gmap string (Group QuarterHeader)) :=
  aggregateBy (quarterKey getMonthNumber)
    (fun data =>
       {| quarterYear := year (period data);
          quarter := quarterOf (getMonthNumber (period data)) |}).

(** A row of the pivot table: [{page, weeks}]. *)
Module PivotRow.
Record t : Type := {
  page : Page;
  weeks : gmap string Z
}.
End PivotRow.

(** The pivot table [{pages, weeks, data, metric}]; the result for an
    empty input has no [metric] field. *)
Module PivotTable.
Record t : Type := {
  pages : list string;
  weeks : list string;
  data : gmap string PivotRow.t;
  metric : option MetricKey
}.
End PivotTable.

(** The assignments [weeks[weekKey] = data.metrics[metric]] of the
    records [members], in order, onto the object [weeks]. *)
Definition assignWeeks (metric : MetricKey) (members : list WeeklyPageData)
    (weeks : gmap string Z) : gmap string Z :=
  fold_left
    (fun weeks data =>
       js_set_number weeks (getPeriodKey (period data)) (metricValue metric data))
    members weeks.

(** The row the [forEach] loop of [createPivotTable] has built for page
    [p] once it has visited [visited]. *)
Definition rowOf (metric : MetricKey) (p : string)
    (visited : list WeeklyPageData) : option PivotRow.t :=
  match membersOf (fun data => pageId (page data)) p visited with
  | [] => None
  | (first :: _) as members =>
      Some {| PivotRow.page := page first;
              PivotRow.weeks := assignWeeks metric members ∅ |}
  end.

(** The pair that identifies a record: [(periodKey, pageId)]. *)
Definition uniqueId (data : WeeklyPageData) : string * string :=
  (getPeriodKey (period data), pageId (page data)).

(** The body of the [forEach] callback of [createPivotTable]. *)
Definition pivotStep (metric : MetricKey)
    (acc : completion (gmap string PivotRow.t)) (data : WeeklyPageData)
    : completion (gmap string PivotRow.t) :=
  match acc with
  | TypeError => TypeError
  | Normal pivotData =>
      let pageId := pageId (page data) in
      let weekKey := getPeriodKey (period data) in
      let pivotData' :=
        if negb (truthy (js_get pivotData pageId)) then
          <[pageId := {| PivotRow.page := page data; PivotRow.weeks := ∅ |}]>
            pivotData
        else pivotData in
      match js_get pivotData' pageId with
      | Own row =>
          Normal
            (<[pageId :=
                 {| PivotRow.page := PivotRow.page row;
                    PivotRow.weeks :=
                      js_set_number (PivotRow.weeks row) weekKey
                        (metricValue metric data) |}]>
               pivotData')
      | Inherited | Undefined => TypeError
      end
  end.

(** [createPivotTable(weeklyDataArray, metric)]. *)
Definition createPivotTable (weeklyDataArray : list WeeklyPageData)
    (metric : MetricKey) : completion PivotTable.t :=
  if (length weeklyDataArray =? 0)%nat then
    Normal {| PivotTable.pages := []; PivotTable.weeks := [];
              PivotTable.data := ∅; PivotTable.metric := None |}
  else
    let uniquePages := Set_of (map (fun d => pageId (page d)) weeklyDataArray) in
    let uniqueWeeks :=
      Array_sort codeUnitCompare
        (Set_of (map (fun d => getPeriodKey (period d)) weeklyDataArray)) in
    match fold_left (pivotStep metric) weeklyDataArray (Normal ∅) with
    | Normal pivotData =>
        Normal {| PivotTable.pages := uniquePages;
                  PivotTable.weeks := uniqueWeeks;
                  PivotTable.data := pivotData;
                  PivotTable.metric := Some metric |}
    | TypeError => TypeError
    end.

(** ** weekly_analytics.js: trends, best and worst week, comparison *)

(** The object [{average, trend, changePercent}]. *)
Module Trend.
Record t : Type := {
  average : Z;
  trend : string;
  changePercent : Q
}.
End Trend.

(** [calculateAverageTrend(values)] on an array of metric values. *)
Definition calculateAverageTrend (values : list Z) : Trend.t :=
  if (length values =? 0)%nat then
    {| Trend.average := 0; Trend.trend := "neutral"; Trend.changePercent := 0 |}
  else if (length values =? 1)%nat then
    {| Trend.average := at_index values 0; Trend.trend := "neutral";
       Trend.changePercent := 0 |}
  else
    let average := (inject_Z (sum values) / inject_Z (Z.of_nat (length values)))%Q in
    let first := at_index values 0 in
    let last := at_index values (length values - 1) in
    let changePercent :=
      calculateWeekOverWeekChange (inject_Z last) (inject_Z first) in
    let trend :=
      if Qgt_bool changePercent 5 then "increasing"%string
      else if Qgt_bool (-5) changePercent then "decreasing"%string
      else "neutral"%string in
    {| Trend.average := Math_round average; Trend.trend := trend;
       Trend.changePercent := changePercent |}.

(** An entry of the week-to-week series:
    [{period, reach, engagements, reachChange, engagementsChange}]. *)
Module WeekTrend.
Record t : Type := {
  period : WeekPeriod;
  reach : Z;
  engagements : Z;
  reachChange : Q;
  engagementsChange : Q
}.
End WeekTrend.

(** The [for] loop of [calculateWeekToWeekTrend] over the records still
    ahead; [previous] is [sorted[i - 1]], or [null] at the first turn. *)
Fixpoint weekTrendLoop (previous : option WeeklyPageData)
    (ahead : list WeeklyPageData) : list WeekTrend.t :=
  match ahead with
  | [] => []
  | current :: ahead' =>
      {| WeekTrend.period := period current;
         WeekTrend.reach := reach (metrics current);
         WeekTrend.engagements := engagements (metrics current);
         WeekTrend.reachChange :=
           match previous with
           | Some previous =>
               calculateWeekOverWeekChange
                 (inject_Z (reach (metrics current)))
                 (inject_Z (reach (metrics previous)))
           | None => 0%Q
           end;
         WeekTrend.engagementsChange :=
           match previous with
           | Some previous =>
               calculateWeekOverWeekChange
                 (inject_Z (engagements (metrics current)))
                 (inject_Z (engagements (metrics previous)))
           | None => 0%Q
           end |}
      :: weekTrendLoop (Some current) ahead'
  end.

(** [calculateWeekToWeekTrend(weeklyDataArray)]. *)
Definition calculateWeekToWeekTrend (weeklyDataArray : list WeeklyPageData)
    : list WeekTrend.t :=
  if (length weeklyDataArray =? 0)%nat then []
  else weekTrendLoop None (sortByStartDate weeklyDataArray).

(** The object [{best, worst}]; [None] is [null]. *)
Module BestWorst.
Record t : Type := {
  best : option WeeklyPageData;
  worst : option WeeklyPageData
}.
End BestWorst.

(** The [forEach] callback of [findBestAndWorstWeek] on the pair
    [(best, worst)]. *)
Definition bestWorstStep (metric : MetricKey)
    (acc : WeeklyPageData * WeeklyPageData) (data : WeeklyPageData)
    : WeeklyPageData * WeeklyPageData :=
  let value := metricValue metric data in
  (if metricValue metric (fst acc) <? value then data else fst acc,
   if value <? metricValue metric (snd acc) then data else snd acc).

(** [findBestAndWorstWeek(weeklyDataArray, metric)]. *)
Definition findBestAndWorstWeek (weeklyDataArray : list WeeklyPageData)
    (metric : MetricKey) : BestWorst.t :=
  match weeklyDataArray with
  | [] => {| BestWorst.best := None; BestWorst.worst := None |}
  | first :: _ =>
      let result := fold_left (bestWorstStep metric) weeklyDataArray (first, first) in
      {| BestWorst.best := Some (fst result); BestWorst.worst := Some (snd result) |}
  end.

(** [list = earlier ++ chosen :: later]: [chosen] is the first record
    of [list] with the greatest (or least) value when every earlier
    value is strictly on the other side and no later value beats it. *)
Definition firstGreatest (metric : MetricKey) (chosen : WeeklyPageData)
    (list : list WeeklyPageData) : Prop :=
  exists earlier later,
    list = earlier ++ chosen :: later
    /\ Forall (fun d => metricValue metric d < metricValue metric chosen) earlier
    /\ Forall (fun d => metricValue metric d <= metricValue metric chosen) later.

Definition firstLeast (metric : MetricKey) (chosen : WeeklyPageData)
    (list : list WeeklyPageData) : Prop :=
  exists earlier later,
    list = earlier ++ chosen :: later
    /\ Forall (fun d => metricValue metric chosen < metricValue metric d) earlier
    /\ Forall (fun d => metricValue metric chosen <= metricValue metric d) later.

(** The object [{period1, period2, reachChange, engagementsChange}],
    each period with the statistics of both metrics. *)
Module PeriodComparison.
Record stats : Type := {
  reach : Statistics.t;
  engagements : Statistics.t
}.
Record t : Type := {
  period1 : stats;
  period2 : stats;
  reachChange : Q;
  engagementsChange : Q
}.
End PeriodComparison.



(** ** reach_calculator.js: range, comparison and monthly reach *)

(** The object [{min, max}]. *)
Module ReachRange.
Record t : Type := { min : Z; max : Z }.
End ReachRange.

(** [findReachRange(reachValues)]. *)
Definition findReachRange (reachValues : list Z) : ReachRange.t :=
  if (length reachValues =? 0)%nat then
    {| ReachRange.min := 0; ReachRange.max := 0 |}
  else
    {| ReachRange.min := Math_min reachValues;
       ReachRange.max := Math_max reachValues |}.

(** [calculateAverageReachFromData(weeklyDataArray)]. *)
Definition calculateAverageReachFromData (weeklyDataArray : list WeeklyPageData) : Z :=
  if (length weeklyDataArray =? 0)%nat then 0
  else
    let reachValues := map (fun data => reach (metrics data)) weeklyDataArray in
    calculateAverageReach (Some reachValues).

(** The object [{difference, percentChange, interpretation}]. *)
Module ReachComparison.
Record t : Type := {
  difference : Z;
  percentChange : Q;
  interpretation : string
}.
End ReachComparison.

(** [compareReachBetweenWeeks(week1Reach, week2Reach)]. *)
Definition compareReachBetweenWeeks (week1Reach week2Reach : Z)
    : ReachComparison.t :=
  let difference := week2Reach - week1Reach in
  let percentChange :=
    if 0 <? week1Reach then
      js_div
        (inject_Z
           (Math_round
              (js_mul
                 (js_mul (js_div (inject_Z difference) (inject_Z week1Reach)) 100)
                 10)))
        10
    else 0%Q in
  let interpretation :=
    if Qgt_bool percentChange 5 then "increase"%string
    else if Qgt_bool (-5) percentChange then "decrease"%string
    else "neutral"%string in
  {| ReachComparison.difference := difference;
     ReachComparison.percentChange := percentChange;
     ReachComparison.interpretation := interpretation |}.

(** An element [{week, reach}] of the argument of [analyzeReachTrend],
    and its result
    [{average, min, max, trend, overallChange, weekCount}]. *)
Module ReachTrend.
Record point : Type := { week : Z; reach : Z }.
Record t : Type := {
  average : Z;
  min : Z;
  max : Z;
  trend : string;
  overallChange : Q;
  weekCount : nat
}.
End ReachTrend.

(** [analyzeReachTrend(weeklyData)]; [None] is [null]. *)
Definition analyzeReachTrend (weeklyData : list ReachTrend.point)
    : option ReachTrend.t :=
  if (length weeklyData =? 0)%nat then None
  else
    let sorted :=
      Array_sort (fun a b => ReachTrend.week a - ReachTrend.week b) weeklyData in
    let reachValues := map ReachTrend.reach sorted in
    let average := calculateAverageReach (Some reachValues) in
    let range := findReachRange reachValues in
    let firstWeek := at_index reachValues 0 in
    let lastWeek := at_index reachValues (length sorted - 1) in
    let trendComparison := compareReachBetweenWeeks firstWeek lastWeek in
    Some {| ReachTrend.average := average;
            ReachTrend.min := ReachRange.min range;
            ReachTrend.max := ReachRange.max range;
            ReachTrend.trend := ReachComparison.interpretation trendComparison;
            ReachTrend.overallChange :=
              ReachComparison.percentChange trendComparison;
            ReachTrend.weekCount := length sorted |}.

(** The [forEach] callback of [groupReachByMonth]: the reach is pushed
    onto the array under the month key, created when the key reads as
    falsy. *)
Definition reachByMonthStep (getMonthNumber : WeekPeriod -> Z)
    (acc : completion (gmap string (list Z))) (data : WeeklyPageData)
    : completion (gmap string (list Z)) :=
  match acc with
  | TypeError => TypeError
  | Normal monthlyGroups =>
      let k := monthKey getMonthNumber data in
      let monthlyGroups' :=
        if negb (truthy (js_get monthlyGroups k)) then <[k := []]> monthlyGroups
        else monthlyGroups in
      match js_get monthlyGroups' k with
      | Own values =>
          Normal (<[k := values ++ [reach (metrics data)]]> monthlyGroups')
      | Inherited | Undefined => TypeError
      end
  end.

(** [groupReachByMonth(weeklyDataArray)]: month key to average reach. *)
Definition groupReachByMonth (getMonthNumber : WeekPeriod -> Z)
    (weeklyDataArray : list WeeklyPageData) : completion (gmap string Z) :=
  if (length weeklyDataArray =? 0)%nat then Normal ∅
  else
    match fold_left (reachByMonthStep getMonthNumber) weeklyDataArray (Normal ∅) with
    | Normal monthlyGroups =>
        Normal ((fun values => calculateAverageReach (Some values))
                  <$> monthlyGroups)
    | TypeError => TypeError
    end.

(** ** weekly_models.js: the dataset and its helpers *)

Module WeeklyModels.

(** [calculateAverageReach(weeklyDataArray)] of weekly_models.js, on
    records. *)
Definition calculateAverageReach (weeklyDataArray : list WeeklyPageData) : Z :=
  if (length weeklyDataArray =? 0)%nat then 0
  else
    let totalReach :=
      fold_left (fun sum item => sum + reach (metrics item)) weeklyDataArray 0 in
    Math_round
      (inject_Z totalReach / inject_Z (Z.of_nat (length weeklyDataArray)))%Q.

(** [calculateTotalEngagements(weeklyDataArray)]. *)
Definition calculateTotalEngagements (weeklyDataArray : list WeeklyPageData) : Z :=
  fold_left (fun sum item => sum + engagements (metrics item)) weeklyDataArray 0.

(** The [forEach] callback of [groupByMonth]. *)
Definition groupByMonthStep (getMonthNumber : WeekPeriod -> Z)
    (acc : completion (gmap string (list WeeklyPageData))) (item : WeeklyPageData)
    : completion (gmap string (list WeeklyPageData)) :=
  match acc with
  | TypeError => TypeError
  | Normal grouped =>
      let k := monthKey getMonthNumber item in
      let grouped' :=
        if negb (truthy (js_get grouped k)) then <[k := []]> grouped
        else grouped in
      match js_get grouped' k with
      | Own items => Normal (<[k := items ++ [item]]> grouped')
      | Inherited | Undefined => TypeError
      end
  end.

(** [groupByMonth(weeklyDataArray)]. *)
Definition groupByMonth (getMonthNumber : WeekPeriod -> Z)
    (weeklyDataArray : list WeeklyPageData)
    : completion (gmap string (list WeeklyPageData)) :=
  fold_left (groupByMonthStep getMonthNumber) weeklyDataArray (Normal ∅).

(** A [Map] with string keys: its entries in insertion order. *)
Definition Map_has {V : Type} (m : list (string * V)) (k : string) : bool :=
  existsb (fun entry => String.eqb (fst entry) k) m.

(** [if (!m.has(k)) m.set(k, v)]. *)
Definition Map_set_if_absent {V : Type} (m : list (string * V)) (k : string)
    (v : V) : list (string * V) :=
  if negb (Map_has m k) then m ++ [(k, v)] else m.

(** [dataset.getUniquePages()]. *)
Definition getUniquePages (data : list WeeklyPageData) : list Page :=
  let pagesMap :=
    fold_left
      (fun pagesMap item => Map_set_if_absent pagesMap (pageId (page item)) (page item))
      data [] in
  map snd pagesMap.

(** [dataset.getUniquePeriods()]: the comparator orders by year, then
    by week. *)
Definition getUniquePeriods (data : list WeeklyPageData) : list WeekPeriod :=
  let periodsMap :=
    fold_left
      (fun periodsMap item =>
         Map_set_if_absent periodsMap (getPeriodKey (period item)) (period item))
      data [] in
  Array_sort
    (fun a b => if negb (year a =? year b) then year a - year b else week a - week b)
    (map snd periodsMap).

(** [dataset.getDataForPage(pageId)]. *)
Definition getDataForPage (data : list WeeklyPageData) (id : string)
    : list WeeklyPageData :=
  List.filter (fun item => String.eqb (pageId (page item)) id) data.

(** [dataset.getDataForPeriod(year, week)]. *)
Definition getDataForPeriod (data : list WeeklyPageData) (y w : Z)
    : list WeeklyPageData :=
  List.filter (fun item => (year (period item) =? y) && (week (period item) =? w)) data.

(** [weeklyData.getUniqueId()]: [`${periodKey}_${pageId}`]. *)
Definition getUniqueId (data : WeeklyPageData) : string :=
  getPeriodKey (period data) +:+ "_" +:+ pageId (page data).

(** [period.getDisplayString()]. *)
Definition getDisplayString (p : WeekPeriod) : string :=
  "Vecka " +:+ Number_toString (week p) +:+ " (" +:+ startDate p
  +:+ " → " +:+ endDate p +:+ ")".

End WeeklyModels.

(** Year first, then week: the order of [getUniquePeriods]. *)
Definition periodNoLater (a b : WeekPeriod) : Prop :=
  year a < year b \/ (year a = year b /\ week a <= week b).


(** ** aggregation_service.js: totals, summary, series, comparison *)

(** [sumEngagements(weeklyDataArray)]. *)
Definition sumEngagements (weeklyDataArray : list WeeklyPageData) : Z :=
  if (length weeklyDataArray =? 0)%nat then 0
  else fold_left (fun sum data => sum + engagements (metrics data)) weeklyDataArray 0.

(** [calculateTotalReach(weeklyDataArray)]: the average, not a sum. *)
Definition calculateTotalReach (weeklyDataArray : list WeeklyPageData) : Z :=
  if (length weeklyDataArray =? 0)%nat then 0
  else
    let reachValues := map (fun data => reach (metrics data)) weeklyDataArray in
    calculateAverageReach (Some reachValues).

(** The object [{totalWeeks, totalPages, totalDataPoints, metrics}]; the
    result for an empty input has no [totalDataPoints]. *)
Module Summary.
Record metrics : Type := {
  totalEngagements : Z;
  averageReach : Z
}.
Record t : Type := {
  totalWeeks : nat;
  totalPages : nat;
  totalDataPoints : option nat;
  summaryMetrics : metrics
}.
End Summary.

(** [createSummary(weeklyDataArray)]; the size of a [Set] is the number
    of its distinct elements. *)
Definition createSummary (weeklyDataArray : list WeeklyPageData) : Summary.t :=
  if (length weeklyDataArray =? 0)%nat then
    {| Summary.totalWeeks := 0; Summary.totalPages := 0;
       Summary.totalDataPoints := None;
       Summary.summaryMetrics :=
         {| Summary.totalEngagements := 0; Summary.averageReach := 0 |} |}
  else
    let uniquePages := Set_of (map (fun d => pageId (page d)) weeklyDataArray) in
    let uniqueWeeks :=
      Set_of (map (fun d => getPeriodKey (period d)) weeklyDataArray) in
    {| Summary.totalWeeks := length uniqueWeeks;
       Summary.totalPages := length uniquePages;
       Summary.totalDataPoints := Some (length weeklyDataArray);
       Summary.summaryMetrics :=
         {| Summary.totalEngagements := sumEngagements weeklyDataArray;
            Summary.averageReach := calculateTotalReach weeklyDataArray |} |}.

(** The result of [aggregatePageTimeseries]:
    [{page, timeseries, summary}] with entries
    [{period, metrics, status}]. *)
Module Timeseries.
Record periodView : Type := {
  year : Z;
  week : Z;
  startDate : string;
  endDate : string;
  displayString : string
}.
Record entry : Type := {
  period : periodView;
  metrics : WeeklyMetrics;
  status : string
}.
Record summary : Type := {
  weekCount : nat;
  totalEngagements : Z;
  averageReach : Z
}.
Record t : Type := {
  page : Page;
  timeseries : list entry;
  seriesSummary : summary
}.
End Timeseries.

(** The callback of [sorted.map] in [aggregatePageTimeseries]. *)
Definition timeseriesEntry (data : WeeklyPageData) : Timeseries.entry :=
  {| Timeseries.period :=
       {| Timeseries.year := year (period data);
          Timeseries.week := week (period data);
          Timeseries.startDate := startDate (period data);
          Timeseries.endDate := endDate (period data);
          Timeseries.displayString :=
            WeeklyModels.getDisplayString (period data) |};
     Timeseries.metrics :=
       {| reach := reach (metrics data);
          engagements := engagements (metrics data) |};
     Timeseries.status := status data |}.

(** [aggregatePageTimeseries(weeklyDataArray)]; [None] is [null]. *)
Definition aggregatePageTimeseries (weeklyDataArray : list WeeklyPageData)
    : option Timeseries.t :=
  if (length weeklyDataArray =? 0)%nat then None
  else
    let sorted := sortByStartDate weeklyDataArray in
    let timeseries := map timeseriesEntry sorted in
    match sorted with
    | first :: _ =>
        Some {| Timeseries.page := page first;
                Timeseries.timeseries := timeseries;
                Timeseries.seriesSummary :=
                  {| Timeseries.weekCount := length timeseries;
                     Timeseries.totalEngagements := sumEngagements sorted;
                     Timeseries.averageReach := calculateTotalReach sorted |} |}
    | [] => None
    end.

(** An entry of the week comparison: [{page, metrics, status}]. *)
Module WeekComparison.
Record t : Type := {
  page : Page;
  metrics : WeeklyMetrics;
  status : string
}.
End WeekComparison.

(** The callback of [weekData.map] in [aggregateForWeekComparison]. *)
Definition comparisonEntry (data : WeeklyPageData) : WeekComparison.t :=
  {| WeekComparison.page := page data;
     WeekComparison.metrics :=
       {| reach := reach (metrics data);
          engagements := engagements (metrics data) |};
     WeekComparison.status := status data |}.

(** [aggregateForWeekComparison(weeklyDataArray, year, week)]. *)
Definition aggregateForWeekComparison (weeklyDataArray : list WeeklyPageData)
    (y w : Z) : list WeekComparison.t :=
  if (length weeklyDataArray =? 0)%nat then []
  else
    let weekData :=
      List.filter
        (fun data => (year (period data) =? y) && (week (period data) =? w))
        weeklyDataArray in
    Array_sort
      (fun a b =>
         engagements (WeekComparison.metrics b)
         - engagements (WeekComparison.metrics a))
      (map comparisonEntry weekData).

(** An entry of the distribution: [{page, engagements, percentage}]. *)
Module Distribution.
Record t : Type := {
  page : Page;
  engagements : Z;
  percentage : Q
}.
End Distribution.

(** [Math.round((engagements / totalEngagements) * 100 * 10)]: the
    share in tenths of a percent. *)
Definition shareTenths (totalEngagements engagements : Z) : Z :=
  Math_round
    (js_mul
       (js_mul (js_div (inject_Z engagements) (inject_Z totalEngagements)) 100)
       10).

(** [calculateEngagementDistribution(weeklyDataArray)]. *)
Definition calculateEngagementDistribution (weeklyDataArray : list WeeklyPageData)
    : list Distribution.t :=
  if (length weeklyDataArray =? 0)%nat then []
  else
    let totalEngagements := sumEngagements weeklyDataArray in
    if totalEngagements =? 0 then
      map
        (fun data =>
           {| Distribution.page := page data;
              Distribution.engagements := 0;
              Distribution.percentage := 0 |})
        weeklyDataArray
    else
      Array_sort
        (fun a b => Distribution.engagements b - Distribution.engagements a)
        (map
           (fun data =>
              {| Distribution.page := page data;
                 Distribution.engagements := engagements (metrics data);
                 Distribution.percentage :=
                   js_div
                     (inject_Z
                        (shareTenths totalEngagements (engagements (metrics data))))
                     10 |})
           weeklyDataArray).

(** The sum of a list of numbers. *)
Definition Qsum (values : list Q) : Q := fold_right Qplus 0%Q values.

(** The sum of one field of [metrics] over the groups of a result
    object. *)
Definition overGroups {H : Type} (field : GroupMetrics -> Z)
    (groups : gmap string (Group H)) : Z :=
  map_fold (fun _ g acc => acc + field (groupMetrics g)) 0 groups.

(** ** period_extractor.js: sequences of periods *)

Module PeriodExtractor.

(** The weeks that [for (let week = first; week <= last; week++)]
    visits. *)
Definition weeksFromTo (first last : Z) : list Z :=
  map (fun i => first + Z.of_nat i) (seq 0 (Z.to_nat (last - first + 1))).

(** [existingWeeks.has(week)] on the [Set] built from an array. *)
Definition Set_has (elements : list Z) (x : Z) : bool :=
  existsb (Z.eqb x) elements.

(** [findMissingWeeks(periods)]; the function reads only the [week] of
    each period. *)
Definition findMissingWeeks (periods : list WeekPeriod) : list Z :=
  if (length periods =? 0)%nat then []
  else
    let sortedPeriods := Array_sort (fun a b => week a - week b) periods in
    let first := at_index (map week sortedPeriods) 0 in
    let last := at_index (map week sortedPeriods) (length sortedPeriods - 1) in
    let existingWeeks := map week periods in
    List.filter (fun week => negb (Set_has existingWeeks week))
      (weeksFromTo first last).

(** The object [{isValid, duplicates}]. *)
Module PeriodSequence.
Record t : Type := {
  isValid : bool;
  duplicates : list WeekPeriod
}.
End PeriodSequence.

(** The body of the [for (const period of periods)] loop of
    [validatePeriodSequence] on the result and the [Set] of seen keys;
    the key is the template [`${period.year}_${period.week}`]. *)
Definition sequenceStep (acc : PeriodSequence.t * list string)
    (period : WeekPeriod) : PeriodSequence.t * list string :=
  let (result, seenPeriods) := acc in
  let periodKey :=
    Number_toString (year period) +:+ "_" +:+ Number_toString (week period) in
  if bool_decide (periodKey ∈ seenPeriods) then
    ({| PeriodSequence.isValid := false;
        PeriodSequence.duplicates :=
          PeriodSequence.duplicates result ++ [period] |},
     seenPeriods)
  else (result, seenPeriods ++ [periodKey]).

(** [validatePeriodSequence(periods)]. *)
Definition validatePeriodSequence (periods : list WeekPeriod)
    : PeriodSequence.t :=
  let result :=
    {| PeriodSequence.isValid := true; PeriodSequence.duplicates := [] |} in
  if (length periods =? 0)%nat then result
  else fst (fold_left sequenceStep periods (result, [])).

End PeriodExtractor.

(** ** metric_categorizer.js: the views of the registry *)

Module MetricViews.
Import MetricCategorizer.

(** [Object.keys(METRIC_DEFINITIONS)]: the own keys in the order of the
    literal. *)
Definition Object_keys_METRIC_DEFINITIONS : list string :=
  ["reach"; "engagements"; "status"; "comment"]%string.

(** [METRIC_DEFINITIONS[key].category === c]; on an inherited member
    the field is undefined. *)
Definition categoryIs (c : string) (key : string) : bool :=
  match js_get METRIC_DEFINITIONS key with
  | Own metric => String.eqb (category metric) c
  | Inherited | Undefined => false
  end.

(** [METRIC_DEFINITIONS[key].formatType === 'number']. *)
Definition isNumber (key : string) : bool :=
  match js_get METRIC_DEFINITIONS key with
  | Own metric => String.eqb (formatType metric) "number"
  | Inherited | Undefined => false
  end.

(** [getSummableMetrics()]. *)
Definition getSummableMetrics : list string :=
  List.filter (categoryIs "summable") Object_keys_METRIC_DEFINITIONS.

(** [getNonSummableMetrics()]. *)
Definition getNonSummableMetrics : list string :=
  List.filter (categoryIs "non_summable") Object_keys_METRIC_DEFINITIONS.

(** [getNumericMetrics()]. *)
Definition getNumericMetrics : list string :=
  List.filter isNumber Object_keys_METRIC_DEFINITIONS.

(** [getMetadataFields()]. *)
Definition getMetadataFields : list string :=
  List.filter (categoryIs "metadata") Object_keys_METRIC_DEFINITIONS.

(** [canCompareMetrics(metric1Key, metric2Key)]: false when either
    lookup is falsy, else whether both have [formatType] ['number']. *)
Definition canCompareMetrics (metric1Key metric2Key : string) : bool :=
  if negb (truthy (js_get METRIC_DEFINITIONS metric1Key))
     || negb (truthy (js_get METRIC_DEFINITIONS metric2Key))
  then false
  else isNumber metric1Key && isNumber metric2Key.

(** An entry [{key, label, category, canSum}] of [getMetricOptions]. *)
Record MetricOption : Type := {
  optionKey : string;
  label : string;
  optionCategory : string;
  optionCanSum : bool
}.

(** [getMetricOptions(includeMetadata)]: the [for ... in] loop visits
    the own keys in the order of the literal; [Object.prototype] has no
    enumerable member. *)
Definition getMetricOptions (includeMetadata : bool) : list MetricOption :=
  flat_map
    (fun key =>
       match js_get METRIC_DEFINITIONS key with
       | Own metric =>
           if negb includeMetadata && String.eqb (category metric) "metadata"
           then []
           else [ {| optionKey := MetricCategorizer.key metric;
                     label := displayName metric;
                     optionCategory := category metric;
                     optionCanSum := canSum metric |} ]
       | Inherited | Undefined => []
       end)
    Object_keys_METRIC_DEFINITIONS.

End MetricViews.

(** ** period_extractor.js and period_validator.js: file names *)

Module Filename.

(** [\d]: the ten ASCII digits. *)
Definition isDigit (c : ascii) : bool :=
  (48 <=? nat_of_ascii c)%nat && (nat_of_ascii c <=? 57)%nat.

Definition digitValue (c : ascii) : Z := Z.of_nat (nat_of_ascii c) - 48.

(** [[_-]]. *)
Definition isSeparator (c : ascii) : bool :=
  Ascii.eqb c "_" || Ascii.eqb c "-".

(** Upper and lower case of a character, on ASCII letters. *)
Definition toUpperCase (c : ascii) : ascii :=
  if (97 <=? nat_of_ascii c)%nat && (nat_of_ascii c <=? 122)%nat
  then ascii_of_nat (nat_of_ascii c - 32)
  else c.

Definition toLowerCase (c : ascii) : ascii :=
  if (65 <=? nat_of_ascii c)%nat && (nat_of_ascii c <=? 90)%nat
  then ascii_of_nat (nat_of_ascii c + 32)
  else c.

(** Two characters match under the [i] flag. *)
Definition sameIgnoringCase (c d : ascii) : bool :=
  Ascii.eqb (toUpperCase c) (toUpperCase d).

(** The literal [literal] at the start of [s] under the [i] flag: what
    follows it. *)
Fixpoint literally (literal s : list ascii) : option (list ascii) :=
  match literal, s with
  | [], _ => Some s
  | l :: literal', c :: s' =>
      if sameIgnoringCase c l then literally literal' s' else None
  | _ :: _, [] => None
  end.

(** [(?:\.csv)?$]: the extension and the end, else the end. *)
Definition optionalCsvThenEnd (s : list ascii) : bool :=
  match literally (list_ascii_of_string ".csv") s with
  | Some [] => true
  | _ => match s with [] => true | _ :: _ => false end
  end.

(** [\.csv$]. *)
Definition csvThenEnd (s : list ascii) : bool :=
  match literally (list_ascii_of_string ".csv") s with
  | Some [] => true
  | _ => false
  end.

(** [(\d{1,2})] in front of [tail]: two digits are tried before one;
    the result is the captured group. *)
Definition digitsThen (tail : list ascii -> bool) (s : list ascii)
    : option (list ascii) :=
  match s with
  | d1 :: d2 :: rest =>
      if isDigit d1 && isDigit d2 && tail rest then Some [d1; d2]
      else if isDigit d1 && tail (d2 :: rest) then Some [d1]
      else None
  | [d1] => if isDigit d1 && tail [] then Some [d1] else None
  | [] => None
  end.

(** [[_-]?] in front of [next]: the separator is tried before its
    absence. *)
Definition optionalSeparatorThen
    (next : list ascii -> option (list ascii)) (s : list ascii)
    : option (list ascii) :=
  match s with
  | c :: rest =>
      if isSeparator c then
        match next rest with
        | Some group => Some group
        | None => next s
        end
      else next s
  | [] => next []
  end.

(** [week[_-]?(\d{1,2})] in front of [tail], at the start of [s]. *)
Definition weekPatternAt (tail : list ascii -> bool) (s : list ascii)
    : option (list ascii) :=
  match literally (list_ascii_of_string "week") s with
  | Some rest => optionalSeparatorThen (digitsThen tail) rest
  | None => None
  end.

(** A pattern without [^]: the match at the leftmost position that has
    one. *)
Fixpoint firstMatch (pattern : list ascii -> option (list ascii))
    (s : list ascii) : option (list ascii) :=
  match pattern s with
  | Some group => Some group
  | None =>
      match s with
      | [] => None
      | _ :: s' => firstMatch pattern s'
      end
  end.

(** [parseInt(digits, 10)] on a string of digits. *)
Definition parseInt (digits : list ascii) : Z :=
  fold_left (fun n d => 10 * n + digitValue d) digits 0.

(** [isValidWeek(week)] on an integer. *)
Definition isValidWeek (week : Z) : bool := (1 <=? week) && (week <=? 53).

(** [extractWeekFromFilename(filename)] with the pattern
    [/week[_-]?(\d{1,2})(?:\.csv)?$/i]; [None] is [null]. *)
Definition extractWeekFromFilename (filename : string) : option Z :=
  match firstMatch (weekPatternAt optionalCsvThenEnd)
          (list_ascii_of_string filename) with
  | Some group =>
      let week := parseInt group in
      if (1 <=? week) && (week <=? 53) then Some week else None
  | None => None
  end.

(** [createStandardFilename(week)]: [`week_${week}.csv`]. *)
Definition createStandardFilename (week : Z) : string :=
  "week_" +:+ Number_toString week +:+ ".csv".

(** [/^week[_-]?\d{1,2}\.csv$/i.test(name)], the one accepted
    pattern. *)
Definition matchesAcceptedPattern (name : string) : bool :=
  match weekPatternAt csvThenEnd (list_ascii_of_string name) with
  | Some _ => true
  | None => false
  end.

(** [name.toLowerCase().endsWith('.csv')]. *)
Definition endsWithCsv (name : string) : bool :=
  let lower := map toLowerCase (list_ascii_of_string name) in
  bool_decide (drop (length lower - 4) lower = list_ascii_of_string ".csv").

(** An error object [{type, message, severity}]. *)
Record ValidationError : Type := {
  type : string;
  message : string;
  severity : string
}.

Definition filenameError (message : string) : ValidationError :=
  {| type := "filename_error"; message := message; severity := "error" |}.

(** The period [{week, filename}] read off a file name. *)
Record FilePeriod : Type := {
  week : Z;
  filename : string
}.

(** The object [{isValid, errors, period}]. *)
Record FilenameValidation : Type := {
  isValid : bool;
  errors : list ValidationError;
  period : option FilePeriod
}.

(** [validateFilenameAndExtractPeriod(file)] on [file.name]. *)
Definition validateFilenameAndExtractPeriod (name : string)
    : FilenameValidation :=
  let errors0 :=
    if negb (endsWithCsv name) then
      [filenameError ("Fel filändelse: " +:+ name +:+ " (förväntat: .csv)")]
    else [] in
  let errors1 :=
    if negb (matchesAcceptedPattern name) then
      errors0
      ++ [filenameError
            ("Ogiltigt filnamnsformat: " +:+ name +:+ " (förväntat: week_XX.csv)")]
    else errors0 in
  match extractWeekFromFilename name with
  | None =>
      {| isValid := false;
         errors :=
           errors1
           ++ [filenameError
                 ("Kunde inte extrahera veckonummer från " +:+ name
                  +:+ " (förväntat format: week_41.csv)")];
         period := None |}
  | Some week =>
      let errors2 :=
        if negb (isValidWeek week) then
          errors1
          ++ [filenameError
                ("Ogiltigt veckonummer: " +:+ Number_toString week
                 +:+ " (måste vara 1-53)")]
        else errors1 in
      {| isValid := (length errors2 =? 0)%nat;
         errors := errors2;
         period := Some {| week := week; filename := name |} |}
  end.

End Filename.

(** What the patterns stand for: [chars] reads [before], then the word
    "week" in any case, then at most one of [_] and [-], then one or
    two digits, then nothing or the extension ".csv" in any case. *)
Definition namesWeek (chars before word separator digits extension : list ascii)
    : Prop :=
  chars = before ++ word ++ separator ++ digits ++ extension
  /\ Forall2 (fun c l => Filename.sameIgnoringCase c l = true) word
       (list_ascii_of_string "week")
  /\ (separator = []
      \/ exists c, separator = [c] /\ Filename.isSeparator c = true)
  /\ (1 <= length digits <= 2)%nat
  /\ Forall (fun c => Filename.isDigit c = true) digits
  /\ (extension = []
      \/ Forall2 (fun c l => Filename.sameIgnoringCase c l = true) extension
           (list_ascii_of_string ".csv")).

(** ** period_validator.js: the structure of a parsed CSV *)

Module CsvStructure.

(** [EXPECTED_COLUMNS] of csv_processor.js. *)
Definition EXPECTED_COLUMNS : list string :=
  [ "page_id"; "page_name"; "year"; "week"; "start_date"; "end_date";
    "reach"; "engagements"; "status"; "comment" ]%string.

(** [l.join(separator)]. *)
Fixpoint join (separator : string) (l : list string) : string :=
  match l with
  | [] => ""
  | [x] => x
  | x :: rest => x +:+ separator +:+ join separator rest
  end.

(** [l.includes(x)] on strings. *)
Definition Array_includes (l : list string) (x : string) : bool :=
  existsb (String.eqb x) l.

(** An error or warning object [{type, message, severity}]. *)
Record Issue : Type := {
  type : string;
  message : string;
  severity : string
}.

Definition structureError (message : string) : Issue :=
  {| type := "csv_structure_error"; message := message; severity := "error" |}.

Definition structureWarning (message : string) : Issue :=
  {| type := "csv_structure_error"; message := message; severity := "warning" |}.

(** The object [{isValid, errors, warnings}]. *)
Record Validation : Type := {
  isValid : bool;
  errors : list Issue;
  warnings : list Issue
}.

Section Normalize.

(** [col => col.trim().toLowerCase()], the host's string functions. *)
Variable normalize : string -> string.

(** [validateCSVStructure(columns, rowCount)] with an integer
    [rowCount]. *)
Definition validateCSVStructure (columns : list string) (rowCount : Z)
    : Validation :=
  let errors0 :=
    if negb (length columns =? 10)%nat then
      [structureError
         ("Fel antal kolumner: " +:+ Number_toString (Z.of_nat (length columns))
          +:+ " (förväntat: " +:+ Number_toString 10 +:+ ")")]
    else [] in
  let normalizedActual := map normalize columns in
  let normalizedExpected := map normalize EXPECTED_COLUMNS in
  let missingColumns :=
    List.filter (fun exp => negb (Array_includes normalizedActual exp))
      normalizedExpected in
  let extraColumns :=
    List.filter (fun act => negb (Array_includes normalizedExpected act))
      normalizedActual in
  let errors1 :=
    if (0 <? length missingColumns)%nat then
      errors0
      ++ [structureError ("Saknade kolumner: " +:+ join ", " missingColumns)]
    else errors0 in
  let warnings0 :=
    if (0 <? length extraColumns)%nat then
      [structureWarning
         ("Extra kolumner ignoreras: " +:+ join ", " extraColumns)]
    else [] in
  let errors2 :=
    if rowCount <? 1 then
      errors1
      ++ [structureError
            ("För få rader: " +:+ Number_toString rowCount
             +:+ " (minimum: " +:+ Number_toString 1 +:+ ")")]
    else errors1 in
  let warnings1 :=
    if 200 <? rowCount then
      warnings0
      ++ [structureWarning
            ("Många rader: " +:+ Number_toString rowCount +:+ " (över "
             +:+ Number_toString 200 +:+ " kan påverka prestanda)")]
    else warnings0 in
  {| isValid := (length errors2 =? 0)%nat;
     errors := errors2;
     warnings := warnings1 |}.

End Normalize.

End CsvStructure.

(** ** period_extractor.js and period_validator.js: the periods of
    uploaded files *)

Module FilePeriods.

(** [extractPeriodFromFile(file)] on [file.name]; an empty name is
    falsy. *)
Definition extractPeriodFromFile (name : string) : option Filename.FilePeriod :=
  if String.eqb name "" then None
  else
    match Filename.extractWeekFromFilename name with
    | None => None
    | Some week => Some {| Filename.week := week; Filename.filename := name |}
    end.

(** [extractPeriodsFromFiles(files)] on the names of the files. *)
Definition extractPeriodsFromFiles (names : list string)
    : list Filename.FilePeriod :=
  if (length names =? 0)%nat then []
  else
    Array_sort (fun a b => Filename.week a - Filename.week b)
      (omap extractPeriodFromFile names).

(** A warning object
    [{type, message, severity, conflictingPeriod}]. *)
Record Conflict : Type := {
  type : string;
  message : string;
  severity : string;
  conflictingPeriod : Filename.FilePeriod
}.

(** The object [{isValid, warnings}]. *)
Record DuplicateCheck : Type := {
  isValid : bool;
  warnings : list Conflict
}.

(** [checkForPeriodDuplicate(period, existingPeriods)]; [None] is a
    [null] period. *)
Definition checkForPeriodDuplicate (period : option Filename.FilePeriod)
    (existingPeriods : list Filename.FilePeriod) : DuplicateCheck :=
  match period with
  | None => {| isValid := true; warnings := [] |}
  | Some period =>
      if (length existingPeriods =? 0)%nat then
        {| isValid := true; warnings := [] |}
      else
        match
          List.find (fun p => Filename.week p =? Filename.week period)
            existingPeriods
        with
        | Some duplicate =>
            {| isValid := true;
               warnings :=
                 [ {| type := "period_conflict_error";
                      message :=
                        "Vecka " +:+ Number_toString (Filename.week period)
                        +:+ " finns redan uppladdad";
                      severity := "warning";
                      conflictingPeriod := duplicate |} ] |}
        | None => {| isValid := true; warnings := [] |}
        end
  end.

End FilePeriods.

(** * Properties *)

(** ** Rounding *)

Lemma Math_round_rounds_half_up (x : Q) : rounds_half_up x (Math_round x).
Proof.
  unfold rounds_half_up, Math_round.
  pose proof (Qfloor_le (x + (1 # 2))) as Hle.
  pose proof (Qlt_floor (x + (1 # 2))) as Hlt.
  rewrite inject_Z_plus in Hlt.
  split.
  - apply Qplus_le_l with (z := (1 # 2)%Q). ring_simplify.
    ring_simplify in Hle. exact Hle.
  - apply Qplus_lt_l with (z := (1 # 2)%Q).
    eapply Qlt_le_trans; [exact Hlt|].
    ring_simplify. apply Qle_refl.
Qed.

Lemma rounds_half_up_unique (x : Q) (r r' : Z) :
  rounds_half_up x r -> rounds_half_up x r' -> r = r'.
Proof.
  intros [Hl Hu] [Hl' Hu'].
  assert (H1 : (inject_Z r - (1 # 2) < inject_Z r' + (1 # 2))%Q)
    by (eapply Qle_lt_trans; eassumption).
  assert (H2 : (inject_Z r' - (1 # 2) < inject_Z r + (1 # 2))%Q)
    by (eapply Qle_lt_trans; eassumption).
  unfold Qlt, Qminus, Qplus, Qopp, inject_Z in H1, H2. simpl in H1, H2. lia.
Qed.

Lemma rounds_half_up_div (s n r : Z) :
  0 < n ->
  rounds_half_up (inject_Z s / inject_Z n) r <->
  (2 * r - 1) * n <= 2 * s /\ 2 * s < (2 * r + 1) * n.
Proof.
  intros Hn. destruct n as [|p|p]; try lia.
  unfold rounds_half_up, Qle, Qlt, Qdiv, Qmult, Qinv, Qminus, Qplus, Qopp, inject_Z.
  simpl. rewrite ?Pos2Z.inj_mul. nia.
Qed.

Lemma Math_round_div (s n : Z) :
  0 < n -> Math_round (inject_Z s / inject_Z n) = (2 * s + n) / (2 * n).
Proof.
  intros Hn. symmetry.
  apply (rounds_half_up_unique (inject_Z s / inject_Z n));
    [|apply Math_round_rounds_half_up].
  apply rounds_half_up_div; [exact Hn|].
  pose proof (Z.div_mod (2 * s + n) (2 * n) ltac:(lia)) as Hdm.
  pose proof (Z.mod_pos_bound (2 * s + n) (2 * n) ltac:(lia)) as Hb.
  nia.
Qed.

Lemma sum_from (values : list Z) (a : Z) :
  fold_left Z.add values a = a + sum values.
Proof.
  unfold sum. revert a.
  induction values as [|v values IH]; intros a; simpl; [lia|].
  rewrite (IH (a + v)), (IH (0 + v)). lia.
Qed.

Lemma sum_cons (v : Z) (values : list Z) : sum (v :: values) = v + sum values.
Proof. unfold sum at 1. simpl. apply sum_from. Qed.

Lemma sum_app (l1 l2 : list Z) : sum (l1 ++ l2) = sum l1 + sum l2.
Proof.
  induction l1 as [|v l1 IH]; simpl; [reflexivity|].
  rewrite !sum_cons, IH. lia.
Qed.

(** A sequence of positive values sums to at least its length. *)
Lemma sum_positive_ge_length (values : list Z) :
  Forall (fun x => 0 < x) values -> Z.of_nat (length values) <= sum values.
Proof.
  induction 1 as [|v values Hv _ IH]; [reflexivity|].
  rewrite sum_cons. simpl length. lia.
Qed.

(** ** reach_calculator.js *)

Lemma calculateAverageReach_nonempty (v : list Z) :
  v <> [] ->
  calculateAverageReach (Some v)
  = Math_round (inject_Z (sum v) / inject_Z (Z.of_nat (length v)))%Q.
Proof. destruct v; [congruence|reflexivity]. Qed.

(** The rounded mean of two or more positive values is below their sum. *)
Lemma calculateAverageReach_lt_sum (v : list Z) :
  (1 < length v)%nat -> Forall (fun x => 0 < x) v ->
  calculateAverageReach (Some v) < sum v.
Proof.
  intros Hlen Hpos.
  rewrite calculateAverageReach_nonempty by (destruct v; simpl in *; [lia|congruence]).
  pose proof (sum_positive_ge_length v Hpos) as Hsum.
  rewrite Math_round_div by lia.
  apply Z.div_lt_upper_bound; nia.
Qed.

(** C1.  For a non-empty integer sequence [v], [calculateAverageReach]
    is [sum v / length v] rounded half-up; it is 0 for an empty or
    missing input; and for two or more values that are all positive it
    never equals [sum v]. *)
Theorem C1_calculateAverageReach_is_rounded_mean (v : list Z) :
  (v <> [] ->
   calculateAverageReach (Some v)
   = Math_round (inject_Z (sum v) / inject_Z (Z.of_nat (length v)))%Q
   /\ rounds_half_up (inject_Z (sum v) / inject_Z (Z.of_nat (length v)))%Q
        (calculateAverageReach (Some v)))
  /\ calculateAverageReach (Some []) = 0
  /\ calculateAverageReach None = 0
  /\ ((1 < length v)%nat -> Forall (fun x => 0 < x) v ->
      calculateAverageReach (Some v) <> sum v).
Proof.
  split; [|split; [reflexivity|split; [reflexivity|]]].
  - intros Hne. rewrite calculateAverageReach_nonempty by exact Hne.
    split; [reflexivity|apply Math_round_rounds_half_up].
  - intros Hlen Hpos.
    pose proof (calculateAverageReach_lt_sum v Hlen Hpos). lia.
Qed.

(** Two weeks with reach 100000 and 120000: the average is 110000, and
    not the sum 220000. *)
Lemma C1_witness :
  calculateAverageReach (Some [100000; 120000]) = 110000
  /\ calculateAverageReach (Some [100000; 120000]) <> sum [100000; 120000].
Proof.
  destruct (C1_calculateAverageReach_is_rounded_mean [100000; 120000])
    as (_ & _ & _ & Hne).
  split; [reflexivity|].
  apply Hne; [simpl; lia|].
  repeat constructor.
Defined.

(** ** binary64 arithmetic *)

Lemma Math_round_comp (x y : Q) : (x == y)%Q -> Math_round x = Math_round y.
Proof.
  intros Heq. unfold Math_round. apply Qfloor_comp. rewrite Heq. reflexivity.
Qed.

Lemma roundTiesToEven_near (x : Q) :
  (Qabs (inject_Z (roundTiesToEven x) - x) <= 1 # 2)%Q.
Proof.
  unfold roundTiesToEven.
  pose proof (Qfloor_le x) as Hlo. pose proof (Qlt_floor x) as Hhi.
  rewrite inject_Z_plus in Hhi. change (inject_Z 1) with 1%Q in Hhi.
  apply Qabs_Qle_condition.
  destruct (Qcompare (x - inject_Z (Qfloor x)) (1 # 2)) eqn:E.
  - apply Qeq_alt in E.
    destruct (Z.even (Qfloor x));
      [|rewrite inject_Z_plus; change (inject_Z 1) with 1%Q]; split; lra.
  - apply Qlt_alt in E. split; lra.
  - apply Qgt_alt in E. rewrite inject_Z_plus. change (inject_Z 1) with 1%Q.
    split; lra.
Qed.

Lemma roundTiesToEven_integer (n : Z) : roundTiesToEven (inject_Z n) = n.
Proof.
  unfold roundTiesToEven. rewrite Qfloor_Z.
  assert (E : Qcompare (inject_Z n - inject_Z n) (1 # 2) = Lt)
    by (rewrite <- Qlt_alt; lra).
  rewrite E. reflexivity.
Qed.

Lemma roundTiesToEven_comp (x y : Q) :
  (x == y)%Q -> roundTiesToEven x = roundTiesToEven y.
Proof.
  intros Heq. unfold roundTiesToEven.
  rewrite (Qfloor_comp _ _ Heq).
  assert (E : Qcompare (x - inject_Z (Qfloor y)) (1 # 2)
              = Qcompare (y - inject_Z (Qfloor y)) (1 # 2))
    by (rewrite Heq; reflexivity).
  rewrite E. reflexivity.
Qed.

Lemma two_power_pos (e : Z) : (0 < 2 ^ e)%Q.
Proof. apply Qpower_0_lt. reflexivity. Qed.

Lemma two_power_integer (e : Z) : 0 <= e -> (2 ^ e == inject_Z (2 ^ e))%Q.
Proof. intros He. rewrite Zpower_Qpower by exact He. reflexivity. Qed.

Lemma fraction_lt (a b c d : Z) :
  0 < b -> 0 < d -> a * d < c * b ->
  (inject_Z a / inject_Z b < inject_Z c / inject_Z d)%Q.
Proof.
  intros Hb Hd Hlt.
  apply Qlt_shift_div_l; [rewrite <- (Zlt_Qlt 0); exact Hd|].
  setoid_replace (inject_Z a / inject_Z b * inject_Z d)%Q
    with (inject_Z (a * d) / inject_Z b)%Q using relation Qeq
    by (rewrite inject_Z_mult; unfold Qdiv; ring).
  apply Qlt_shift_div_r; [rewrite <- (Zlt_Qlt 0); exact Hb|].
  rewrite <- inject_Z_mult, <- Zlt_Qlt. exact Hlt.
Qed.

Lemma fraction_le (a b c d : Z) :
  0 < b -> 0 < d -> a * d <= c * b ->
  (inject_Z a / inject_Z b <= inject_Z c / inject_Z d)%Q.
Proof.
  intros Hb Hd Hle.
  apply Qle_shift_div_l; [rewrite <- (Zlt_Qlt 0); exact Hd|].
  setoid_replace (inject_Z a / inject_Z b * inject_Z d)%Q
    with (inject_Z (a * d) / inject_Z b)%Q using relation Qeq
    by (rewrite inject_Z_mult; unfold Qdiv; ring).
  apply Qle_shift_div_r; [rewrite <- (Zlt_Qlt 0); exact Hb|].
  rewrite <- inject_Z_mult, <- Zle_Qle. exact Hle.
Qed.

Lemma magnitude_spec (x : Q) :
  ~ (x == 0)%Q ->
  (2 ^ (magnitude x - 1) <= Qabs x)%Q /\ (Qabs x < 2 ^ magnitude x)%Q.
Proof.
  intros Hx. unfold magnitude.
  destruct x as [n d]. cbn [Qnum Qden].
  assert (Hn : 0 < Z.abs n).
  { destruct (Z.eq_dec n 0) as [->|Hn]; [exfalso; apply Hx; reflexivity|lia]. }
  set (a := Z.abs n) in *.
  set (la := Z.log2 a). set (ld := Z.log2 (Zpos d)).
  destruct (Z.log2_spec a Hn) as [Ha1 Ha2]. fold la in Ha1, Ha2.
  destruct (Z.log2_spec (Zpos d) ltac:(lia)) as [Hd1 Hd2]. fold ld in Hd1, Hd2.
  assert (Hla : 0 <= la) by apply Z.log2_nonneg.
  assert (Hld : 0 <= ld) by apply Z.log2_nonneg.
  assert (Habs : (Qabs (n # d) == inject_Z a / inject_Z (Zpos d))%Q)
    by (unfold Qabs; fold a; apply Qmake_Qdiv).
  assert (Hdpos : (0 < inject_Z (Zpos d))%Q) by reflexivity.
  assert (Hnot2 : ~ (2 == 0)%Q) by discriminate.
  assert (Hpow : forall e, 0 <= e -> 0 < 2 ^ e)
    by (intros e He; apply Z.pow_pos_nonneg; lia).
  assert (Hupper : (Qabs (n # d) < 2 ^ (la - ld + 1))%Q).
  { rewrite Habs.
    replace (la - ld + 1) with ((la + 1) - ld) by lia.
    rewrite Qpower_minus by exact Hnot2.
    rewrite !two_power_integer by lia.
    apply fraction_lt; [lia|apply Hpow, Hld|].
    replace (la + 1) with (Z.succ la) by lia.
    apply Z.le_lt_trans with (a * Z.pos d).
    - apply Z.mul_le_mono_nonneg_l; lia.
    - apply Z.mul_lt_mono_pos_r; lia. }
  assert (Hlower : (2 ^ (la - ld - 1) <= Qabs (n # d))%Q).
  { rewrite Habs.
    replace (la - ld - 1) with (la - (ld + 1)) by lia.
    rewrite Qpower_minus by exact Hnot2.
    rewrite !two_power_integer by lia.
    apply fraction_le; [apply Hpow; lia|lia|].
    replace (ld + 1) with (Z.succ ld) by lia.
    apply Z.le_trans with (a * Z.pos d).
    - apply Z.mul_le_mono_nonneg_r; lia.
    - apply Z.mul_le_mono_nonneg_l; lia. }
  destruct (Qle_bool (2 ^ (la - ld)) (Qabs (n # d))) eqn:E.
  - apply Qle_bool_iff in E.
    replace (la - ld + 1 - 1) with (la - ld) by lia. split; assumption.
  - split; [exact Hlower|].
    apply Qnot_le_lt. intros Hle. apply Qle_bool_iff in Hle. congruence.
Qed.

Lemma magnitude_unique (x : Q) (m : Z) :
  (2 ^ (m - 1) <= Qabs x)%Q -> (Qabs x < 2 ^ m)%Q -> magnitude x = m.
Proof.
  intros Hlo Hhi.
  assert (Hx : ~ (x == 0)%Q).
  { intros H0. rewrite H0 in Hlo. pose proof (two_power_pos (m - 1)) as Hpos.
    change (Qabs 0) with 0%Q in Hlo. lra. }
  destruct (magnitude_spec x Hx) as [Hlo' Hhi'].
  assert (H2 : (1 < 2)%Q) by reflexivity.
  assert (H1 : m - 1 < magnitude x).
  { apply (Qpower_lt_compat_l_inv 2); [|exact H2].
    eapply Qle_lt_trans; [exact Hlo|exact Hhi']. }
  assert (H3 : magnitude x - 1 < m).
  { apply (Qpower_lt_compat_l_inv 2); [|exact H2].
    eapply Qle_lt_trans; [exact Hlo'|exact Hhi]. }
  lia.
Qed.

Lemma magnitude_comp (x y : Q) :
  ~ (x == 0)%Q -> (x == y)%Q -> magnitude x = magnitude y.
Proof.
  intros Hx Heq. symmetry.
  destruct (magnitude_spec x Hx) as [Hlo Hhi].
  apply magnitude_unique; rewrite <- Heq; assumption.
Qed.

Lemma binary64_zero (x : Q) : (x == 0)%Q -> binary64 x = 0%Q.
Proof.
  intros Hx. unfold binary64. apply Qeq_bool_iff in Hx. rewrite Hx. reflexivity.
Qed.

Lemma binary64_nonzero (x : Q) :
  ~ (x == 0)%Q ->
  binary64 x
  = (inject_Z (roundTiesToEven (x / 2 ^ (magnitude x - 53)))
     * 2 ^ (magnitude x - 53))%Q.
Proof.
  intros Hx. unfold binary64.
  destruct (Qeq_bool x 0) eqn:E; [|reflexivity].
  apply Qeq_bool_iff in E. contradiction.
Qed.

(** Equal rationals round to the same fraction. *)
Lemma binary64_comp (x y : Q) : (x == y)%Q -> binary64 x = binary64 y.
Proof.
  intros Heq.
  destruct (Qeq_dec x 0) as [Hx|Hx].
  - rewrite !binary64_zero; [reflexivity|rewrite <- Heq; exact Hx|exact Hx].
  - assert (Hy : ~ (y == 0)%Q) by (rewrite <- Heq; exact Hx).
    rewrite !binary64_nonzero by assumption.
    rewrite <- (magnitude_comp x y Hx Heq).
    rewrite (roundTiesToEven_comp (x / 2 ^ (magnitude x - 53))
               (y / 2 ^ (magnitude x - 53)))
      by (unfold Qdiv; apply Qmult_comp; [exact Heq|reflexivity]).
    reflexivity.
Qed.

(** The relative error of one rounding is at most [unitRoundoff]. *)
Lemma binary64_error (x : Q) :
  (Qabs (binary64 x - x) <= unitRoundoff * Qabs x)%Q.
Proof.
  destruct (Qeq_dec x 0) as [Hx|Hx].
  - rewrite binary64_zero by exact Hx. rewrite Hx.
    change (Qabs (0 - 0)) with 0%Q. change (Qabs 0) with 0%Q.
    unfold unitRoundoff. lra.
  - rewrite binary64_nonzero by exact Hx.
    destruct (magnitude_spec x Hx) as [Hlo _].
    set (m := magnitude x) in *.
    pose proof (two_power_pos (m - 53)) as Hulp.
    set (ulp := (2 ^ (m - 53))%Q) in *.
    pose proof (roundTiesToEven_near (x / ulp)) as Hnear.
    set (r := inject_Z (roundTiesToEven (x / ulp))) in *.
    assert (Hsplit : (r * ulp - x == (r - x / ulp) * ulp)%Q)
      by (field; lra).
    rewrite Hsplit, Qabs_Qmult, (Qabs_pos ulp) by lra.
    assert (Hhalf : (Qabs (r - x / ulp) * ulp <= (1 # 2) * ulp)%Q)
      by (apply Qmult_le_compat_r; lra).
    assert (Hpow : ((1 # 2) * ulp == unitRoundoff * 2 ^ (m - 1))%Q).
    { unfold ulp, unitRoundoff.
      rewrite <- Qpower_plus by discriminate.
      replace (-53 + (m - 1)) with (-1 + (m - 53)) by lia.
      rewrite Qpower_plus by discriminate. reflexivity. }
    assert (Hscale : (unitRoundoff * 2 ^ (m - 1) <= unitRoundoff * Qabs x)%Q).
    { rewrite !(Qmult_comm unitRoundoff).
      apply Qmult_le_compat_r; [exact Hlo|discriminate]. }
    lra.
Qed.

(** A number with a significand of at most 53 bits is a binary64
    number. *)
Lemma binary64_dyadic (m k : Z) :
  Z.abs m < 2 ^ 53 ->
  (binary64 (inject_Z m * 2 ^ k) == inject_Z m * 2 ^ k)%Q.
Proof.
  intros Hm.
  pose proof (two_power_pos k) as Hk.
  destruct (Z.eq_dec m 0) as [->|Hm0].
  { rewrite binary64_zero; ring. }
  set (x := (inject_Z m * 2 ^ k)%Q).
  assert (Hx : ~ (x == 0)%Q).
  { unfold x. intros H0. apply Qmult_integral in H0.
    destruct H0 as [H0|H0]; [|lra].
    apply (inject_Z_injective m 0) in H0. contradiction. }
  rewrite binary64_nonzero by exact Hx.
  destruct (magnitude_spec x Hx) as [Hlo _].
  set (e := magnitude x) in *.
  assert (He : e - 1 < 53 + k).
  { apply (Qpower_lt_compat_l_inv 2); [|reflexivity].
    eapply Qle_lt_trans; [exact Hlo|].
    unfold x. rewrite Qabs_Qmult, (Qabs_pos (2 ^ k)) by lra.
    rewrite Qpower_plus by discriminate.
    apply Qmult_lt_compat_r; [exact Hk|].
    rewrite two_power_integer by lia.
    change (Qabs (inject_Z m)) with (inject_Z (Z.abs m)).
    rewrite <- Zlt_Qlt. exact Hm. }
  pose proof (two_power_pos (e - 53)) as Hulp.
  assert (Hscaled : (x / 2 ^ (e - 53) == inject_Z (m * 2 ^ (k - (e - 53))))%Q).
  { rewrite inject_Z_mult, <- two_power_integer by lia.
    rewrite (Qpower_minus 2 k (e - 53)) by discriminate. unfold x.
    set (a := (2 ^ k)%Q) in *. set (b := (2 ^ (e - 53))%Q) in *.
    field. lra. }
  rewrite (roundTiesToEven_comp _ _ Hscaled), roundTiesToEven_integer.
  rewrite <- Hscaled. field. lra.
Qed.

(** Integers up to [2 ^ 53] in magnitude are binary64 numbers. *)
Lemma binary64_integer (n : Z) :
  Z.abs n <= 2 ^ 53 -> (binary64 (inject_Z n) == inject_Z n)%Q.
Proof.
  intros Hn.
  destruct (Z.eq_dec (Z.abs n) (2 ^ 53)) as [Htop|Hlt].
  - assert (Hcases : n = 2 ^ 53 \/ n = - 2 ^ 53) by lia.
    destruct Hcases as [-> | ->]; vm_compute; reflexivity.
  - rewrite (binary64_comp _ (inject_Z n * 2 ^ 0)) by (simpl; ring).
    rewrite binary64_dyadic by lia. simpl. ring.
Qed.

Lemma within_binary64 (x : Q) : within unitRoundoff x (binary64 x).
Proof. apply binary64_error. Qed.

Lemma within_scaled (eps x a k : Q) :
  within eps x a -> within eps (x * k) (a * k).
Proof.
  unfold within. intros H.
  setoid_replace (a * k - x * k)%Q with ((a - x) * k)%Q using relation Qeq by ring.
  rewrite !Qabs_Qmult, Qmult_assoc.
  apply Qmult_le_compat_r; [exact H|apply Qabs_nonneg].
Qed.

Lemma within_trans (alpha beta x a b : Q) :
  (0 <= beta)%Q -> within alpha x a -> within beta a b ->
  within (alpha + beta + alpha * beta) x b.
Proof.
  unfold within. intros Hbeta Ha Hb.
  assert (Habs : (Qabs a <= Qabs x + alpha * Qabs x)%Q).
  { setoid_replace a with ((a - x) + x)%Q using relation Qeq at 1 by ring.
    eapply Qle_trans; [apply Qabs_triangle|]. lra. }
  assert (Hsplit : (Qabs (b - x) <= Qabs (b - a) + Qabs (a - x))%Q).
  { setoid_replace (b - x)%Q with ((b - a) + (a - x))%Q using relation Qeq by ring.
    apply Qabs_triangle. }
  assert (Hmul : (beta * Qabs a <= beta * (Qabs x + alpha * Qabs x))%Q).
  { rewrite !(Qmult_comm beta). apply Qmult_le_compat_r; assumption. }
  pose proof (Qabs_nonneg x).
  lra.
Qed.

(** One more rounded operation adds one [unitRoundoff]. *)
Lemma within_rounded (alpha x a : Q) :
  within alpha x a ->
  within (alpha + unitRoundoff + alpha * unitRoundoff) x (binary64 a).
Proof.
  intros H. apply (within_trans alpha unitRoundoff x a); [discriminate|exact H|].
  apply within_binary64.
Qed.

Lemma Math_round_within (eps x y : Q) :
  within eps x y ->
  (Qabs (inject_Z (Math_round y) - x) <= (1 # 2) + eps * Qabs x)%Q.
Proof.
  unfold within, Math_round. intros H.
  pose proof (Qfloor_le (y + (1 # 2))) as Hlo.
  pose proof (Qlt_floor (y + (1 # 2))) as Hhi.
  rewrite inject_Z_plus in Hhi. change (inject_Z 1) with 1%Q in Hhi.
  apply Qabs_Qle_condition in H. apply Qabs_Qle_condition.
  split; lra.
Qed.

(** An integer within a half and a little of a fraction is one of the
    integers nearest to it, when the little stays below the least
    distance of such fractions from the halves. *)
Lemma nearest_of_within (eps : Q) (n d r : Z) :
  0 < d -> (eps * inject_Z (2 * Z.abs n) < 1)%Q ->
  (Qabs (inject_Z r - inject_Z n / inject_Z d)
   <= (1 # 2) + eps * Qabs (inject_Z n / inject_Z d))%Q ->
  2 * n - d <= 2 * d * r <= 2 * n + d.
Proof.
  intros Hd Hsmall H.
  assert (Hdq : (0 < inject_Z d)%Q) by (rewrite <- (Zlt_Qlt 0); exact Hd).
  assert (Habs : (Qabs (inject_Z n / inject_Z d) * inject_Z d
                  == inject_Z (Z.abs n))%Q).
  { unfold Qdiv. rewrite Qabs_Qmult, Qabs_Qinv, (Qabs_pos (inject_Z d)) by lra.
    change (Qabs (inject_Z n)) with (inject_Z (Z.abs n)). field. lra. }
  assert (Hx : (inject_Z n / inject_Z d * inject_Z d == inject_Z n)%Q)
    by (field; lra).
  apply Qabs_Qle_condition in H. destruct H as [Hlo Hhi].
  set (x := (inject_Z n / inject_Z d)%Q) in *.
  set (ax := Qabs x) in *.
  rewrite inject_Z_mult in Hsmall. change (inject_Z 2) with 2%Q in Hsmall.
  assert (Hup : (inject_Z (2 * d * r) < inject_Z (2 * n + d + 1))%Q).
  { rewrite inject_Z_plus, inject_Z_plus, !inject_Z_mult.
    change (inject_Z 2) with 2%Q. change (inject_Z 1) with 1%Q.
    assert (Hm : ((inject_Z r - x) * inject_Z d
                  <= ((1 # 2) + eps * ax) * inject_Z d)%Q)
      by (apply Qmult_le_compat_r; lra).
    setoid_replace ((inject_Z r - x) * inject_Z d)%Q
      with (inject_Z r * inject_Z d - inject_Z n)%Q using relation Qeq in Hm
      by (rewrite <- Hx; ring).
    setoid_replace (((1 # 2) + eps * ax) * inject_Z d)%Q
      with ((1 # 2) * inject_Z d + eps * inject_Z (Z.abs n))%Q using relation Qeq in Hm
      by (rewrite <- Habs; ring).
    lra. }
  assert (Hdown : (inject_Z (2 * n - d - 1) < inject_Z (2 * d * r))%Q).
  { unfold Z.sub. rewrite !inject_Z_plus, !inject_Z_opp, !inject_Z_mult.
    change (inject_Z 2) with 2%Q. change (inject_Z 1) with 1%Q.
    assert (Hm : ((- ((1 # 2) + eps * ax)) * inject_Z d
                  <= (inject_Z r - x) * inject_Z d)%Q)
      by (apply Qmult_le_compat_r; lra).
    setoid_replace ((inject_Z r - x) * inject_Z d)%Q
      with (inject_Z r * inject_Z d - inject_Z n)%Q using relation Qeq in Hm
      by (rewrite <- Hx; ring).
    setoid_replace ((- ((1 # 2) + eps * ax)) * inject_Z d)%Q
      with (- ((1 # 2) * inject_Z d + eps * inject_Z (Z.abs n)))%Q using relation Qeq in Hm
      by (rewrite <- Habs; ring).
    lra. }
  rewrite <- Zlt_Qlt in Hup, Hdown. lia.
Qed.

Lemma small_of_bound (e : positive) (n : Z) :
  n < Zpos e -> ((1 # e) * inject_Z n < 1)%Q.
Proof.
  intros Hn.
  setoid_replace ((1 # e) * inject_Z n)%Q with (inject_Z n / inject_Z (Zpos e))%Q using relation Qeq
    by (rewrite (Qmake_Qdiv 1 e); field; discriminate).
  apply Qlt_shift_div_r; [reflexivity|].
  rewrite Qmult_1_l, <- Zlt_Qlt. exact Hn.
Qed.

Lemma nearest_of_slack (n d r : Z) :
  0 < d -> 2 * Z.abs n < 2 ^ 50 ->
  (Qabs (inject_Z r - inject_Z n / inject_Z d)
   <= (1 # 2) + slack * Qabs (inject_Z n / inject_Z d))%Q ->
  2 * n - d <= 2 * d * r <= 2 * n + d.
Proof.
  intros Hd Hn. apply nearest_of_within; [exact Hd|].
  assert (Hslack : (slack == 1 # 1125899906842624)%Q) by reflexivity.
  rewrite Hslack. apply small_of_bound. exact Hn.
Qed.

Lemma inject_Z_nonzero (n : Z) : n <> 0 -> ~ (inject_Z n == 0)%Q.
Proof. intros Hn H0. apply (inject_Z_injective n 0) in H0. contradiction. Qed.

(** One of the integers nearest to a fraction is the fraction rounded
    half-up, unless the fraction is a half above it. *)
Lemma nearest_rounds_half_up (n d r : Z) :
  0 < d -> 2 * n - d <= 2 * d * r <= 2 * n + d ->
  rounds_half_up (inject_Z n / inject_Z d) r
  \/ (inject_Z n / inject_Z d == inject_Z r + (1 # 2))%Q.
Proof.
  intros Hd [Hlo Hhi].
  destruct (Z.eq_dec (2 * d * r) (2 * n - d)) as [Htie|Hne].
  - right.
    assert (Hdq : ~ (inject_Z d == 0)%Q)
      by (intros H0; apply (inject_Z_injective d 0) in H0; lia).
    apply (Qmult_inj_r _ _ (2 * inject_Z d)%Q); [lra|].
    field_simplify; [|exact Hdq].
    assert (Hz : 2 * n = 2 * d * r + d) by lia.
    assert (Hq : (inject_Z (2 * n) == inject_Z (2 * d * r + d))%Q)
      by (rewrite Hz; reflexivity).
    rewrite inject_Z_plus, !inject_Z_mult in Hq.
    change (inject_Z 2) with 2%Q in Hq.
    lra.
  - left. apply rounds_half_up_div; [exact Hd|]. lia.
Qed.

(** Within [slack], an integer near a fraction of small integers is the
    fraction rounded half-up, or the fraction is a half above it. *)
Lemma rounds_nearest_fraction (n d r : Z) :
  d <> 0 -> 2 * Z.abs n < 2 ^ 50 ->
  (Qabs (inject_Z r - inject_Z n / inject_Z d)
   <= (1 # 2) + slack * Qabs (inject_Z n / inject_Z d))%Q ->
  (inject_Z r - (1 # 2) <= inject_Z n / inject_Z d)%Q
  /\ (inject_Z n / inject_Z d < inject_Z r + (1 # 2))%Q
  \/ (inject_Z n / inject_Z d == inject_Z r + (1 # 2))%Q.
Proof.
  intros Hd Hn H.
  destruct (Z_lt_le_dec 0 d) as [Hpos|Hneg].
  - apply nearest_rounds_half_up; [exact Hpos|].
    apply nearest_of_slack; assumption.
  - assert (Hopp : (inject_Z n / inject_Z d == inject_Z (- n) / inject_Z (- d))%Q).
    { rewrite !inject_Z_opp. field. apply inject_Z_nonzero, Hd. }
    rewrite Hopp in H |- *.
    apply nearest_rounds_half_up; [lia|].
    apply nearest_of_slack; [lia|lia|exact H].
Qed.

(** On a grid of small integers, at the values that decide the examples
    below and at integers next to [2 ^ 52], the rounded operations
    compute the doubles that the IEEE 754 specification of the Standard
    Library computes. *)
Lemma binary64_agrees_with_SpecFloat :
  forallb
    (fun current =>
       forallb (Ieee754.changeAgrees current) (Ieee754.integers 1 40))
    (Ieee754.integers (-10) 60)
  = true
  /\ forallb (fun '(current, previous) => Ieee754.changeAgrees current previous)
       [(103, 80); (1899, 2000); (2101, 2000); (137, 80); (120, 100);
        (4503599627370495, 4503599627370493); (3, 4503599627370495);
        (-7, 3); (5, -3)]
     = true
  /\ forallb Ieee754.tenthAgrees
       (Ieee754.integers (-60) 121 ++ [287; 288; 713; 999; 1000; -1000])
     = true.
Proof. vm_compute. repeat split. Qed.

(** The quotient of two integers, rounded to binary64 and then by
    [Math.round], is the exact quotient rounded half-up. *)
Lemma Math_round_quotient (t n : Z) :
  0 < n -> Z.abs t < 2 ^ 52 ->
  Math_round (js_div (inject_Z t) (inject_Z n))
  = Math_round (inject_Z t / inject_Z n).
Proof.
  intros Hn Ht. unfold js_div.
  change (2 ^ 52) with 4503599627370496 in Ht.
  set (x := (inject_Z t / inject_Z n)%Q).
  pose proof (Math_round_within _ _ _ (within_binary64 x)) as H.
  assert (Hu : (unitRoundoff == 1 # 9007199254740992)%Q) by reflexivity.
  rewrite Hu in H.
  assert (Hsmall : 2 * Z.abs t < Z.pos 9007199254740992) by lia.
  pose proof (nearest_of_within _ t n _ Hn (small_of_bound _ _ Hsmall) H)
    as Hnear.
  destruct (nearest_rounds_half_up t n _ Hn Hnear) as [Hround|Htie].
  - apply (rounds_half_up_unique x); [exact Hround|apply Math_round_rounds_half_up].
  - apply Math_round_comp. fold x in Htie.
    set (r := Math_round (binary64 x)) in *.
    rewrite (binary64_comp x (inject_Z (2 * r + 1) * 2 ^ (-1))).
    + rewrite binary64_dyadic.
      * rewrite Htie, inject_Z_plus, inject_Z_mult.
        change (2 ^ (-1))%Q with (1 # 2)%Q. change (inject_Z 2) with 2%Q.
        change (inject_Z 1) with 1%Q. ring.
      * change (2 ^ 53) with 9007199254740992. nia.
    + rewrite Htie, inject_Z_plus, inject_Z_mult.
      change (2 ^ (-1))%Q with (1 # 2)%Q. change (inject_Z 2) with 2%Q.
      change (inject_Z 1) with 1%Q. ring.
Qed.

(** So the mean that [calculateAverageReach] rounds is the mean that
    the code computes in doubles. *)
Lemma calculateAverageReach_binary64 (v : list Z) :
  v <> [] -> Z.abs (sum v) < 2 ^ 52 ->
  calculateAverageReach (Some v)
  = Math_round (js_div (inject_Z (sum v)) (inject_Z (Z.of_nat (length v)))).
Proof.
  intros Hne Hsum. rewrite calculateAverageReach_nonempty by exact Hne.
  symmetry. apply Math_round_quotient; [|exact Hsum].
  destruct v; [congruence|simpl; lia].
Qed.

Lemma Qgt_bool_true (x y : Q) : Qgt_bool x y = true <-> (y < x)%Q.
Proof.
  unfold Qgt_bool. rewrite negb_true_iff. split.
  - intros E. apply Qnot_le_lt. intros Hle. apply Qle_bool_iff in Hle. congruence.
  - intros Hlt. destruct (Qle_bool x y) eqn:E; [|reflexivity].
    apply Qle_bool_iff in E. lra.
Qed.

(** A whole number of tenths, divided by 10 in binary64, stays on its
    side of 5 and of -5. *)
Lemma tenths_gt_5 (r : Z) :
  Qgt_bool (js_div (inject_Z r) 10) 5 = true <-> 50 < r.
Proof.
  rewrite Qgt_bool_true. unfold js_div.
  pose proof (binary64_error (inject_Z r / 10)) as Herr.
  apply Qabs_Qle_condition in Herr.
  assert (Hu : (unitRoundoff == 1 # 9007199254740992)%Q) by reflexivity.
  rewrite Hu in Herr. clear Hu.
  unfold Qdiv in Herr. change (/ 10)%Q with (1 # 10)%Q in Herr.
  unfold Qdiv. change (/ 10)%Q with (1 # 10)%Q.
  split.
  - intros Hgt. apply Z.nle_gt. intros Hle.
    destruct (Z.eq_dec r 50) as [->|Hne].
    + vm_compute in Hgt. discriminate.
    + assert (Hr : r <= 49) by lia. rewrite Zle_Qle in Hr.
      change (inject_Z 49) with 49%Q in Hr.
      destruct (Qlt_le_dec (inject_Z r) 0) as [Hneg|Hpos].
      * rewrite (Qabs_neg (inject_Z r * (1 # 10))) in Herr by lra. lra.
      * rewrite (Qabs_pos (inject_Z r * (1 # 10))) in Herr by lra. lra.
  - intros Hr. assert (Hr' : 51 <= r) by lia. rewrite Zle_Qle in Hr'.
    change (inject_Z 51) with 51%Q in Hr'.
    rewrite (Qabs_pos (inject_Z r * (1 # 10))) in Herr by lra. lra.
Qed.

Lemma tenths_lt_minus_5 (r : Z) :
  Qgt_bool (-5) (js_div (inject_Z r) 10) = true <-> r < -50.
Proof.
  rewrite Qgt_bool_true. unfold js_div.
  pose proof (binary64_error (inject_Z r / 10)) as Herr.
  apply Qabs_Qle_condition in Herr.
  assert (Hu : (unitRoundoff == 1 # 9007199254740992)%Q) by reflexivity.
  rewrite Hu in Herr. clear Hu.
  unfold Qdiv in Herr. change (/ 10)%Q with (1 # 10)%Q in Herr.
  unfold Qdiv. change (/ 10)%Q with (1 # 10)%Q.
  split.
  - intros Hlt. apply Z.nle_gt. intros Hle.
    destruct (Z.eq_dec r (-50)) as [->|Hne].
    + vm_compute in Hlt. discriminate.
    + assert (Hr : -49 <= r) by lia. rewrite Zle_Qle in Hr.
      change (inject_Z (-49)) with (-49)%Q in Hr.
      destruct (Qlt_le_dec (inject_Z r) 0) as [Hneg|Hpos].
      * rewrite (Qabs_neg (inject_Z r * (1 # 10))) in Herr by lra. lra.
      * rewrite (Qabs_pos (inject_Z r * (1 # 10))) in Herr by lra. lra.
  - intros Hr. assert (Hr' : r <= -51) by lia. rewrite Zle_Qle in Hr'.
    change (inject_Z (-51)) with (-51)%Q in Hr'.
    rewrite (Qabs_neg (inject_Z r * (1 # 10))) in Herr by lra. lra.
Qed.

(** ** weekly_analytics.js: week-over-week change *)

Lemma calculateWeekOverWeekChange_zero_previous (current previous : Q) :
  (previous == 0)%Q ->
  calculateWeekOverWeekChange current previous
  = (if Qgt_bool current 0 then 100 else 0)%Q.
Proof.
  intros Hp. unfold calculateWeekOverWeekChange.
  apply Qeq_bool_iff in Hp. rewrite Hp. reflexivity.
Qed.

Lemma calculateWeekOverWeekChange_nonzero_previous (current previous : Q) :
  ~ (previous == 0)%Q ->
  calculateWeekOverWeekChange current previous
  = js_div
      (inject_Z
         (Math_round
            (js_mul (js_mul (js_div (js_sub current previous) previous) 100) 10)))
      10.
Proof.
  intros Hp. unfold calculateWeekOverWeekChange.
  destruct (Qeq_bool previous 0) eqn:E; [|reflexivity].
  apply Qeq_bool_iff in E. contradiction.
Qed.

(** The four rounded operations keep the product within [slack] of the
    exact change in tenths of a percent. *)
Lemma calculateWeekOverWeekChange_within (current previous : Q) :
  within slack ((current - previous) / previous * 1000)%Q
    (js_mul (js_mul (js_div (js_sub current previous) previous) 100) 10).
Proof.
  unfold js_mul, js_div, js_sub.
  set (u := unitRoundoff).
  pose proof (within_binary64 (current - previous)) as H1. fold u in H1.
  apply (within_scaled _ _ _ (/ previous)) in H1.
  apply within_rounded in H1. fold u in H1.
  apply (within_scaled _ _ _ 100) in H1.
  apply within_rounded in H1. fold u in H1.
  apply (within_scaled _ _ _ 10) in H1.
  apply within_rounded in H1. fold u in H1.
  unfold within in *.
  assert (Hx : ((current - previous) / previous * 1000
                == (current - previous) * / previous * 100 * 10)%Q)
    by (unfold Qdiv; ring).
  rewrite Hx.
  eapply Qle_trans; [exact H1|].
  apply Qmult_le_compat_r; [|apply Qabs_nonneg].
  vm_compute. discriminate.
Qed.

Lemma calculateWeekOverWeekChange_same (x : Q) :
  (calculateWeekOverWeekChange x x == 0)%Q.
Proof.
  destruct (Qeq_bool x 0) eqn:E.
  - apply Qeq_bool_iff in E.
    rewrite calculateWeekOverWeekChange_zero_previous by exact E.
    unfold Qgt_bool.
    assert (Hle : Qle_bool x 0 = true)
      by (apply Qle_bool_iff; rewrite E; apply Qle_refl).
    rewrite Hle. reflexivity.
  - assert (Hx : ~ (x == 0)%Q)
      by (intros Hx; apply Qeq_bool_iff in Hx; congruence).
    rewrite calculateWeekOverWeekChange_nonzero_previous by exact Hx.
    unfold js_sub, js_div, js_mul.
    rewrite (binary64_zero (x - x)) by ring.
    rewrite (binary64_zero (0 / x)) by (unfold Qdiv; ring).
    rewrite (binary64_zero (0 * 100)) by ring.
    rewrite (binary64_zero (0 * 10)) by ring.
    reflexivity.
Qed.

(** C3 as stated fails: from 80 to 103 the change is 28.75%, which
    rounded half-up to one decimal is 28.8, the claimed result.  The
    product [((103 - 80) / 80) * 100 * 10] of binary64 numbers is below
    287.5, and [calculateWeekOverWeekChange] returns 28.7. *)
Lemma C3_counterexample :
  Math_round ((103 - 80) / 80 * 1000) = 288
  /\ calculateWeekOverWeekChange 103 80 = js_div 287 10
  /\ ~ (calculateWeekOverWeekChange 103 80
        == inject_Z (Math_round ((103 - 80) / 80 * 1000)) / 10)%Q
  /\ ~ (calculateWeekOverWeekChange 103 80
        == js_div (inject_Z (Math_round ((103 - 80) / 80 * 1000))) 10)%Q.
Proof.
  split; [reflexivity|]. split; [vm_compute; reflexivity|].
  split; vm_compute; discriminate.
Qed.

(** C3, amended.  [calculateWeekOverWeekChange] returns 100 when the
    previous value is 0 and the current one positive, and 0 when the
    previous value is 0 and the current one is not positive.  Otherwise
    it returns the binary64 quotient [r / 10] of an integer [r] that lies
    within [1/2 + 2 ^ (-50) * |x|] of the exact
    [x = (current - previous) / previous * 1000].  For integers whose
    difference is below [2 ^ 50 / 2000], [r] is [x] rounded half-up,
    except that for an [x] halfway between two integers it may be the
    lower of the two.  An unchanged non-zero value gives 0, and so do
    two zeros. *)
Theorem C3_calculateWeekOverWeekChange_formula (current previous : Q) :
  ((previous == 0)%Q -> (0 < current)%Q ->
   calculateWeekOverWeekChange current previous = 100%Q)
  /\ ((previous == 0)%Q -> (current <= 0)%Q ->
      calculateWeekOverWeekChange current previous = 0%Q)
  /\ (~ (previous == 0)%Q ->
      let exact := ((current - previous) / previous * 1000)%Q in
      exists r : Z,
        calculateWeekOverWeekChange current previous = js_div (inject_Z r) 10
        /\ (Qabs (inject_Z r - exact) <= (1 # 2) + slack * Qabs exact)%Q
        /\ (forall c p : Z,
              (current == inject_Z c)%Q -> (previous == inject_Z p)%Q ->
              2000 * Z.abs (c - p) < 2 ^ 50 ->
              rounds_half_up exact r \/ (exact == inject_Z r + (1 # 2))%Q))
  /\ (~ (current == 0)%Q -> (calculateWeekOverWeekChange current current == 0)%Q)
  /\ calculateWeekOverWeekChange 0 0 = 0%Q.
Proof.
  split; [|split; [|split; [|split]]].
  - intros Hp Hc. rewrite calculateWeekOverWeekChange_zero_previous by exact Hp.
    unfold Qgt_bool. destruct (Qle_bool current 0) eqn:E; [|reflexivity].
    apply Qle_bool_iff in E. exfalso. exact (Qlt_not_le _ _ Hc E).
  - intros Hp Hc. rewrite calculateWeekOverWeekChange_zero_previous by exact Hp.
    unfold Qgt_bool. apply Qle_bool_iff in Hc. rewrite Hc. reflexivity.
  - intros Hp. cbv zeta.
    pose proof (Math_round_within _ _ _
                  (calculateWeekOverWeekChange_within current previous)) as Hr.
    eexists. split; [apply calculateWeekOverWeekChange_nonzero_previous, Hp|].
    split; [exact Hr|].
    intros c p Hc Hprev Hsmall.
    assert (Hp0 : p <> 0).
    { intros ->. apply Hp. exact Hprev. }
    assert (Hx : ((current - previous) / previous * 1000
                  == inject_Z (1000 * (c - p)) / inject_Z p)%Q).
    { rewrite Hc, Hprev. unfold Z.sub.
      rewrite inject_Z_mult, inject_Z_plus, inject_Z_opp.
      change (inject_Z 1000) with 1000%Q. field.
      apply inject_Z_nonzero, Hp0. }
    unfold rounds_half_up. rewrite Hx in Hr |- *.
    apply rounds_nearest_fraction; [exact Hp0|lia|exact Hr].
  - intros _. apply calculateWeekOverWeekChange_same.
  - reflexivity.
Qed.

(** From 0 to 7 is 100, from 0 to -3 is 0, 42 unchanged is 0, and from
    100 to 115 the tenths are those of 15%, which is not halfway. *)
Lemma C3_witness :
  calculateWeekOverWeekChange 7 0 = 100%Q
  /\ calculateWeekOverWeekChange (-3) 0 = 0%Q
  /\ (calculateWeekOverWeekChange 42 42 == 0)%Q
  /\ exists r : Z,
       calculateWeekOverWeekChange 115 100 = js_div (inject_Z r) 10
       /\ (rounds_half_up ((115 - 100) / 100 * 1000) r
           \/ ((115 - 100) / 100 * 1000 == inject_Z r + (1 # 2))%Q).
Proof.
  destruct (C3_calculateWeekOverWeekChange_formula 7 0) as (Hpos & _).
  destruct (C3_calculateWeekOverWeekChange_formula (-3) 0) as (_ & Hneg & _).
  destruct (C3_calculateWeekOverWeekChange_formula 42 42) as (_ & _ & _ & Hsame & _).
  destruct (C3_calculateWeekOverWeekChange_formula 115 100)
    as (_ & _ & Hchange & _).
  split; [apply Hpos; reflexivity|].
  split; [apply Hneg; [reflexivity|discriminate]|].
  split; [apply Hsame; discriminate|].
  destruct (Hchange ltac:(discriminate)) as (r & Hr & _ & Hintegers).
  exists r. split; [exact Hr|].
  apply (Hintegers 115 100); reflexivity.
Defined.

(** ** reach_calculator.js: the misuse detector *)

(** C9.  [detectIncorrectReachSum] returns a warning exactly when the
    period count exceeds 1 and the value exceeds 10,000,000, and [null]
    in every other case; it is a total function, so no input makes it
    throw. *)
Theorem C9_detectIncorrectReachSum_threshold
    (toLocaleString : Z -> string) (value periodCount : Z) :
  (is_Some (detectIncorrectReachSum toLocaleString value periodCount)
   <-> 1 < periodCount /\ 10000000 < value)
  /\ (~ (1 < periodCount /\ 10000000 < value) ->
      detectIncorrectReachSum toLocaleString value periodCount = None).
Proof.
  unfold detectIncorrectReachSum.
  destruct (Z.leb_spec periodCount 1) as [Hc|Hc];
    [|destruct (Z.ltb_spec 10000000 value) as [Hv|Hv]].
  - split; [split|reflexivity]; [intros [? ?]; discriminate|lia].
  - split; [split|lia]; [lia|eauto].
  - split; [split|reflexivity]; [intros [? ?]; discriminate|lia].
Qed.

(** A sum of 25,000,000 over 4 weeks is flagged; the same value for one
    week, or 9,000,000 over 4 weeks, is not. *)
Lemma C9_witness :
  is_Some (detectIncorrectReachSum Number_toString 25000000 4)
  /\ detectIncorrectReachSum Number_toString 25000000 1 = None
  /\ detectIncorrectReachSum Number_toString 9000000 4 = None.
Proof.
  split; [|split].
  - apply (C9_detectIncorrectReachSum_threshold Number_toString 25000000 4). lia.
  - apply (C9_detectIncorrectReachSum_threshold Number_toString 25000000 1). lia.
  - apply (C9_detectIncorrectReachSum_threshold Number_toString 9000000 4). lia.
Defined.

(** ** Property reads *)

Module JsObjectFacts.

Lemma js_get_own {V : Type} (obj : gmap string V) (k : string) (v : V) :
  obj !! k = Some v -> js_get obj k = Own v.
Proof. intros Hk. unfold js_get. rewrite Hk. reflexivity. Qed.

Lemma js_get_undefined {V : Type} (obj : gmap string V) (k : string) :
  obj !! k = None -> k ∉ Object_prototype_keys -> js_get obj k = Undefined.
Proof.
  intros Hk Hproto. unfold js_get.
  rewrite Hk, bool_decide_eq_false_2 by exact Hproto. reflexivity.
Qed.

Lemma js_get_inherited {V : Type} (obj : gmap string V) (k : string) :
  obj !! k = None -> k ∈ Object_prototype_keys -> js_get obj k = Inherited.
Proof.
  intros Hk Hproto. unfold js_get.
  rewrite Hk, bool_decide_eq_true_2 by exact Hproto. reflexivity.
Qed.

Lemma js_get_own_iff {V : Type} (obj : gmap string V) (k : string) (v : V) :
  js_get obj k = Own v <-> obj !! k = Some v.
Proof.
  unfold js_get. destruct (obj !! k) as [w|].
  - split; intros Heq; inversion Heq; reflexivity.
  - destruct (bool_decide _); split; discriminate.
Qed.

End JsObjectFacts.
Import JsObjectFacts.

(** ** metric_categorizer.js *)

Module MetricCategorizerFacts.
Import MetricCategorizer.

Lemma includes_here (needle rest : string) : includes (needle +:+ rest) needle.
Proof. exists ""%string, rest. reflexivity. Qed.

Lemma append_assoc (a b c : string) : (a +:+ b) +:+ c = a +:+ b +:+ c.
Proof.
  induction a as [|x a IH]; [reflexivity|].
  change (String x ((a +:+ b) +:+ c) = String x (a +:+ b +:+ c)).
  rewrite IH. reflexivity.
Qed.

Lemma includes_skip (prefix s needle : string) :
  includes s needle -> includes (prefix +:+ s) needle.
Proof.
  intros (before & after & ->). exists (prefix +:+ before), after.
  rewrite append_assoc. reflexivity.
Qed.

Lemma includes_here_assoc (a b c rest : string) :
  includes (a +:+ b +:+ c +:+ rest) (a +:+ b +:+ c).
Proof.
  exists ""%string, rest. simpl. rewrite !append_assoc. reflexivity.
Qed.

(** The registry holds exactly the four entries of the object literal. *)
Lemma METRIC_DEFINITIONS_lookup (k : string) (d : MetricDefinition) :
  METRIC_DEFINITIONS !! k = Some d <->
  (k = "reach"%string /\ d = reach_definition)
  \/ (k = "engagements"%string /\ d = engagements_definition)
  \/ (k = "status"%string /\ d = status_definition)
  \/ (k = "comment"%string /\ d = comment_definition).
Proof.
  unfold METRIC_DEFINITIONS. rewrite !lookup_insert, lookup_empty.
  repeat case_decide; subst; split; intros Hk;
    try (inversion Hk; subst; tauto);
    try discriminate;
    destruct Hk as [[? ?]|[[? ?]|[[? ?]|[? ?]]]]; subst;
    try reflexivity; try congruence.
Qed.

Lemma METRIC_DEFINITIONS_unregistered (k : string) :
  METRIC_DEFINITIONS !! k = None <->
  k <> "reach"%string /\ k <> "engagements"%string
  /\ k <> "status"%string /\ k <> "comment"%string.
Proof.
  unfold METRIC_DEFINITIONS. rewrite !lookup_insert, lookup_empty.
  repeat case_decide; subst; split; intros Hk;
    try discriminate; try reflexivity; try tauto;
    repeat split; congruence.
Qed.

Lemma validateAggregationMethod_registered
    (metricKey attemptedMethod : string) (metric : MetricDefinition) :
  METRIC_DEFINITIONS !! metricKey = Some metric ->
  validateAggregationMethod metricKey attemptedMethod
  = if negb (String.eqb attemptedMethod (aggregationMethod metric)) then
      {| isValid := false;
         errorMessage :=
           Some (mismatch_message (displayName metric) (aggregationMethod metric)
                   attemptedMethod (default ""%string (warningMessage metric))) |}
    else {| isValid := true; errorMessage := None |}.
Proof.
  intros Hreg. unfold validateAggregationMethod.
  rewrite (js_get_own _ _ _ Hreg). reflexivity.
Qed.

Lemma mismatch_message_names (name correct attempted warning : string) :
  includes (mismatch_message name correct attempted warning) name
  /\ includes (mismatch_message name correct attempted warning)
       (dquote +:+ correct +:+ dquote)
  /\ includes (mismatch_message name correct attempted warning)
       (dquote +:+ attempted +:+ dquote).
Proof.
  unfold mismatch_message. split; [|split].
  - apply includes_skip, includes_here.
  - do 4 apply includes_skip. apply includes_here_assoc.
  - do 8 apply includes_skip. apply includes_here_assoc.
Qed.

(** C7.  For a registered metric, [validateAggregationMethod] is
    invalid exactly when the attempted method differs from the
    registered [aggregationMethod]; the invalid result carries a message
    that names the metric, the correct method and the attempted one; the
    valid result carries no message.  Attempting ['sum'] on ['reach']
    fails with a message naming ['average'].  The function is total: it
    returns a result for every input. *)
Theorem C7_validateAggregationMethod_registered
    (metricKey attemptedMethod : string) (metric : MetricDefinition) :
  METRIC_DEFINITIONS !! metricKey = Some metric ->
  (isValid (validateAggregationMethod metricKey attemptedMethod) = false
   <-> attemptedMethod <> aggregationMethod metric)
  /\ (attemptedMethod <> aggregationMethod metric ->
      exists message : string,
        errorMessage (validateAggregationMethod metricKey attemptedMethod)
        = Some message
        /\ includes message (displayName metric)
        /\ includes message (dquote +:+ aggregationMethod metric +:+ dquote)
        /\ includes message (dquote +:+ attemptedMethod +:+ dquote))
  /\ (attemptedMethod = aggregationMethod metric ->
      validateAggregationMethod metricKey attemptedMethod
      = {| isValid := true; errorMessage := None |})
  /\ (exists message : string,
        validateAggregationMethod "reach" "sum"
        = {| isValid := false; errorMessage := Some message |}
        /\ includes message "average").
Proof.
  intros Hreg.
  rewrite (validateAggregationMethod_registered _ _ _ Hreg).
  destruct (String.eqb_spec attemptedMethod (aggregationMethod metric)) as [Heq|Hne];
    simpl.
  - split; [split; [discriminate|congruence]|].
    split; [congruence|]. split; [reflexivity|].
    eexists. split; [reflexivity|].
    unfold mismatch_message. do 5 apply includes_skip. apply includes_here.
  - split; [split; [intros _; exact Hne|reflexivity]|].
    split.
    { intros _. eexists. split; [reflexivity|]. apply mismatch_message_names. }
    split; [congruence|].
    eexists. split; [reflexivity|].
    unfold mismatch_message. do 5 apply includes_skip. apply includes_here.
Qed.

(** ['average'] on ['engagements'] is refused, ['sum'] is accepted. *)
Lemma C7_witness :
  isValid (validateAggregationMethod "engagements" "average") = false
  /\ validateAggregationMethod "engagements" "sum"
     = {| isValid := true; errorMessage := None |}.
Proof.
  destruct (C7_validateAggregationMethod_registered
              "engagements" "average" engagements_definition eq_refl)
    as ([_ Hinvalid] & _).
  destruct (C7_validateAggregationMethod_registered
              "engagements" "sum" engagements_definition eq_refl)
    as (_ & _ & Hvalid & _).
  split; [apply Hinvalid; discriminate|apply Hvalid; reflexivity].
Defined.

(** An unregistered key that is not a member of [Object.prototype]
    takes the safe defaults. *)
Lemma unknown_metric_safe_default (metricKey attemptedMethod : string) :
  METRIC_DEFINITIONS !! metricKey = None ->
  metricKey ∉ Object_prototype_keys ->
  canSumMetric metricKey = boolean false
  /\ getAggregationMethod metricKey = text "none"
  /\ validateAggregationMethod metricKey attemptedMethod
     = {| isValid := false;
          errorMessage := Some ("Okänd metric: " +:+ metricKey) |}.
Proof.
  intros Hnone Hproto.
  unfold canSumMetric, getAggregationMethod, validateAggregationMethod, js_get.
  rewrite Hnone, bool_decide_eq_false_2 by exact Hproto.
  repeat split.
Qed.

(** The key ["likes"] is not registered: not summable, no aggregation,
    unknown to the validator. *)
Lemma unknown_metric_safe_default_witness :
  canSumMetric "likes" = boolean false
  /\ getAggregationMethod "likes" = text "none"
  /\ validateAggregationMethod "likes" "sum"
     = {| isValid := false; errorMessage := Some "Okänd metric: likes"%string |}.
Proof.
  apply (unknown_metric_safe_default "likes" "sum"); [reflexivity|].
  apply (bool_decide_unpack _). vm_compute. exact I.
Defined.

(** An unregistered key that names a member of [Object.prototype]
    reads as a truthy object without the registry's fields: the lookups
    return [undefined] and the validator takes the mismatch branch. *)
Lemma inherited_metric_not_defaulted (metricKey attemptedMethod : string) :
  metricKey ∈ Object_prototype_keys ->
  canSumMetric metricKey = undefined
  /\ getAggregationMethod metricKey = undefined
  /\ validateAggregationMethod metricKey attemptedMethod
     = {| isValid := false;
          errorMessage :=
            Some (mismatch_message "undefined" "undefined" attemptedMethod "") |}.
Proof.
  intros Hproto.
  assert (Hnone : METRIC_DEFINITIONS !! metricKey = None).
  { apply METRIC_DEFINITIONS_unregistered.
    repeat split; intros ->; vm_compute in Hproto;
      repeat (apply elem_of_cons in Hproto as [Hproto|Hproto];
              [discriminate|]);
      inversion Hproto. }
  unfold canSumMetric, getAggregationMethod, validateAggregationMethod, js_get.
  rewrite Hnone, bool_decide_eq_true_2 by exact Hproto.
  repeat split.
Qed.

(** C10, at the key ["constructor"], which is a string other than
    ['reach'], ['engagements'], ['status'] and ['comment']:
    [METRIC_DEFINITIONS["constructor"]] is the inherited
    [Object.prototype.constructor], so [canSumMetric] returns
    [undefined] and not [false], [getAggregationMethod] returns
    [undefined] and not ['none'], and [validateAggregationMethod]
    reports a wrong method for the metric "undefined" instead of an
    unknown metric. *)
Theorem C10_inherited_key_misses_the_default :
  METRIC_DEFINITIONS !! "constructor"%string = None
  /\ canSumMetric "constructor" = undefined
  /\ canSumMetric "constructor" <> boolean false
  /\ getAggregationMethod "constructor" = undefined
  /\ getAggregationMethod "constructor" <> text "none"
  /\ errorMessage (validateAggregationMethod "constructor" "sum")
     = Some (mismatch_message "undefined" "undefined" "sum" "")
  /\ errorMessage (validateAggregationMethod "constructor" "sum")
     <> Some ("Okänd metric: " +:+ "constructor").
Proof.
  repeat split; try reflexivity; discriminate.
Qed.

End MetricCategorizerFacts.

(** ** Array.prototype.sort *)

Module ArraySortFacts.

Section Sort.
Context {A : Type} (compareFn : A -> A -> Z).

Lemma sort_insert_Permutation (x : A) (l : list A) :
  Permutation (sort_insert compareFn x l) (x :: l).
Proof.
  induction l as [|y l IH]; simpl; [reflexivity|].
  destruct (compareFn x y <=? 0); [reflexivity|].
  rewrite IH. apply perm_swap.
Qed.

Lemma Array_sort_Permutation (l : list A) :
  Permutation (Array_sort compareFn l) l.
Proof.
  induction l as [|x l IH]; simpl; [reflexivity|].
  rewrite sort_insert_Permutation, IH. reflexivity.
Qed.

Lemma Array_sort_length (l : list A) :
  length (Array_sort compareFn l) = length l.
Proof. apply Permutation_length, Array_sort_Permutation. Qed.

Lemma Array_sort_In (l : list A) (x : A) :
  In x (Array_sort compareFn l) <-> In x l.
Proof.
  split; apply Permutation_in;
    [|symmetry]; apply Array_sort_Permutation.
Qed.

Section Ordered.
Hypothesis compareFn_total : forall x y, before compareFn x y \/ before compareFn y x.

Lemma sort_insert_Sorted (x : A) (l : list A) :
  Sorted (before compareFn) l -> Sorted (before compareFn) (sort_insert compareFn x l).
Proof.
  induction 1 as [|y l Hsorted IH Hhd]; simpl.
  - repeat constructor.
  - destruct (Z.leb_spec (compareFn x y) 0) as [Hxy|Hxy].
    + repeat constructor; assumption.
    + constructor; [exact IH|].
      assert (Hyx : before compareFn y x)
        by (destruct (compareFn_total x y) as [H|H];
              [unfold before in H; lia|exact H]).
      destruct Hhd as [|z l Hyz]; simpl; [repeat constructor; exact Hyx|].
      destruct (compareFn x z <=? 0); constructor; assumption.
Qed.

Lemma Array_sort_Sorted (l : list A) : Sorted (before compareFn) (Array_sort compareFn l).
Proof.
  induction l as [|x l IH]; simpl; [constructor|].
  apply sort_insert_Sorted, IH.
Qed.

Lemma Array_sort_StronglySorted (l : list A) :
  (forall x y z, before compareFn x y -> before compareFn y z -> before compareFn x z) ->
  StronglySorted (before compareFn) (Array_sort compareFn l).
Proof.
  intros Htrans. apply Sorted_StronglySorted; [exact Htrans|].
  apply Array_sort_Sorted.
Qed.

End Ordered.

(** Stability: elements the comparator does not separate keep their
    relative order.  [same] selects a class of such elements. *)
Section Stable.
Variable same : A -> bool.
Hypothesis same_before :
  forall x y, same x = true -> same y = true -> before compareFn x y.

Lemma sort_insert_filter (x : A) (l : list A) :
  List.filter same (sort_insert compareFn x l) = List.filter same (x :: l).
Proof.
  induction l as [|y l IH]; [reflexivity|].
  simpl sort_insert.
  destruct (Z.leb_spec (compareFn x y) 0) as [Hxy|Hxy]; [reflexivity|].
  simpl in *. rewrite IH.
  destruct (same x) eqn:Ex, (same y) eqn:Ey; try reflexivity.
  exfalso. pose proof (same_before x y Ex Ey) as Hb. unfold before in Hb. lia.
Qed.

Lemma Array_sort_filter (l : list A) :
  List.filter same (Array_sort compareFn l) = List.filter same l.
Proof.
  induction l as [|x l IH]; [reflexivity|].
  simpl Array_sort. rewrite sort_insert_filter. simpl. rewrite IH. reflexivity.
Qed.

End Stable.
End Sort.

End ArraySortFacts.
Import ArraySortFacts.

(** ** weekly_analytics.js: ranking *)

Lemma rankPagesByMetric_unfold (l : list WeeklyPageData) (metric : MetricKey) :
  rankPagesByMetric l metric
  = imap
      (fun index item =>
         {| Ranking.rank := Z.of_nat index + 1;
            Ranking.page := Ranking.page item;
            Ranking.value := Ranking.value item;
            Ranking.status := Ranking.status item |})
      (Array_sort (fun a b => Ranking.value b - Ranking.value a)
         (map
            (fun data =>
               {| Ranking.rank := 0;
                  Ranking.page := page data;
                  Ranking.value := metricValue metric data;
                  Ranking.status := status data |})
            l)).
Proof. destruct l; reflexivity. Qed.

Lemma map_imap_item {A B C : Type} (g : B -> C) (f : nat -> A -> B)
    (h : A -> C) (l : list A) :
  (forall i x, g (f i x) = h x) -> map g (imap f l) = map h l.
Proof.
  intros Hgf. change (g <$> imap f l = h <$> l).
  rewrite fmap_imap, <- (imap_const h). apply imap_ext.
  intros i x _. apply Hgf.
Qed.

Lemma map_imap_index {A B C : Type} (g : B -> C) (f : nat -> A -> B)
    (h : nat -> C) (l : list A) :
  (forall i x, g (f i x) = h i) -> map g (imap f l) = map h (seq 0 (length l)).
Proof.
  intros Hgf. change (g <$> imap f l = h <$> seq 0 (length l)).
  rewrite fmap_imap, <- (imap_seq_0 l h). apply imap_ext.
  intros i x _. apply Hgf.
Qed.

Lemma one_based_positions (n : nat) :
  (fun i : nat => Z.of_nat i + 1) <$> seq 0 n = map Z.of_nat (seq 1 n).
Proof.
  rewrite <- seq_shift, map_map. apply map_ext. intros i. lia.
Qed.

(** C8.  [rankPagesByMetric] returns as many entries as it is given
    records, carrying the records' page, value and status; the ranks are
    1, 2, ..., n in this order; the values never increase along the list
    (so distinct values strictly decrease); and the entries with one and
    the same value stand in the order of the input.  An empty input
    gives an empty list. *)
Theorem C8_rankPagesByMetric_ranks
    (weeklyDataArray : list WeeklyPageData) (metric : MetricKey) :
  let ranking := rankPagesByMetric weeklyDataArray metric in
  length ranking = length weeklyDataArray
  /\ map Ranking.rank ranking = map Z.of_nat (seq 1 (length weeklyDataArray))
  /\ Permutation (map rankedFields ranking)
       (map (recordFields metric) weeklyDataArray)
  /\ StronglySorted Z.ge (map Ranking.value ranking)
  /\ (forall v : Z,
        List.filter (hasValue v) (map rankedFields ranking)
        = List.filter (hasValue v) (map (recordFields metric) weeklyDataArray))
  /\ rankPagesByMetric [] metric = [].
Proof.
  cbv zeta. rewrite rankPagesByMetric_unfold.
  set (compareFn := fun a b : Ranking.t => Ranking.value b - Ranking.value a).
  set (entry := fun data : WeeklyPageData =>
                  {| Ranking.rank := 0; Ranking.page := page data;
                     Ranking.value := metricValue metric data;
                     Ranking.status := status data |}).
  set (sorted := Array_sort compareFn (map entry weeklyDataArray)).
  assert (Hlen : length sorted = length weeklyDataArray)
    by (unfold sorted; rewrite Array_sort_length, length_map; reflexivity).
  assert (Hfields :
            forall ranked,
              map rankedFields
                (imap (fun index item =>
                         {| Ranking.rank := Z.of_nat index + 1;
                            Ranking.page := Ranking.page item;
                            Ranking.value := Ranking.value item;
                            Ranking.status := Ranking.status item |}) ranked)
              = map rankedFields ranked)
    by (intros ranked; apply map_imap_item; reflexivity).
  assert (Hentries :
            map rankedFields (map entry weeklyDataArray)
            = map (recordFields metric) weeklyDataArray)
    by (rewrite map_map; reflexivity).
  split; [rewrite length_imap; exact Hlen|].
  split.
  { rewrite (map_imap_index _ _ (fun i => Z.of_nat i + 1)) by reflexivity.
    rewrite Hlen. apply one_based_positions. }
  split.
  { rewrite Hfields, <- Hentries. apply Permutation_map.
    apply Array_sort_Permutation. }
  split.
  { rewrite (map_imap_item _ _ Ranking.value) by reflexivity.
    apply StronglySorted_fmap with (R1 := before compareFn).
    - intros a b Hab. unfold before, compareFn in Hab. lia.
    - apply Array_sort_StronglySorted; unfold before, compareFn; intros; lia. }
  split; [|reflexivity].
  intros v. rewrite Hfields, <- Hentries.
  do 2 rewrite filter_map_swap. f_equal.
  apply Array_sort_filter.
  intros x y Hx Hy. unfold hasValue, rankedFields in Hx, Hy. simpl in Hx, Hy.
  unfold before, compareFn. lia.
Qed.

(** ** weekly_analytics.js: statistics *)

Lemma fold_min_spec (vs : list Z) (v : Z) :
  In (fold_left Z.min vs v) (v :: vs)
  /\ Forall (fun x => fold_left Z.min vs v <= x) (v :: vs).
Proof.
  revert v. induction vs as [|w vs IH]; intros v; simpl.
  - split; [left; reflexivity|repeat constructor; lia].
  - destruct (IH (Z.min v w)) as [Hin Hall].
    inversion Hall as [|? ? Hhd Htl]; subst.
    split.
    + destruct Hin as [Hin|Hin]; [|right; right; exact Hin].
      rewrite <- Hin. destruct (Z.min_spec v w) as [[_ ->]|[_ ->]]; auto.
    + constructor; [lia|]. constructor; [lia|exact Htl].
Qed.

Lemma fold_max_spec (vs : list Z) (v : Z) :
  In (fold_left Z.max vs v) (v :: vs)
  /\ Forall (fun x => x <= fold_left Z.max vs v) (v :: vs).
Proof.
  revert v. induction vs as [|w vs IH]; intros v; simpl.
  - split; [left; reflexivity|repeat constructor; lia].
  - destruct (IH (Z.max v w)) as [Hin Hall].
    inversion Hall as [|? ? Hhd Htl]; subst.
    split.
    + destruct Hin as [Hin|Hin]; [|right; right; exact Hin].
      rewrite <- Hin. destruct (Z.max_spec v w) as [[_ ->]|[_ ->]]; auto.
    + constructor; [lia|]. constructor; [lia|exact Htl].
Qed.

Lemma Math_min_spec (values : list Z) :
  values <> [] ->
  In (Math_min values) values /\ Forall (fun x => Math_min values <= x) values.
Proof. destruct values as [|v vs]; [congruence|]. intros _. apply fold_min_spec. Qed.

Lemma Math_max_spec (values : list Z) :
  values <> [] ->
  In (Math_max values) values /\ Forall (fun x => x <= Math_max values) values.
Proof. destruct values as [|v vs]; [congruence|]. intros _. apply fold_max_spec. Qed.

Lemma StronglySorted_weaken {A : Type} (R1 R2 : A -> A -> Prop) (l : list A) :
  (forall x y, R1 x y -> R2 x y) -> StronglySorted R1 l -> StronglySorted R2 l.
Proof.
  intros Himpl. induction 1 as [|x l Hs IH Hall]; constructor; [exact IH|].
  eapply Forall_impl; [exact Hall|]. intros y. apply Himpl.
Qed.

Lemma ascending_sort_spec (values : list Z) :
  Permutation (Array_sort (fun a b => a - b) values) values
  /\ StronglySorted Z.le (Array_sort (fun a b => a - b) values).
Proof.
  split; [apply Array_sort_Permutation|].
  apply StronglySorted_weaken with (R1 := before (fun a b => a - b)).
  - unfold before. intros a b Hab. lia.
  - apply Array_sort_StronglySorted; unfold before; intros; lia.
Qed.

(** C5 as stated fails: for the two values 1 and 2 the textbook median
    is 3/2, and [calculateMetricStatistics] returns 2. *)
Lemma C5_counterexample :
  Statistics.median
    (calculateMetricStatistics
       [weekRecord "P1" 2025 1 "2025-01-01" 1 0;
        weekRecord "P1" 2025 2 "2025-01-08" 2 0] reachKey) = 2
  /\ Qeq (textbookMedian [1; 2]) (3 # 2)
  /\ ~ Qeq
        (inject_Z
           (Statistics.median
              (calculateMetricStatistics
                 [weekRecord "P1" 2025 1 "2025-01-01" 1 0;
                  weekRecord "P1" 2025 2 "2025-01-08" 2 0] reachKey)))
        (textbookMedian [1; 2]).
Proof.
  split; [reflexivity|]. split; [reflexivity|]. discriminate.
Qed.

Lemma rounds_half_up_comp (x y : Q) (r : Z) :
  (x == y)%Q -> rounds_half_up x r -> rounds_half_up y r.
Proof. unfold rounds_half_up. intros Heq [Hl Hu]. rewrite <- Heq. split; assumption. Qed.

Lemma rounds_half_up_integer (r : Z) : rounds_half_up (inject_Z r) r.
Proof.
  unfold rounds_half_up, Qle, Qlt, Qminus, Qplus, Qopp, inject_Z. simpl. lia.
Qed.

(** C5, amended.  For a non-empty record sequence
    [calculateMetricStatistics] returns the least and the greatest
    value, their plain sum as [total], [total / count] rounded half-up
    as [average], and as [median] the textbook median of the ascending
    value sequence rounded half-up to an integer: the middle value for
    an odd count, the rounded mean of the two middle values for an even
    count.  Values 10, 20, 30 have median 20 and values 10, 20, 30, 40
    have median 25. *)
Theorem C5_calculateMetricStatistics_rounded_median
    (weeklyDataArray : list WeeklyPageData) (metric : MetricKey) :
  weeklyDataArray <> [] ->
  let values := map (metricValue metric) weeklyDataArray in
  let stats := calculateMetricStatistics weeklyDataArray metric in
  let sorted := Array_sort (fun a b => a - b) values in
  (In (Statistics.min stats) values
   /\ Forall (fun v => Statistics.min stats <= v) values)
  /\ (In (Statistics.max stats) values
      /\ Forall (fun v => v <= Statistics.max stats) values)
  /\ Statistics.total stats = sum values
  /\ rounds_half_up
       (inject_Z (sum values) / inject_Z (Z.of_nat (length values)))%Q
       (Statistics.average stats)
  /\ (Permutation sorted values /\ StronglySorted Z.le sorted)
  /\ rounds_half_up (textbookMedian values) (Statistics.median stats)
  /\ ((length values mod 2 = 1)%nat ->
      Statistics.median stats = at_index sorted (length values / 2))
  /\ ((length values mod 2 = 0)%nat ->
      Statistics.median stats
      = Math_round
          (inject_Z (at_index sorted (length values / 2 - 1)
                     + at_index sorted (length values / 2)) / 2)%Q)
  /\ Statistics.median
       (calculateMetricStatistics
          [weekRecord "P1" 2025 1 "2025-01-01" 10 0;
           weekRecord "P1" 2025 2 "2025-01-08" 20 0;
           weekRecord "P1" 2025 3 "2025-01-15" 30 0] reachKey) = 20
  /\ Statistics.median
       (calculateMetricStatistics
          [weekRecord "P1" 2025 1 "2025-01-01" 10 0;
           weekRecord "P1" 2025 2 "2025-01-08" 20 0;
           weekRecord "P1" 2025 3 "2025-01-15" 30 0;
           weekRecord "P1" 2025 4 "2025-01-22" 40 0] reachKey) = 25.
Proof.
  intros Hne values stats sorted.
  assert (Hvalues : values <> [])
    by (unfold values; destruct weeklyDataArray; [congruence|discriminate]).
  assert (Hlen : length sorted = length values)
    by apply Array_sort_length.
  assert (Hstats :
            stats
            = {| Statistics.min := Math_min values;
                 Statistics.max := Math_max values;
                 Statistics.average :=
                   Math_round
                     (inject_Z (sum values) / inject_Z (Z.of_nat (length values)))%Q;
                 Statistics.median :=
                   if (length sorted mod 2 =? 0)%nat then
                     Math_round
                       (inject_Z (at_index sorted (length sorted / 2 - 1)
                                  + at_index sorted (length sorted / 2)) / 2)%Q
                   else at_index sorted (length sorted / 2);
                 Statistics.total := sum values |})
    by (unfold stats, calculateMetricStatistics;
        destruct weeklyDataArray; [congruence|reflexivity]).
  rewrite Hstats.
  cbn [Statistics.min Statistics.max Statistics.average Statistics.median
       Statistics.total].
  split; [apply Math_min_spec, Hvalues|].
  split; [apply Math_max_spec, Hvalues|].
  split; [reflexivity|].
  split; [apply Math_round_rounds_half_up|].
  split; [apply ascending_sort_spec|].
  split.
  { unfold textbookMedian. fold sorted.
    destruct (length sorted mod 2 =? 0)%nat.
    - eapply rounds_half_up_comp; [|apply Math_round_rounds_half_up].
      rewrite inject_Z_plus. reflexivity.
    - apply rounds_half_up_integer. }
  rewrite Hlen.
  split.
  { intros Hodd. rewrite Hodd. reflexivity. }
  split.
  { intros Heven. rewrite Heven. reflexivity. }
  split; reflexivity.
Qed.

(** Reach 10 and 21: least 10, greatest 21, total 31, average 16 and
    median 16 (both from 15.5). *)
Lemma C5_witness :
  calculateMetricStatistics
    [weekRecord "P1" 2025 1 "2025-01-01" 21 0;
     weekRecord "P1" 2025 2 "2025-01-08" 10 0] reachKey
  = {| Statistics.min := 10; Statistics.max := 21; Statistics.average := 16;
       Statistics.median := 16; Statistics.total := 31 |}
  /\ rounds_half_up (textbookMedian [21; 10])
       (Statistics.median
          (calculateMetricStatistics
             [weekRecord "P1" 2025 1 "2025-01-01" 21 0;
              weekRecord "P1" 2025 2 "2025-01-08" 10 0] reachKey)).
Proof.
  split; [reflexivity|].
  apply (C5_calculateMetricStatistics_rounded_median
           [weekRecord "P1" 2025 1 "2025-01-01" 21 0;
            weekRecord "P1" 2025 2 "2025-01-08" 10 0] reachKey).
  discriminate.
Defined.

(** ** weekly_analytics.js: consistent growth *)

Lemma growthLoop_climb (previous : Z) (ahead : list Z) (consecutive longest : nat) :
  (consecutive <= longest)%nat ->
  growthLoop previous ahead consecutive longest
  = Nat.max longest
      (Nat.max (consecutive + climb previous ahead) (longestClimb ahead)).
Proof.
  revert previous consecutive longest.
  induction ahead as [|current ahead IH]; intros previous consecutive longest Hle;
    simpl; [lia|].
  destruct (previous <? current).
  - rewrite IH by lia. lia.
  - rewrite IH by lia. lia.
Qed.

Lemma maxConsecutiveGrowth_longestClimb (values : list Z) :
  maxConsecutiveGrowth values = longestClimb values.
Proof.
  destruct values as [|first ahead]; [reflexivity|].
  simpl. rewrite growthLoop_climb by lia. lia.
Qed.

Lemma increasingRun_tail (x : Z) (values : list Z) (start steps : nat) :
  increasingRun (x :: values) (S start) steps <-> increasingRun values start steps.
Proof.
  unfold increasingRun, at_index. simpl length. split; intros [Hlen Hup].
  - split; [lia|]. intros j Hj. apply (Hup (S j)). lia.
  - split; [lia|]. intros [|j] Hj; [lia|]. apply (Hup j). lia.
Qed.

Lemma climb_run (x : Z) (values : list Z) :
  increasingRun (x :: values) 0 (climb x values).
Proof.
  revert x. induction values as [|y values IH]; intros x; simpl climb.
  - split; [simpl; lia|]. intros j Hj. lia.
  - destruct (Z.ltb_spec x y) as [Hxy|Hxy].
    + destruct (IH y) as [Hlen Hup]. split; [simpl in *; lia|].
      intros [|j] Hj; [exact Hxy|].
      apply (Hup j). lia.
    + split; [simpl; lia|]. intros j Hj. lia.
Qed.

Lemma run_from_front_le_climb (x : Z) (values : list Z) (steps : nat) :
  increasingRun (x :: values) 0 steps -> (steps <= climb x values)%nat.
Proof.
  revert x steps. induction values as [|y values IH]; intros x steps [Hlen Hup].
  - simpl in *. lia.
  - destruct steps as [|steps]; [lia|].
    simpl climb.
    assert (Hxy : x < y) by (apply (Hup 0%nat); lia).
    destruct (Z.ltb_spec x y) as [_|Hge]; [|lia].
    apply le_n_S, IH. split; [simpl in *; lia|].
    intros j Hj. apply (Hup (S j)). lia.
Qed.

(** The loop computes the longest run of the specification. *)
Lemma maxConsecutiveGrowth_longest (values : list Z) :
  values <> [] -> longestIncreasingRun values (maxConsecutiveGrowth values).
Proof.
  intros Hne. rewrite maxConsecutiveGrowth_longestClimb. split.
  - induction values as [|x values IH]; [congruence|].
    simpl longestClimb.
    destruct (Nat.max_spec (climb x values) (longestClimb values))
      as [[Hlt ->]|[Hge ->]].
    + destruct values as [|y values]; [simpl in Hlt; lia|].
      destruct IH as [start Hrun]; [discriminate|].
      exists (S start). apply increasingRun_tail, Hrun.
    + exists 0%nat. apply climb_run.
  - clear Hne. induction values as [|x values IH]; intros start steps Hrun.
    + destruct Hrun as [Hlen _]. simpl in Hlen. lia.
    + simpl longestClimb. destruct start as [|start].
      * apply run_from_front_le_climb in Hrun. lia.
      * apply increasingRun_tail, IH in Hrun. lia.
Qed.

Lemma longestIncreasingRun_unique (values : list Z) (k k' : nat) :
  longestIncreasingRun values k -> longestIncreasingRun values k' -> k = k'.
Proof.
  intros [[s Hs] Hmax] [[s' Hs'] Hmax'].
  apply Hmax' in Hs. apply Hmax in Hs'. lia.
Qed.

Lemma before_startDate (a b : WeeklyPageData) :
  before
    (fun a b => localeCompare (startDate (period a)) (startDate (period b))) a b
  <-> startsNoLater a b.
Proof.
  unfold before, startsNoLater, localeCompare, codeUnitCompare, String.le, String.leb.
  destruct (String.compare (startDate (period a)) (startDate (period b)));
    simpl; split; intros H; try lia; try exact I; destruct H.
Qed.

(** [sortByStartDate] is a stable ascending sort by [startDate]. *)
Lemma sortByStartDate_spec (pageData : list WeeklyPageData) :
  Permutation (sortByStartDate pageData) pageData
  /\ StronglySorted startsNoLater (sortByStartDate pageData)
  /\ forall date : string,
       List.filter (fun d => String.eqb (startDate (period d)) date)
         (sortByStartDate pageData)
       = List.filter (fun d => String.eqb (startDate (period d)) date) pageData.
Proof.
  unfold sortByStartDate. split; [apply Array_sort_Permutation|]. split.
  - eapply StronglySorted_weaken; [intros x y; apply before_startDate|].
    apply Array_sort_StronglySorted.
    + intros x y. rewrite !before_startDate. unfold startsNoLater.
      destruct (String.le_total (startDate (period x)) (startDate (period y)));
        auto.
    + intros x y z. rewrite !before_startDate. unfold startsNoLater.
      intros Hxy Hyz. etrans; eassumption.
  - intros date. apply Array_sort_filter.
    intros x y Hx Hy. apply String.eqb_eq in Hx, Hy.
    apply before_startDate. unfold startsNoLater. rewrite Hx, Hy. reflexivity.
Qed.

Lemma growthStep_app (metric : MetricKey) (minWeeks : nat)
    (report : list Growth.t) (pageData : list WeeklyPageData) :
  growthStep metric minWeeks report pageData
  = report ++ growthStep metric minWeeks [] pageData.
Proof.
  unfold growthStep.
  destruct (length pageData <? minWeeks + 1)%nat; [rewrite app_nil_r; reflexivity|].
  destruct (sortByStartDate pageData) as [|first rest];
    [rewrite app_nil_r; reflexivity|].
  destruct (minWeeks <=? _)%nat; [reflexivity|rewrite app_nil_r; reflexivity].
Qed.

Lemma fold_growthStep (metric : MetricKey) (minWeeks : nat)
    (pages : list (list WeeklyPageData)) (report : list Growth.t) :
  fold_left (growthStep metric minWeeks) pages report
  = report ++ flat_map (growthStep metric minWeeks []) pages.
Proof.
  revert report. induction pages as [|pageData pages IH]; intros report; simpl.
  - rewrite app_nil_r. reflexivity.
  - rewrite IH, (growthStep_app _ _ report), <- app_assoc. reflexivity.
Qed.

Lemma sortByStartDate_length (pageData : list WeeklyPageData) :
  length (sortByStartDate pageData) = length pageData.
Proof. apply Array_sort_length. Qed.

(** One page contributes an entry exactly when it has [minWeeks + 1]
    records and a longest run of at least [minWeeks] steps; the entry is
    then the one the specification describes. *)
Lemma growthStep_In (metric : MetricKey) (minWeeks : nat)
    (pageData : list WeeklyPageData) (entry : Growth.t) :
  In entry (growthStep metric minWeeks [] pageData) <->
  (minWeeks + 1 <= length pageData)%nat
  /\ (minWeeks <= Growth.consecutiveWeeks entry)%nat
  /\ reportsPage metric pageData entry.
Proof.
  unfold growthStep, reportsPage.
  pose proof (sortByStartDate_length pageData) as Hlen.
  destruct (Nat.ltb_spec (length pageData) (minWeeks + 1)) as [Hshort|Hlong].
  { split; [intros []|lia]. }
  destruct (sortByStartDate pageData) as [|first rest] eqn:Hsorted;
    [simpl in Hlen; lia|].
  assert (Hrun :
            longestIncreasingRun (map (metricValue metric) (first :: rest))
              (maxConsecutiveGrowth (map (metricValue metric) (first :: rest))))
    by (apply maxConsecutiveGrowth_longest; discriminate).
  destruct (Nat.leb_spec minWeeks
              (maxConsecutiveGrowth (map (metricValue metric) (first :: rest))))
    as [Hgrow|Hflat].
  - split.
    + intros [<-|[]]. simpl.
      split; [lia|]. split; [exact Hgrow|].
      split; [exists first, rest; split; reflexivity|].
      split; [exact Hrun|]. simpl in Hlen. exact Hlen.
    + intros (_ & _ & (first' & rest' & Heq & Hpage) & Hlongest & Htotal).
      inversion Heq; subst first' rest'.
      left. destruct entry as [p c t]. simpl in *.
      rewrite (longestIncreasingRun_unique _ _ _ Hrun Hlongest).
      congruence.
  - split; [intros []|].
    intros (_ & Hmin & _ & Hlongest & _).
    rewrite (longestIncreasingRun_unique _ _ _ Hrun Hlongest) in Hflat. lia.
Qed.

Lemma growthStep_length (metric : MetricKey) (minWeeks : nat)
    (pageData : list WeeklyPageData) :
  length (growthStep metric minWeeks [] pageData)
  = if decide
         ((minWeeks + 1 <= length pageData)%nat
          /\ (minWeeks
              <= maxConsecutiveGrowth
                   (map (metricValue metric) (sortByStartDate pageData)))%nat)
    then 1%nat else 0%nat.
Proof.
  unfold growthStep.
  pose proof (sortByStartDate_length pageData) as Hlen.
  destruct (Nat.ltb_spec (length pageData) (minWeeks + 1)) as [Hshort|Hlong].
  { rewrite decide_False by lia. reflexivity. }
  destruct (sortByStartDate pageData) as [|first rest] eqn:Hsorted;
    [simpl in Hlen; lia|].
  destruct (Nat.leb_spec minWeeks
              (maxConsecutiveGrowth (map (metricValue metric) (first :: rest))))
    as [Hgrow|Hflat].
  - rewrite decide_True by (split; [lia|exact Hgrow]). reflexivity.
  - rewrite decide_False by lia. reflexivity.
Qed.

(** C6.  [findConsistentGrowth] reports a page exactly when the page
    has at least [minWeeks + 1] records and the longest run of strictly
    increasing consecutive values, taken in ascending order of
    [startDate] and counted in increasing steps, has at least [minWeeks]
    steps.  The entry carries that run length as [consecutiveWeeks] and
    the number of records as [totalWeeks], and the report is in
    descending order of run length.  With [minWeeks = 2] and the values
    10, 20, 30, 25 in order of date, the page is reported with
    [consecutiveWeeks = 2]. *)
Theorem C6_findConsistentGrowth_longest_runs
    (dataByPage : list (string * list WeeklyPageData))
    (metric : MetricKey) (minWeeks : nat) :
  let report := findConsistentGrowth dataByPage metric minWeeks in
  (forall entry : Growth.t,
     In entry report <->
     exists (pageId : string) (pageData : list WeeklyPageData),
       In (pageId, pageData) dataByPage
       /\ (minWeeks + 1 <= length pageData)%nat
       /\ (minWeeks <= Growth.consecutiveWeeks entry)%nat
       /\ reportsPage metric pageData entry)
  /\ length report
     = length
         (filter
            (fun pageData =>
               (minWeeks + 1 <= length pageData)%nat
               /\ (minWeeks
                   <= maxConsecutiveGrowth
                        (map (metricValue metric) (sortByStartDate pageData)))%nat)
            (map snd dataByPage))
  /\ (forall values : list Z,
        values <> [] -> longestIncreasingRun values (maxConsecutiveGrowth values))
  /\ (forall pageData : list WeeklyPageData,
        Permutation (sortByStartDate pageData) pageData
        /\ StronglySorted startsNoLater (sortByStartDate pageData))
  /\ StronglySorted
       (fun a b => (Growth.consecutiveWeeks b <= Growth.consecutiveWeeks a)%nat)
       report
  /\ findConsistentGrowth
       [("P1"%string,
         [weekRecord "P1" 2025 3 "2025-01-13" 0 30;
          weekRecord "P1" 2025 1 "2024-12-30" 0 10;
          weekRecord "P1" 2025 4 "2025-01-20" 0 25;
          weekRecord "P1" 2025 2 "2025-01-06" 0 20])]
       engagementsKey 2
     = [ {| Growth.page := {| pageId := "P1"; pageName := "P1" |};
            Growth.consecutiveWeeks := 2;
            Growth.totalWeeks := 4 |} ].
Proof.
  cbv zeta. unfold findConsistentGrowth.
  rewrite fold_growthStep. simpl app.
  set (compareFn := fun a b : Growth.t =>
                      Z.of_nat (Growth.consecutiveWeeks b)
                      - Z.of_nat (Growth.consecutiveWeeks a)).
  split.
  { intros entry. rewrite Array_sort_In, in_flat_map. split.
    - intros (pageData & Hin & Hentry).
      apply in_map_iff in Hin as ([pageId pageData'] & Heq & Hin).
      simpl in Heq. subst pageData'.
      exists pageId, pageData. split; [exact Hin|].
      apply growthStep_In, Hentry.
    - intros (pageId & pageData & Hin & Hconds).
      exists pageData. split; [|apply growthStep_In, Hconds].
      apply in_map_iff. exists (pageId, pageData). split; [reflexivity|exact Hin]. }
  split.
  { rewrite Array_sort_length.
    induction (map snd dataByPage) as [|pageData pages IH]; [reflexivity|].
    simpl flat_map. rewrite length_app, IH, growthStep_length, filter_cons.
    destruct (decide _); reflexivity. }
  split; [apply maxConsecutiveGrowth_longest|].
  split; [intros pageData; split; apply sortByStartDate_spec|].
  split; [|reflexivity].
  apply StronglySorted_weaken with (R1 := before compareFn);
    [unfold before, compareFn; intros a b Hab; lia|].
  apply Array_sort_StronglySorted; unfold before, compareFn; intros; lia.
Qed.

(** ** Keys built from numbers *)

Lemma Number_toString_startsWithNumber (n : Z) (rest : string) :
  startsWithNumber (Number_toString n +:+ rest) = true.
Proof.
  unfold Number_toString, NilZero.string_of_int.
  destruct (Z.to_int n) as [u|u]; [|reflexivity].
  destruct u; reflexivity.
Qed.

Lemma startsWithNumber_not_inherited (k : string) :
  startsWithNumber k = true -> k ∉ Object_prototype_keys.
Proof.
  intros Hk Hin. unfold Object_prototype_keys in Hin.
  repeat (apply elem_of_cons in Hin as [->|Hin]; [discriminate Hk|]).
  inversion Hin.
Qed.

Lemma getPeriodKey_startsWithNumber (p : WeekPeriod) :
  startsWithNumber (getPeriodKey p) = true.
Proof. apply Number_toString_startsWithNumber. Qed.

Lemma monthKey_startsWithNumber (getMonthNumber : WeekPeriod -> Z)
    (data : WeeklyPageData) :
  startsWithNumber (monthKey getMonthNumber data) = true.
Proof. apply Number_toString_startsWithNumber. Qed.

Lemma quarterKey_startsWithNumber (getMonthNumber : WeekPeriod -> Z)
    (data : WeeklyPageData) :
  startsWithNumber (quarterKey getMonthNumber data) = true.
Proof. apply Number_toString_startsWithNumber. Qed.

(** Months 1 to 12 fall in quarters 1 to 4, three months each. *)
Lemma quarterOf_months (month : Z) :
  1 <= month <= 12 ->
  1 <= quarterOf month <= 4 /\ 3 * quarterOf month - 2 <= month <= 3 * quarterOf month.
Proof.
  intros Hm. unfold quarterOf, Math_ceil.
  assert (Hcases : month = 1 \/ month = 2 \/ month = 3 \/ month = 4
                   \/ month = 5 \/ month = 6 \/ month = 7 \/ month = 8
                   \/ month = 9 \/ month = 10 \/ month = 11 \/ month = 12) by lia.
  repeat (destruct Hcases as [->|Hcases]; [vm_compute; intuition discriminate|]).
  subst. vm_compute. intuition discriminate.
Qed.

(** ** aggregation_service.js: grouping *)

Module GroupingFacts.

Section Grouping.
Context {H : Type}.
Variable keyOf : WeeklyPageData -> string.
Variable headerOf : WeeklyPageData -> H.

Lemma membersOf_snoc (k : string) (visited : list WeeklyPageData)
    (data : WeeklyPageData) :
  membersOf keyOf k (visited ++ [data])
  = membersOf keyOf k visited
    ++ (if String.eqb (keyOf data) k then [data] else []).
Proof. unfold membersOf. rewrite List.filter_app. reflexivity. Qed.

Lemma groupStep_groupOf (groups : gmap string (Group H))
    (visited : list WeeklyPageData) (data : WeeklyPageData) :
  (forall k, groups !! k = groupOf keyOf headerOf k visited) ->
  keyOf data ∉ Object_prototype_keys ->
  exists groups' : gmap string (Group H),
    groupStep keyOf headerOf (Normal groups) data = Normal groups'
    /\ forall k, groups' !! k = groupOf keyOf headerOf k (visited ++ [data]).
Proof.
  intros Hinv Hproto. unfold groupStep.
  pose proof (Hinv (keyOf data)) as Hkey.
  unfold groupOf in Hkey.
  destruct (membersOf keyOf (keyOf data) visited) as [|first rest] eqn:Hmembers.
  - rewrite (js_get_undefined _ _ Hkey Hproto). simpl negb. cbv iota.
    rewrite (js_get_own _ _ _ (lookup_insert_eq _ _ _)).
    eexists. split; [reflexivity|].
    intros k. rewrite insert_insert_eq. unfold groupOf.
    rewrite membersOf_snoc.
    destruct (String.eqb_spec (keyOf data) k) as [<-|Hne].
    + rewrite lookup_insert_eq, Hmembers. reflexivity.
    + rewrite lookup_insert_ne by exact Hne. rewrite app_nil_r. apply Hinv.
  - rewrite (js_get_own _ _ _ Hkey). simpl negb. cbv iota.
    rewrite (js_get_own _ _ _ Hkey).
    eexists. split; [reflexivity|].
    intros k. unfold groupOf. rewrite membersOf_snoc.
    destruct (String.eqb_spec (keyOf data) k) as [<-|Hne].
    + rewrite lookup_insert_eq, Hmembers. simpl app.
      unfold addMember. simpl. f_equal. f_equal. f_equal.
      * rewrite map_app, !sum_cons, sum_app. simpl map.
        rewrite (sum_cons _ []). unfold sum at 3. simpl. lia.
      * rewrite length_app. simpl. lia.
    + rewrite lookup_insert_ne by exact Hne. rewrite app_nil_r. apply Hinv.
Qed.

Lemma fold_groupStep_groupOf (weeklyDataArray visited : list WeeklyPageData)
    (groups : gmap string (Group H)) :
  (forall k, groups !! k = groupOf keyOf headerOf k visited) ->
  Forall (fun data => keyOf data ∉ Object_prototype_keys) weeklyDataArray ->
  exists groups' : gmap string (Group H),
    fold_left (groupStep keyOf headerOf) weeklyDataArray (Normal groups)
    = Normal groups'
    /\ forall k,
         groups' !! k = groupOf keyOf headerOf k (visited ++ weeklyDataArray).
Proof.
  revert visited groups.
  induction weeklyDataArray as [|data rest IH]; intros visited groups Hinv Hkeys.
  - exists groups. rewrite app_nil_r. split; [reflexivity|exact Hinv].
  - inversion Hkeys as [|? ? Hdata Hrest]; subst.
    destruct (groupStep_groupOf groups visited data Hinv Hdata)
      as (groups1 & Hstep & Hinv1).
    destruct (IH (visited ++ [data]) groups1 Hinv1 Hrest)
      as (groups2 & Hfold & Hinv2).
    exists groups2. cbn [fold_left]. rewrite Hstep.
    split; [exact Hfold|].
    intros k. rewrite Hinv2, <- app_assoc. reflexivity.
Qed.

(** Once a key has named an inherited member, the loop has thrown. *)
Lemma fold_groupStep_TypeError (weeklyDataArray : list WeeklyPageData) :
  fold_left (groupStep keyOf headerOf) weeklyDataArray TypeError = TypeError.
Proof. induction weeklyDataArray; [reflexivity|assumption]. Qed.

Lemma groupOf_nil (k : string) : groupOf keyOf headerOf k [] = None.
Proof. reflexivity. Qed.

Lemma membersOf_not_inherited (k : string) (visited : list WeeklyPageData) :
  Forall (fun data => keyOf data ∉ Object_prototype_keys) visited ->
  k ∈ Object_prototype_keys -> membersOf keyOf k visited = [].
Proof.
  intros Hkeys Hk. unfold membersOf.
  induction Hkeys as [|data visited Hdata _ IH]; [reflexivity|].
  simpl. destruct (String.eqb_spec (keyOf data) k) as [Heq|_]; [|exact IH].
  subst k. contradiction.
Qed.

(** The loop throws at the first record whose key names an inherited
    member. *)
Lemma groupStep_inherited (groups : gmap string (Group H))
    (visited : list WeeklyPageData) (data : WeeklyPageData) :
  (forall k, groups !! k = groupOf keyOf headerOf k visited) ->
  Forall (fun data => keyOf data ∉ Object_prototype_keys) visited ->
  keyOf data ∈ Object_prototype_keys ->
  groupStep keyOf headerOf (Normal groups) data = TypeError.
Proof.
  intros Hinv Hvisited Hproto. unfold groupStep.
  assert (Hnone : groups !! keyOf data = None).
  { rewrite Hinv. unfold groupOf.
    rewrite (membersOf_not_inherited _ _ Hvisited Hproto). reflexivity. }
  rewrite (js_get_inherited _ _ Hnone Hproto). simpl negb. cbv iota.
  rewrite (js_get_inherited _ _ Hnone Hproto). reflexivity.
Qed.

Lemma fold_groupStep_inherited (weeklyDataArray visited : list WeeklyPageData)
    (groups : gmap string (Group H)) :
  (forall k, groups !! k = groupOf keyOf headerOf k visited) ->
  Forall (fun data => keyOf data ∉ Object_prototype_keys) visited ->
  Exists (fun data => keyOf data ∈ Object_prototype_keys) weeklyDataArray ->
  fold_left (groupStep keyOf headerOf) weeklyDataArray (Normal groups)
  = TypeError.
Proof.
  revert visited groups.
  induction weeklyDataArray as [|data rest IH];
    intros visited groups Hinv Hvisited Hexists; [inversion Hexists|].
  cbn [fold_left].
  destruct (decide (keyOf data ∈ Object_prototype_keys)) as [Hproto|Hfine].
  - rewrite (groupStep_inherited _ _ _ Hinv Hvisited Hproto).
    apply fold_groupStep_TypeError.
  - destruct (groupStep_groupOf groups visited data Hinv Hfine)
      as (groups1 & Hstep & Hinv1).
    rewrite Hstep. apply (IH (visited ++ [data])); [exact Hinv1| |].
    + apply Forall_app. split; [exact Hvisited|]. constructor; [exact Hfine|constructor].
    + inversion Hexists; subst; [contradiction|assumption].
Qed.

(** [aggregateBy] throws exactly when a key names an inherited member. *)
Lemma aggregateBy_TypeError_iff (weeklyDataArray : list WeeklyPageData) :
  aggregateBy keyOf headerOf weeklyDataArray = TypeError <->
  Exists (fun data => keyOf data ∈ Object_prototype_keys) weeklyDataArray.
Proof.
  unfold aggregateBy.
  destruct weeklyDataArray as [|data rest] eqn:Hl;
    [split; [discriminate|intros Hex; inversion Hex]|].
  rewrite <- Hl. replace ((length weeklyDataArray =? 0)%nat) with false
    by (subst; reflexivity).
  destruct (decide (Exists (fun data => keyOf data ∈ Object_prototype_keys)
                      weeklyDataArray)) as [Hex|Hall].
  - rewrite (fold_groupStep_inherited weeklyDataArray [] ∅);
      [tauto|intros k; rewrite lookup_empty; reflexivity|constructor|exact Hex].
  - assert (Hfine : Forall (fun data => keyOf data ∉ Object_prototype_keys)
                      weeklyDataArray)
      by (apply Forall_Exists_neg, Hall).
    destruct (fold_groupStep_groupOf weeklyDataArray [] ∅) as (groups & -> & _);
      [intros k; rewrite lookup_empty; reflexivity|exact Hfine|].
    split; [discriminate|contradiction].
Qed.

(** On keys that name no inherited member, [aggregateBy] partitions the
    records by key and aggregates each group. *)
Theorem aggregateBy_partition (weeklyDataArray : list WeeklyPageData) :
  weeklyDataArray <> [] ->
  Forall (fun data => keyOf data ∉ Object_prototype_keys) weeklyDataArray ->
  groupedBy keyOf headerOf weeklyDataArray
    (aggregateBy keyOf headerOf weeklyDataArray).
Proof.
  intros Hne Hkeys. unfold groupedBy, aggregateBy.
  replace ((length weeklyDataArray =? 0)%nat) with false
    by (destruct weeklyDataArray; [congruence|reflexivity]).
  destruct (fold_groupStep_groupOf weeklyDataArray [] ∅)
    as (groups & -> & Hgroups);
    [intros k; rewrite lookup_empty; reflexivity|exact Hkeys|].
  simpl app in Hgroups.
  assert (Hlookup :
            forall k g,
              (setAverageReach <$> groups) !! k = Some g ->
              exists first rest,
                membersOf keyOf k weeklyDataArray = first :: rest
                /\ g = setAverageReach
                         {| header := headerOf first;
                            weeks := first :: rest;
                            groupMetrics :=
                              {| totalEngagements :=
                                   sum (map (fun data => engagements (metrics data))
                                          (first :: rest));
                                 averageReach := 0;
                                 weekCount := Z.of_nat (length (first :: rest)) |} |}).
  { intros k g. rewrite lookup_fmap, Hgroups. unfold groupOf.
    destruct (membersOf keyOf k weeklyDataArray) as [|first rest];
      [discriminate|].
    intros Heq. inversion Heq. exists first, rest. split; reflexivity. }
  eexists. split; [reflexivity|]. split.
  - intros data Hin. rewrite lookup_fmap, Hgroups. unfold groupOf.
    assert (Hmember : In data (membersOf keyOf (keyOf data) weeklyDataArray))
      by (apply filter_In; split; [exact Hin|apply String.eqb_refl]).
    destruct (membersOf keyOf (keyOf data) weeklyDataArray) as [|first rest];
      [destruct Hmember|].
    eexists. split; [reflexivity|exact Hmember].
  - intros k g Hg. destruct (Hlookup k g Hg) as (first & rest & Hmembers & ->).
    unfold setAverageReach.
    cbn [weeks header groupMetrics totalEngagements averageReach weekCount].
    split; [symmetry; exact Hmembers|].
    split; [exists first, rest; split; reflexivity|].
    split; [reflexivity|].
    split; [rewrite <- (length_map (fun w => reach (metrics w))); reflexivity|].
    split; [reflexivity|].
    intros Hlen Hpos.
    pose proof (calculateAverageReach_lt_sum
                  (map (fun w : WeeklyPageData => reach (metrics w)) (first :: rest)))
      as Hlt.
    rewrite length_map in Hlt. specialize (Hlt Hlen).
    assert (Hpos' : Forall (fun x => 0 < x)
                      (map (fun w : WeeklyPageData => reach (metrics w))
                         (first :: rest)))
      by (apply Forall_map; exact Hpos).
    specialize (Hlt Hpos'). lia.
Qed.

End Grouping.
End GroupingFacts.
Import GroupingFacts.

(** ** aggregation_service.js: the pivot table *)

Module PivotFacts.

Lemma Set_add_spec (seen : list string) (x y : string) :
  In y (Set_add seen x) <-> In y seen \/ y = x.
Proof.
  unfold Set_add. destruct (decide (x ∈ seen)) as [Hin|Hout].
  - rewrite bool_decide_eq_true_2 by exact Hin.
    apply list_elem_of_In in Hin. split; [auto|].
    intros [Hy| ->]; assumption.
  - rewrite bool_decide_eq_false_2 by exact Hout.
    rewrite in_app_iff. simpl. intuition.
Qed.

Lemma Set_add_NoDup (seen : list string) (x : string) :
  NoDup seen -> NoDup (Set_add seen x).
Proof.
  intros Hnd. unfold Set_add. destruct (decide (x ∈ seen)) as [Hin|Hout].
  - rewrite bool_decide_eq_true_2 by exact Hin. exact Hnd.
  - rewrite bool_decide_eq_false_2 by exact Hout.
    apply NoDup_app. split; [exact Hnd|].
    split; [|apply NoDup_singleton].
    intros y Hy Hyx. apply list_elem_of_singleton in Hyx. subst y. contradiction.
Qed.

Lemma fold_Set_add_spec (l seen : list string) :
  (forall y, In y (fold_left Set_add l seen) <-> In y seen \/ In y l)
  /\ (NoDup seen -> NoDup (fold_left Set_add l seen)).
Proof.
  revert seen. induction l as [|x l IH]; intros seen; simpl.
  - split; [intuition|auto].
  - destruct (IH (Set_add seen x)) as [Hin Hnd]. split.
    + intros y. rewrite Hin, Set_add_spec. intuition.
    + intros Hseen. apply Hnd, Set_add_NoDup, Hseen.
Qed.

(** [[...new Set(l)]] lists the elements of [l], each once. *)
Lemma Set_of_spec (l : list string) :
  NoDup (Set_of l) /\ forall y, In y (Set_of l) <-> In y l.
Proof.
  unfold Set_of. destruct (fold_Set_add_spec l []) as [Hin Hnd]. split.
  - apply Hnd. apply NoDup_nil_2.
  - intros y. rewrite Hin. simpl. intuition.
Qed.

Lemma before_codeUnitCompare (a b : string) :
  before codeUnitCompare a b <-> String.le a b.
Proof.
  unfold before, codeUnitCompare, String.le, String.leb.
  destruct (String.compare a b);
    simpl; split; intros H; try lia; try exact I; destruct H.
Qed.

(** [l.sort()] on strings: ascending by character codes. *)
Lemma default_sort_spec (l : list string) :
  Permutation (Array_sort codeUnitCompare l) l
  /\ StronglySorted String.le (Array_sort codeUnitCompare l).
Proof.
  split; [apply Array_sort_Permutation|].
  eapply StronglySorted_weaken; [intros x y; apply before_codeUnitCompare|].
  apply Array_sort_StronglySorted.
  - intros x y. rewrite !before_codeUnitCompare.
    destruct (String.le_total x y); auto.
  - intros x y z. rewrite !before_codeUnitCompare.
    intros Hxy Hyz. etrans; eassumption.
Qed.

Lemma getPeriodKey_not_proto (p : WeekPeriod) :
  getPeriodKey p <> "__proto__"%string.
Proof.
  intros Heq. pose proof (getPeriodKey_startsWithNumber p) as Hnum.
  rewrite Heq in Hnum. discriminate.
Qed.

Lemma assignWeeks_snoc (metric : MetricKey) (members : list WeeklyPageData)
    (data : WeeklyPageData) (weeks : gmap string Z) :
  assignWeeks metric (members ++ [data]) weeks
  = <[getPeriodKey (period data) := metricValue metric data]>
      (assignWeeks metric members weeks).
Proof.
  unfold assignWeeks. rewrite fold_left_app. simpl. unfold js_set_number.
  rewrite bool_decide_eq_false_2 by apply getPeriodKey_not_proto. reflexivity.
Qed.

(** What the assignments leave under a week key: the value of the last
    member with the key. *)
Lemma assignWeeks_lookup (metric : MetricKey) (members : list WeeklyPageData)
    (w : string) (v : Z) :
  assignWeeks metric members ∅ !! w = Some v ->
  exists data,
    In data members /\ getPeriodKey (period data) = w
    /\ metricValue metric data = v.
Proof.
  induction members as [|data members IH] using rev_ind.
  - unfold assignWeeks. simpl. rewrite lookup_empty. discriminate.
  - rewrite assignWeeks_snoc.
    destruct (decide (getPeriodKey (period data) = w)) as [Heq|Hne].
    + rewrite Heq, lookup_insert_eq. intros [= <-].
      exists data. rewrite in_app_iff. simpl. auto.
    + rewrite lookup_insert_ne by exact Hne. intros Hw.
      destruct (IH Hw) as (d & Hin & Hkey & Hval).
      exists d. rewrite in_app_iff. auto.
Qed.

Lemma assignWeeks_lookup_unique (metric : MetricKey)
    (members : list WeeklyPageData) (data : WeeklyPageData) :
  NoDup (map (fun d => getPeriodKey (period d)) members) ->
  In data members ->
  assignWeeks metric members ∅ !! getPeriodKey (period data)
  = Some (metricValue metric data).
Proof.
  induction members as [|last members IH] using rev_ind; [intros _ []|].
  rewrite map_app, assignWeeks_snoc. simpl map. intros Hnd Hin.
  apply NoDup_app in Hnd as (Hmembers & Hfresh & _).
  apply in_app_iff in Hin as [Hin|[<-|[]]].
  - rewrite lookup_insert_ne.
    + apply IH; [exact Hmembers|exact Hin].
    + intros Heq.
      apply (Hfresh (getPeriodKey (period data))).
      * apply list_elem_of_In, in_map_iff. exists data. split; [reflexivity|exact Hin].
      * rewrite Heq. apply list_elem_of_singleton. reflexivity.
  - apply lookup_insert_eq.
Qed.

Lemma pivotStep_rowOf (metric : MetricKey) (pivotData : gmap string PivotRow.t)
    (visited : list WeeklyPageData) (data : WeeklyPageData) :
  (forall p, pivotData !! p = rowOf metric p visited) ->
  pageId (page data) ∉ Object_prototype_keys ->
  exists pivotData' : gmap string PivotRow.t,
    pivotStep metric (Normal pivotData) data = Normal pivotData'
    /\ forall p, pivotData' !! p = rowOf metric p (visited ++ [data]).
Proof.
  intros Hinv Hproto. unfold pivotStep.
  pose proof (Hinv (pageId (page data))) as Hkey.
  unfold rowOf in Hkey.
  destruct (membersOf (fun d => pageId (page d)) (pageId (page data)) visited)
    as [|first rest] eqn:Hmembers.
  - rewrite (js_get_undefined _ _ Hkey Hproto). simpl negb. cbv iota.
    rewrite (js_get_own _ _ _ (lookup_insert_eq _ _ _)).
    eexists. split; [reflexivity|].
    intros p. rewrite insert_insert_eq. unfold rowOf.
    rewrite membersOf_snoc.
    destruct (String.eqb_spec (pageId (page data)) p) as [<-|Hne].
    + rewrite lookup_insert_eq, Hmembers. reflexivity.
    + rewrite lookup_insert_ne by exact Hne. rewrite app_nil_r. apply Hinv.
  - rewrite (js_get_own _ _ _ Hkey). simpl negb. cbv iota.
    rewrite (js_get_own _ _ _ Hkey).
    eexists. split; [reflexivity|].
    intros p. unfold rowOf. rewrite membersOf_snoc.
    destruct (String.eqb_spec (pageId (page data)) p) as [<-|Hne].
    + rewrite lookup_insert_eq, Hmembers.
      cbn [PivotRow.page PivotRow.weeks].
      simpl app. f_equal. f_equal.
      change (first :: rest ++ [data]) with ((first :: rest) ++ [data]).
      rewrite assignWeeks_snoc. unfold js_set_number.
      rewrite bool_decide_eq_false_2 by apply getPeriodKey_not_proto.
      reflexivity.
    + rewrite lookup_insert_ne by exact Hne. rewrite app_nil_r. apply Hinv.
Qed.

Lemma fold_pivotStep_rowOf (metric : MetricKey)
    (weeklyDataArray visited : list WeeklyPageData)
    (pivotData : gmap string PivotRow.t) :
  (forall p, pivotData !! p = rowOf metric p visited) ->
  Forall (fun data => pageId (page data) ∉ Object_prototype_keys)
    weeklyDataArray ->
  exists pivotData' : gmap string PivotRow.t,
    fold_left (pivotStep metric) weeklyDataArray (Normal pivotData)
    = Normal pivotData'
    /\ forall p, pivotData' !! p = rowOf metric p (visited ++ weeklyDataArray).
Proof.
  revert visited pivotData.
  induction weeklyDataArray as [|data rest IH];
    intros visited pivotData Hinv Hkeys.
  - exists pivotData. rewrite app_nil_r. split; [reflexivity|exact Hinv].
  - inversion Hkeys as [|? ? Hdata Hrest]; subst.
    destruct (pivotStep_rowOf metric pivotData visited data Hinv Hdata)
      as (pivotData1 & Hstep & Hinv1).
    destruct (IH (visited ++ [data]) pivotData1 Hinv1 Hrest)
      as (pivotData2 & Hfold & Hinv2).
    exists pivotData2. cbn [fold_left]. rewrite Hstep.
    split; [exact Hfold|].
    intros p. rewrite Hinv2, <- app_assoc. reflexivity.
Qed.

(** Records told apart by [(periodKey, pageId)] have distinct period
    keys within one page. *)
Lemma uniqueId_members (p : string) (weeklyDataArray : list WeeklyPageData) :
  NoDup (map uniqueId weeklyDataArray) ->
  NoDup
    (map (fun d => getPeriodKey (period d))
       (membersOf (fun d => pageId (page d)) p weeklyDataArray)).
Proof.
  unfold membersOf.
  induction weeklyDataArray as [|data rest IH]; simpl; intros Hnd;
    [apply NoDup_nil_2|].
  apply NoDup_cons in Hnd as [Hfresh Hrest].
  destruct (String.eqb_spec (pageId (page data)) p) as [Hp|_]; [|auto].
  simpl. apply NoDup_cons. split; [|auto].
  intros Hin. apply Hfresh.
  apply list_elem_of_In, in_map_iff in Hin as (d & Hkey & Hd).
  apply filter_In in Hd as [Hd Hpd]. apply String.eqb_eq in Hpd.
  apply list_elem_of_In, in_map_iff. exists d. split; [|exact Hd].
  unfold uniqueId. rewrite Hkey, Hpd, Hp. reflexivity.
Qed.

End PivotFacts.
Import PivotFacts.

(** ** The grouping functions *)

(** The four grouping functions partition a non-empty record sequence
    by their key and aggregate each group: [aggregateByWeek],
    [aggregateByMonth] and [aggregateByQuarter] on every input, since
    their keys start with the digits of the year, and [aggregateByPage]
    when no page id names a member of [Object.prototype].  The quarter
    of months 1 to 12 is 1 to 4, three months each. *)
Theorem grouping_functions_partition
    (getMonthNumber : WeekPeriod -> Z) (getMonthName : WeekPeriod -> string)
    (weeklyDataArray : list WeeklyPageData) :
  weeklyDataArray <> [] ->
  (Forall (fun data => pageId (page data) ∉ Object_prototype_keys)
     weeklyDataArray ->
   groupedBy (fun data => pageId (page data)) page weeklyDataArray
     (aggregateByPage weeklyDataArray))
  /\ groupedBy (fun data => getPeriodKey (period data)) period weeklyDataArray
       (aggregateByWeek weeklyDataArray)
  /\ groupedBy (monthKey getMonthNumber)
       (fun data =>
          {| monthYear := year (period data);
             month := getMonthNumber (period data);
             monthName := getMonthName (period data) |})
       weeklyDataArray
       (aggregateByMonth getMonthNumber getMonthName weeklyDataArray)
  /\ groupedBy (quarterKey getMonthNumber)
       (fun data =>
          {| quarterYear := year (period data);
             quarter := quarterOf (getMonthNumber (period data)) |})
       weeklyDataArray
       (aggregateByQuarter getMonthNumber weeklyDataArray)
  /\ (forall m : Z,
        1 <= m <= 12 ->
        1 <= quarterOf m <= 4 /\ 3 * quarterOf m - 2 <= m <= 3 * quarterOf m).
Proof.
  intros Hne.
  split; [intros Hkeys; apply aggregateBy_partition; assumption|].
  split.
  { apply aggregateBy_partition; [exact Hne|].
    apply Forall_forall. intros data _.
    apply startsWithNumber_not_inherited, getPeriodKey_startsWithNumber. }
  split.
  { apply aggregateBy_partition; [exact Hne|].
    apply Forall_forall. intros data _.
    apply startsWithNumber_not_inherited, monthKey_startsWithNumber. }
  split; [|apply quarterOf_months].
  apply aggregateBy_partition; [exact Hne|].
  apply Forall_forall. intros data _.
  apply startsWithNumber_not_inherited, quarterKey_startsWithNumber.
Qed.

(** Page "P1" with reach 100000 and 120000 and engagements 500 and 700:
    one group with average reach 110000 and 1200 engagements. *)
Lemma grouping_functions_partition_witness :
  groupedBy (fun data => pageId (page data)) page
    [weekRecord "P1" 2025 41 "2025-10-06" 100000 500;
     weekRecord "P1" 2025 42 "2025-10-13" 120000 700]
    (aggregateByPage
       [weekRecord "P1" 2025 41 "2025-10-06" 100000 500;
        weekRecord "P1" 2025 42 "2025-10-13" 120000 700])
  /\ (exists groups g,
        aggregateByPage
          [weekRecord "P1" 2025 41 "2025-10-06" 100000 500;
           weekRecord "P1" 2025 42 "2025-10-13" 120000 700]
        = Normal groups
        /\ groups !! "P1"%string = Some g
        /\ groupMetrics g
           = {| totalEngagements := 1200; averageReach := 110000;
                weekCount := 2 |}).
Proof.
  split.
  - apply (grouping_functions_partition (fun _ => 10) (fun _ => "Oktober"%string)
             [weekRecord "P1" 2025 41 "2025-10-06" 100000 500;
              weekRecord "P1" 2025 42 "2025-10-13" 120000 700]);
      [discriminate|].
    repeat constructor; vm_compute; intros Hin;
      repeat (apply elem_of_cons in Hin as [Hin|Hin]; [discriminate|]);
      inversion Hin.
  - eexists. eexists. split; [reflexivity|]. split; reflexivity.
Defined.

(** C2, at a record whose page id is ["constructor"]:
    [pageGroups["constructor"]] reads the inherited
    [Object.prototype.constructor], which is truthy, so no group is
    created and [pageGroups[pageId].weeks.push(data)] throws a
    [TypeError]; [aggregateByPage] returns no partition.  The same
    record is grouped by [aggregateByWeek]. *)
Theorem C2_aggregateByPage_throws_on_inherited_pageId :
  aggregateByPage [weekRecord "constructor" 2025 41 "2025-10-06" 100000 500]
  = TypeError
  /\ ~ groupedBy (fun data => pageId (page data)) page
         [weekRecord "constructor" 2025 41 "2025-10-06" 100000 500]
         (aggregateByPage
            [weekRecord "constructor" 2025 41 "2025-10-06" 100000 500])
  /\ groupedBy (fun data => getPeriodKey (period data)) period
       [weekRecord "constructor" 2025 41 "2025-10-06" 100000 500]
       (aggregateByWeek
          [weekRecord "constructor" 2025 41 "2025-10-06" 100000 500]).
Proof.
  split; [reflexivity|]. split.
  - intros (groups & Hgroups & _). discriminate Hgroups.
  - apply aggregateBy_partition; [discriminate|].
    apply Forall_forall. intros data _.
    apply startsWithNumber_not_inherited, getPeriodKey_startsWithNumber.
Qed.

(** ** The pivot table *)

(** Round trip of [createPivotTable] on page ids that name no member of
    [Object.prototype]: for a non-empty record sequence whose records
    are told apart by [(periodKey, pageId)], the table holds under
    [data[pageId].weeks[periodKey]] the metric value of each record and
    nothing else, [weeks] lists the distinct period keys in ascending
    order of character codes, and [pages] lists the distinct page
    ids. *)
Theorem createPivotTable_round_trip
    (weeklyDataArray : list WeeklyPageData) (metric : MetricKey) :
  weeklyDataArray <> [] ->
  Forall (fun data => pageId (page data) ∉ Object_prototype_keys)
    weeklyDataArray ->
  NoDup (map uniqueId weeklyDataArray) ->
  exists table : PivotTable.t,
    createPivotTable weeklyDataArray metric = Normal table
    /\ PivotTable.metric table = Some metric
    /\ (forall data,
          In data weeklyDataArray ->
          exists row,
            js_get (PivotTable.data table) (pageId (page data)) = Own row
            /\ js_get (PivotRow.weeks row) (getPeriodKey (period data))
               = Own (metricValue metric data))
    /\ (forall p row w v,
          PivotTable.data table !! p = Some row ->
          PivotRow.weeks row !! w = Some v ->
          exists data,
            In data weeklyDataArray /\ pageId (page data) = p
            /\ getPeriodKey (period data) = w /\ metricValue metric data = v)
    /\ (StronglySorted String.le (PivotTable.weeks table)
        /\ NoDup (PivotTable.weeks table)
        /\ forall w,
             In w (PivotTable.weeks table) <->
             exists data,
               In data weeklyDataArray /\ getPeriodKey (period data) = w)
    /\ (NoDup (PivotTable.pages table)
        /\ forall p,
             In p (PivotTable.pages table) <->
             exists data, In data weeklyDataArray /\ pageId (page data) = p).
Proof.
  intros Hne Hkeys Hunique. unfold createPivotTable.
  replace ((length weeklyDataArray =? 0)%nat) with false
    by (destruct weeklyDataArray; [congruence|reflexivity]).
  destruct (fold_pivotStep_rowOf metric weeklyDataArray [] ∅)
    as (pivotData & -> & Hrows);
    [intros p; rewrite lookup_empty; reflexivity|exact Hkeys|].
  simpl app in Hrows.
  eexists. split; [reflexivity|].
  cbn [PivotTable.pages PivotTable.weeks PivotTable.data PivotTable.metric].
  split; [reflexivity|]. split.
  { intros data Hin.
    assert (Hmember :
              In data
                (membersOf (fun d => pageId (page d)) (pageId (page data))
                   weeklyDataArray))
      by (apply filter_In; split; [exact Hin|apply String.eqb_refl]).
    pose proof (uniqueId_members (pageId (page data)) _ Hunique) as Hweeks.
    pose proof (Hrows (pageId (page data))) as Hrow. unfold rowOf in Hrow.
    destruct (membersOf (fun d => pageId (page d)) (pageId (page data))
                weeklyDataArray) as [|first rest] eqn:Hmembers;
      [destruct Hmember|].
    eexists. split; [apply js_get_own, Hrow|].
    apply js_get_own. cbn [PivotRow.weeks].
    apply assignWeeks_lookup_unique; assumption. }
  split.
  { intros p row w v Hrow Hw. rewrite Hrows in Hrow. unfold rowOf in Hrow.
    destruct (membersOf (fun d => pageId (page d)) p weeklyDataArray)
      as [|first rest] eqn:Hmembers; [discriminate|].
    injection Hrow as <-.
    change (assignWeeks metric (first :: rest) ∅ !! w = Some v) in Hw.
    apply assignWeeks_lookup in Hw as (data & Hin & Hkey & Hval).
    rewrite <- Hmembers in Hin. apply filter_In in Hin as [Hin Hp].
    apply String.eqb_eq in Hp.
    exists data. repeat split; assumption. }
  split.
  { destruct (Set_of_spec
                (map (fun d => getPeriodKey (period d)) weeklyDataArray))
      as [Hnd Hin].
    destruct (default_sort_spec
                (Set_of (map (fun d => getPeriodKey (period d)) weeklyDataArray)))
      as [Hperm Hsorted].
    split; [exact Hsorted|]. split.
    - rewrite Hperm. exact Hnd.
    - intros w. rewrite <- list_elem_of_In, Hperm, list_elem_of_In, Hin.
      rewrite in_map_iff. split; intros (data & H1 & H2);
        exists data; auto. }
  destruct (Set_of_spec (map (fun d => pageId (page d)) weeklyDataArray))
    as [Hnd Hin].
  split; [exact Hnd|].
  intros p. rewrite Hin, in_map_iff.
  split; intros (data & H1 & H2); exists data; auto.
Qed.

(** Pages "P1" and "P2" over weeks 41 and 42: the table gives back the
    engagements of "P1" in week 42. *)
Lemma createPivotTable_round_trip_witness :
  exists table row,
    createPivotTable
      [weekRecord "P1" 2025 41 "2025-10-06" 100000 500;
       weekRecord "P2" 2025 41 "2025-10-06" 80000 300;
       weekRecord "P1" 2025 42 "2025-10-13" 120000 700] engagementsKey
    = Normal table
    /\ PivotTable.weeks table = ["2025_41"; "2025_42"]%string
    /\ js_get (PivotTable.data table) "P1" = Own row
    /\ js_get (PivotRow.weeks row) "2025_42" = Own 700.
Proof.
  destruct (createPivotTable_round_trip
              [weekRecord "P1" 2025 41 "2025-10-06" 100000 500;
               weekRecord "P2" 2025 41 "2025-10-06" 80000 300;
               weekRecord "P1" 2025 42 "2025-10-13" 120000 700] engagementsKey)
    as (table & Htable & _ & Hread & _).
  - discriminate.
  - apply (bool_decide_unpack _). vm_compute. exact I.
  - apply (bool_decide_unpack _). vm_compute. exact I.
  - destruct (Hread (weekRecord "P1" 2025 42 "2025-10-13" 120000 700))
      as (row & Hrow & Hweek); [simpl; auto|].
    exists table, row. split; [exact Htable|].
    split; [injection Htable as <-; reflexivity|].
    split; [exact Hrow|exact Hweek].
Defined.

(** C4, at a single record whose page id is ["constructor"] (so that
    no two records share [(periodKey, pageId)]): [pivotData["constructor"]]
    reads the inherited [Object.prototype.constructor], no row is
    created, and the assignment to [pivotData[pageId].weeks[weekKey]]
    throws a [TypeError]; there is no table to read the value back
    from. *)
Theorem C4_createPivotTable_throws_on_inherited_pageId :
  NoDup (map uniqueId [weekRecord "constructor" 2025 41 "2025-10-06" 100000 500])
  /\ createPivotTable
       [weekRecord "constructor" 2025 41 "2025-10-06" 100000 500] reachKey
     = TypeError
  /\ createPivotTable
       [weekRecord "constructor" 2025 41 "2025-10-06" 100000 500] engagementsKey
     = TypeError.
Proof.
  split; [|split; reflexivity].
  apply NoDup_singleton.
Qed.

(** * Further properties *)

(** ** weekly_analytics.js: best and worst week *)

Lemma fold_bestWorstStep_best (metric : MetricKey)
    (ahead earlier later : list WeeklyPageData) (best worst : WeeklyPageData) :
  Forall (fun d => metricValue metric d < metricValue metric best) earlier ->
  Forall (fun d => metricValue metric d <= metricValue metric best) later ->
  firstGreatest metric
    (fst (fold_left (bestWorstStep metric) ahead (best, worst)))
    (earlier ++ best :: later ++ ahead).
Proof.
  revert earlier later best worst.
  induction ahead as [|data ahead IH]; intros earlier later best worst He Hl.
  - exists earlier, later. rewrite app_nil_r. auto.
  - cbn [fold_left]. unfold bestWorstStep at 2. cbn [fst snd].
    destruct (Z.ltb_spec (metricValue metric best) (metricValue metric data))
      as [Hlt|Hge].
    + replace (earlier ++ best :: later ++ data :: ahead)
        with ((earlier ++ best :: later) ++ data :: [] ++ ahead)
        by (rewrite <- app_assoc; reflexivity).
      apply IH; [|constructor].
      apply Forall_app. split.
      * eapply Forall_impl; [exact He|]. intros d Hd. simpl in Hd. lia.
      * constructor; [exact Hlt|].
        eapply Forall_impl; [exact Hl|]. intros d Hd. simpl in Hd. lia.
    + replace (earlier ++ best :: later ++ data :: ahead)
        with (earlier ++ best :: (later ++ [data]) ++ ahead)
        by (rewrite <- app_assoc; reflexivity).
      apply IH; [exact He|].
      apply Forall_app. split; [exact Hl|]. constructor; [lia|constructor].
Qed.

Lemma fold_bestWorstStep_worst (metric : MetricKey)
    (ahead earlier later : list WeeklyPageData) (best worst : WeeklyPageData) :
  Forall (fun d => metricValue metric worst < metricValue metric d) earlier ->
  Forall (fun d => metricValue metric worst <= metricValue metric d) later ->
  firstLeast metric
    (snd (fold_left (bestWorstStep metric) ahead (best, worst)))
    (earlier ++ worst :: later ++ ahead).
Proof.
  revert earlier later best worst.
  induction ahead as [|data ahead IH]; intros earlier later best worst He Hl.
  - exists earlier, later. rewrite app_nil_r. auto.
  - cbn [fold_left]. unfold bestWorstStep at 2. cbn [fst snd].
    destruct (Z.ltb_spec (metricValue metric data) (metricValue metric worst))
      as [Hlt|Hge].
    + replace (earlier ++ worst :: later ++ data :: ahead)
        with ((earlier ++ worst :: later) ++ data :: [] ++ ahead)
        by (rewrite <- app_assoc; reflexivity).
      apply IH; [|constructor].
      apply Forall_app. split.
      * eapply Forall_impl; [exact He|]. intros d Hd. simpl in Hd. lia.
      * constructor; [exact Hlt|].
        eapply Forall_impl; [exact Hl|]. intros d Hd. simpl in Hd. lia.
    + replace (earlier ++ worst :: later ++ data :: ahead)
        with (earlier ++ worst :: (later ++ [data]) ++ ahead)
        by (rewrite <- app_assoc; reflexivity).
      apply IH; [exact He|].
      apply Forall_app. split; [exact Hl|]. constructor; [lia|constructor].
Qed.

(** [findBestAndWorstWeek] on a non-empty array returns as [best] the
    first record with the greatest value of the metric and as [worst]
    the first record with the least value: every earlier record is
    strictly below (above) it and no later record beats it. *)
Theorem findBestAndWorstWeek_first_extremes
    (weeklyDataArray : list WeeklyPageData) (metric : MetricKey) :
  weeklyDataArray <> [] ->
  exists best worst : WeeklyPageData,
    findBestAndWorstWeek weeklyDataArray metric
    = {| BestWorst.best := Some best; BestWorst.worst := Some worst |}
    /\ firstGreatest metric best weeklyDataArray
    /\ firstLeast metric worst weeklyDataArray.
Proof.
  destruct weeklyDataArray as [|first rest]; [congruence|]. intros _.
  unfold findBestAndWorstWeek.
  eexists. eexists. split; [reflexivity|].
  assert (Hfirst :
            fold_left (bestWorstStep metric) (first :: rest) (first, first)
            = fold_left (bestWorstStep metric) rest (first, first)).
  { cbn [fold_left]. unfold bestWorstStep at 2. cbn [fst snd].
    rewrite Z.ltb_irrefl. reflexivity. }
  rewrite Hfirst. split.
  - apply (fold_bestWorstStep_best metric rest [] [] first first); constructor.
  - apply (fold_bestWorstStep_worst metric rest [] [] first first); constructor.
Qed.

(** Reach 5, 9, 9, 5: the best week is the first with 9, the worst the
    first with 5. *)
Lemma findBestAndWorstWeek_first_extremes_witness :
  exists best worst : WeeklyPageData,
    findBestAndWorstWeek
      [weekRecord "P1" 2025 1 "2025-01-01" 5 0;
       weekRecord "P1" 2025 2 "2025-01-08" 9 0;
       weekRecord "P1" 2025 3 "2025-01-15" 9 0;
       weekRecord "P1" 2025 4 "2025-01-22" 5 0] reachKey
    = {| BestWorst.best := Some best; BestWorst.worst := Some worst |}
    /\ week (period best) = 2 /\ week (period worst) = 1.
Proof.
  destruct (findBestAndWorstWeek_first_extremes
              [weekRecord "P1" 2025 1 "2025-01-01" 5 0;
               weekRecord "P1" 2025 2 "2025-01-08" 9 0;
               weekRecord "P1" 2025 3 "2025-01-15" 9 0;
               weekRecord "P1" 2025 4 "2025-01-22" 5 0] reachKey)
    as (best & worst & Heq & _); [discriminate|].
  exists best, worst. split; [exact Heq|].
  injection Heq as <- <-. split; reflexivity.
Defined.

(** ** weekly_analytics.js: percent changes and the 5% thresholds *)

(** The three rounded operations of a share keep the product within
    [slack] of the exact share in tenths of a percent. *)
Lemma shareTenths_within (total e : Z) :
  within slack (inject_Z e / inject_Z total * 1000)%Q
    (js_mul (js_mul (js_div (inject_Z e) (inject_Z total)) 100) 10).
Proof.
  unfold js_mul, js_div.
  set (u := unitRoundoff).
  set (x := (inject_Z e / inject_Z total)%Q).
  pose proof (within_binary64 x) as H1. fold u in H1.
  apply (within_scaled _ _ _ 100) in H1.
  apply within_rounded in H1. fold u in H1.
  apply (within_scaled _ _ _ 10) in H1.
  apply within_rounded in H1. fold u in H1.
  unfold within in *.
  assert (Hx : (x * 1000 == x * 100 * 10)%Q) by ring.
  rewrite Hx.
  eapply Qle_trans; [exact H1|].
  apply Qmult_le_compat_r; [|apply Qabs_nonneg].
  vm_compute. discriminate.
Qed.

Lemma share_fraction (total e : Z) :
  total <> 0 ->
  (inject_Z e / inject_Z total * 1000 == inject_Z (1000 * e) / inject_Z total)%Q.
Proof.
  intros Htotal. rewrite inject_Z_mult. change (inject_Z 1000) with 1000%Q.
  field. apply inject_Z_nonzero, Htotal.
Qed.

(** The tenths of a share of small integers are the exact share
    rounded half-up, or the exact share is a half above them. *)
Lemma shareTenths_rounds (total e : Z) :
  total <> 0 -> 2000 * Z.abs e < 2 ^ 50 ->
  rounds_half_up (inject_Z e / inject_Z total * 1000)%Q (shareTenths total e)
  \/ (inject_Z e / inject_Z total * 1000
      == inject_Z (shareTenths total e) + (1 # 2))%Q.
Proof.
  intros Htotal He.
  pose proof (Math_round_within _ _ _ (shareTenths_within total e)) as H.
  fold (shareTenths total e) in H.
  unfold rounds_half_up. rewrite (share_fraction total e Htotal) in H |- *.
  apply rounds_nearest_fraction; [exact Htotal|lia|exact H].
Qed.

Lemma shareTenths_nearest (total e : Z) :
  0 < total -> 2000 * Z.abs e < 2 ^ 50 ->
  2000 * e - total <= 2 * total * shareTenths total e <= 2000 * e + total.
Proof.
  intros Htotal He.
  pose proof (Math_round_within _ _ _ (shareTenths_within total e)) as H.
  fold (shareTenths total e) in H.
  rewrite (share_fraction total e) in H by lia.
  pose proof (nearest_of_slack (1000 * e) total (shareTenths total e) Htotal
                ltac:(lia) H).
  lia.
Qed.

Lemma shareTenths_comp (total e total' e' : Z) :
  (inject_Z e / inject_Z total == inject_Z e' / inject_Z total')%Q ->
  shareTenths total e = shareTenths total' e'.
Proof.
  intros Heq. unfold shareTenths, js_div.
  rewrite (binary64_comp _ _ Heq). reflexivity.
Qed.

(** At a share of exactly 5.05%, and of exactly -5.05%, the three
    roundings land beyond the half. *)
Lemma shareTenths_tie_up (total e : Z) :
  total <> 0 -> 2000 * e = 101 * total -> shareTenths total e = 51.
Proof.
  intros Htotal He.
  rewrite (shareTenths_comp total e 2000 101); [vm_compute; reflexivity|].
  assert (Hq : (inject_Z 2000 * inject_Z e == inject_Z 101 * inject_Z total)%Q)
    by (rewrite <- !inject_Z_mult, He; reflexivity).
  apply inject_Z_nonzero in Htotal.
  change (inject_Z 2000) with 2000%Q in *. change (inject_Z 101) with 101%Q in *.
  apply (Qmult_inj_r _ _ (2000 * inject_Z total)%Q); [lra|].
  field_simplify; [|lra]. lra.
Qed.

Lemma shareTenths_tie_down (total e : Z) :
  total <> 0 -> 2000 * e = -101 * total -> shareTenths total e = -51.
Proof.
  intros Htotal He.
  rewrite (shareTenths_comp total e 2000 (-101)); [vm_compute; reflexivity|].
  assert (Hq : (inject_Z 2000 * inject_Z e == inject_Z (-101) * inject_Z total)%Q)
    by (rewrite <- !inject_Z_mult, He; reflexivity).
  apply inject_Z_nonzero in Htotal.
  change (inject_Z 2000) with 2000%Q in *.
  change (inject_Z (-101)) with (-101)%Q in *.
  apply (Qmult_inj_r _ _ (2000 * inject_Z total)%Q); [lra|].
  field_simplify; [|lra]. lra.
Qed.

(** The percentage of a share of small integers exceeds 5 exactly from
    a share of 5.05%, and is below -5 exactly from a share of -5.05%. *)
Lemma share_gt_5 (total e : Z) :
  0 < total -> 2000 * Z.abs e < 2 ^ 50 ->
  Qgt_bool (js_div (inject_Z (shareTenths total e)) 10) 5 = true
  <-> 101 * total <= 2000 * e.
Proof.
  intros Htotal He. rewrite tenths_gt_5.
  pose proof (shareTenths_nearest total e Htotal He) as Hnear.
  split.
  - intros Hr. nia.
  - intros Hge.
    destruct (Z.eq_dec (2000 * e) (101 * total)) as [Htie|Hne].
    + rewrite (shareTenths_tie_up total e) by (lia || exact Htie). lia.
    + nia.
Qed.

Lemma share_lt_minus_5 (total e : Z) :
  0 < total -> 2000 * Z.abs e < 2 ^ 50 ->
  Qgt_bool (-5) (js_div (inject_Z (shareTenths total e)) 10) = true
  <-> 2000 * e <= -101 * total.
Proof.
  intros Htotal He. rewrite tenths_lt_minus_5.
  pose proof (shareTenths_nearest total e Htotal He) as Hnear.
  split.
  - intros Hr. nia.
  - intros Hle.
    destruct (Z.eq_dec (2000 * e) (-101 * total)) as [Htie|Hne].
    + rewrite (shareTenths_tie_down total e) by (lia || exact Htie). lia.
    + nia.
Qed.

(** On integers whose difference is a binary64 number the change is the
    share of the difference in the previous value. *)
Lemma calculateWeekOverWeekChange_integers (current previous : Z) :
  previous <> 0 -> Z.abs (current - previous) <= 2 ^ 53 ->
  calculateWeekOverWeekChange (inject_Z current) (inject_Z previous)
  = js_div (inject_Z (shareTenths previous (current - previous))) 10.
Proof.
  intros Hp Hd.
  rewrite calculateWeekOverWeekChange_nonzero_previous
    by (apply inject_Z_nonzero, Hp).
  unfold shareTenths.
  assert (Hsub : (js_sub (inject_Z current) (inject_Z previous)
                  == inject_Z (current - previous))%Q).
  { unfold js_sub.
    rewrite (binary64_comp _ (inject_Z (current - previous)))
      by (unfold Z.sub; rewrite inject_Z_plus, inject_Z_opp; reflexivity).
    apply binary64_integer, Hd. }
  unfold js_div at 2 4.
  rewrite (binary64_comp
             (js_sub (inject_Z current) (inject_Z previous) / inject_Z previous)
             (inject_Z (current - previous) / inject_Z previous))
    by (unfold Qdiv; apply Qmult_comp; [exact Hsub|reflexivity]).
  reflexivity.
Qed.

Lemma small_difference (d : Z) : 2000 * Z.abs d < 2 ^ 50 -> Z.abs d <= 2 ^ 53.
Proof.
  change (2 ^ 50) with 1125899906842624.
  change (2 ^ 53) with 9007199254740992. lia.
Qed.

(** The change exceeds 5 exactly from a growth of 5.05%, and is below -5
    exactly from a loss of 5.05%. *)
Lemma change_gt_5 (current previous : Z) :
  0 < previous -> 2000 * Z.abs (current - previous) < 2 ^ 50 ->
  Qgt_bool
    (calculateWeekOverWeekChange (inject_Z current) (inject_Z previous)) 5 = true
  <-> 101 * previous <= 2000 * (current - previous).
Proof.
  intros Hp Hd.
  rewrite calculateWeekOverWeekChange_integers
    by (lia || apply small_difference, Hd).
  apply share_gt_5; assumption.
Qed.

Lemma change_lt_minus_5 (current previous : Z) :
  0 < previous -> 2000 * Z.abs (current - previous) < 2 ^ 50 ->
  Qgt_bool (-5)
    (calculateWeekOverWeekChange (inject_Z current) (inject_Z previous)) = true
  <-> 2000 * (current - previous) <= -101 * previous.
Proof.
  intros Hp Hd.
  rewrite calculateWeekOverWeekChange_integers
    by (lia || apply small_difference, Hd).
  apply share_lt_minus_5; assumption.
Qed.

Lemma Qgt_bool_integer_0 (n : Z) : Qgt_bool (inject_Z n) 0 = (0 <? n).
Proof.
  unfold Qgt_bool, Qle_bool, inject_Z. simpl. rewrite Z.mul_1_r.
  destruct (Z.leb_spec n 0), (Z.ltb_spec 0 n); simpl; try reflexivity; lia.
Qed.

Lemma at_index_last (first : Z) (middle : list Z) (last : Z) :
  at_index (first :: middle ++ [last]) (length (first :: middle ++ [last]) - 1)
  = last.
Proof.
  unfold at_index. simpl length. rewrite Nat.sub_succ, Nat.sub_0_r.
  change (first :: middle ++ [last]) with ((first :: middle) ++ [last]).
  rewrite length_app. simpl length.
  replace (length middle + 1)%nat with (length (first :: middle))
    by (simpl; lia).
  rewrite nth_middle. reflexivity.
Qed.

Lemma calculateAverageTrend_long (first : Z) (middle : list Z) (last : Z) :
  calculateAverageTrend (first :: middle ++ [last])
  = let values := first :: middle ++ [last] in
    let changePercent :=
      calculateWeekOverWeekChange (inject_Z last) (inject_Z first) in
    {| Trend.average :=
         Math_round (inject_Z (sum values) / inject_Z (Z.of_nat (length values)))%Q;
       Trend.trend :=
         if Qgt_bool changePercent 5 then "increasing"%string
         else if Qgt_bool (-5) changePercent then "decreasing"%string
         else "neutral"%string;
       Trend.changePercent := changePercent |}.
Proof.
  unfold calculateAverageTrend.
  rewrite at_index_last.
  replace ((length (first :: middle ++ [last]) =? 0)%nat) with false
    by reflexivity.
  replace ((length (first :: middle ++ [last]) =? 1)%nat) with false.
  - reflexivity.
  - symmetry. apply Nat.eqb_neq. simpl. rewrite length_app. simpl. lia.
Qed.

(** [calculateAverageTrend] on two or more values reports the change
    from the first to the last value and the mean rounded half-up.  The
    5% thresholds apply to the change rounded to one decimal in
    binary64: with a positive first value and a difference below
    [2 ^ 50 / 2000], the trend is ['increasing'] exactly when the
    growth is at least 5.05% and ['decreasing'] exactly when the loss is
    at least 5.05%; from a first value of 0 it is ['increasing']
    exactly when the last value is positive and never ['decreasing'].
    With fewer than two values the trend is ['neutral'] and the change
    is 0. *)
Theorem calculateAverageTrend_thresholds
    (first : Z) (middle : list Z) (last : Z) :
  let values := first :: middle ++ [last] in
  let result := calculateAverageTrend values in
  Trend.changePercent result
  = calculateWeekOverWeekChange (inject_Z last) (inject_Z first)
  /\ rounds_half_up
       (inject_Z (sum values) / inject_Z (Z.of_nat (length values)))%Q
       (Trend.average result)
  /\ (0 < first -> 2000 * Z.abs (last - first) < 2 ^ 50 ->
      (Trend.trend result = "increasing"%string
       <-> 101 * first <= 2000 * (last - first))
      /\ (Trend.trend result = "decreasing"%string
          <-> 2000 * (last - first) <= -101 * first))
  /\ (first = 0 ->
      (Trend.trend result = "increasing"%string <-> 0 < last)
      /\ Trend.trend result <> "decreasing"%string)
  /\ (forall short : list Z,
        (length short <= 1)%nat ->
        Trend.trend (calculateAverageTrend short) = "neutral"%string
        /\ Trend.changePercent (calculateAverageTrend short) = 0%Q).
Proof.
  cbv zeta. rewrite calculateAverageTrend_long. cbv zeta.
  cbn [Trend.average Trend.trend Trend.changePercent].
  split; [reflexivity|]. split; [apply Math_round_rounds_half_up|].
  split; [|split].
  - intros Hfirst Hsmall.
    pose proof (change_gt_5 last first Hfirst Hsmall) as Hup.
    pose proof (change_lt_minus_5 last first Hfirst Hsmall) as Hdown.
    destruct (Qgt_bool
                (calculateWeekOverWeekChange (inject_Z last) (inject_Z first)) 5)
      eqn:Eup;
      [|destruct (Qgt_bool (-5)
                   (calculateWeekOverWeekChange (inject_Z last) (inject_Z first)))
          eqn:Edown].
    + assert (101 * first <= 2000 * (last - first)) by (apply Hup; reflexivity).
      split; split; try discriminate; try tauto; lia.
    + assert (2000 * (last - first) <= -101 * first) by (apply Hdown; reflexivity).
      split; split; try discriminate; try tauto; lia.
    + split; split; try discriminate.
      * intros Hge. apply Hup in Hge. discriminate.
      * intros Hle. apply Hdown in Hle. discriminate.
  - intros ->.
    rewrite calculateWeekOverWeekChange_zero_previous by reflexivity.
    rewrite Qgt_bool_integer_0.
    destruct (Z.ltb_spec 0 last) as [Hgt|Hle].
    + split; [split; [intros _; exact Hgt|reflexivity]|discriminate].
    + split; [split; [discriminate|lia]|discriminate].
  - intros short Hshort. unfold calculateAverageTrend.
    destruct short as [|v [|w short]]; simpl in *; try lia; split; reflexivity.
Qed.

(** From 2000 to 1899 the loss is exactly 5.05%: the trend is
    ['decreasing']; from 2000 to 2101 it is ['increasing']. *)
Lemma calculateAverageTrend_thresholds_witness :
  Trend.trend (calculateAverageTrend [2000; 1899]) = "decreasing"%string
  /\ Trend.trend (calculateAverageTrend [2000; 2101]) = "increasing"%string.
Proof.
  destruct (calculateAverageTrend_thresholds 2000 [] 1899)
    as (_ & _ & Hdown & _).
  destruct (calculateAverageTrend_thresholds 2000 [] 2101)
    as (_ & _ & Hup & _).
  split.
  - apply (Hdown ltac:(lia) ltac:(reflexivity)). lia.
  - apply (Hup ltac:(lia) ltac:(reflexivity)). lia.
Defined.

(** ** weekly_analytics.js: the week-to-week series *)

Lemma weekTrendLoop_length (previous : option WeeklyPageData)
    (ahead : list WeeklyPageData) :
  length (weekTrendLoop previous ahead) = length ahead.
Proof.
  revert previous. induction ahead as [|current ahead IH]; intros previous;
    simpl; [reflexivity|]. rewrite IH. reflexivity.
Qed.

Lemma weekTrendLoop_fields (previous : option WeeklyPageData)
    (ahead : list WeeklyPageData) :
  map (fun t => (WeekTrend.period t, WeekTrend.reach t, WeekTrend.engagements t))
    (weekTrendLoop previous ahead)
  = map (fun d => (period d, reach (metrics d), engagements (metrics d))) ahead.
Proof.
  revert previous. induction ahead as [|current ahead IH]; intros previous;
    simpl; [reflexivity|]. rewrite IH. reflexivity.
Qed.

Lemma weekTrendLoop_next (previous : option WeeklyPageData)
    (ahead : list WeeklyPageData) (i : nat) (a b : WeeklyPageData) :
  ahead !! i = Some a -> ahead !! S i = Some b ->
  exists t : WeekTrend.t,
    weekTrendLoop previous ahead !! S i = Some t
    /\ WeekTrend.period t = period b
    /\ WeekTrend.reachChange t
       = calculateWeekOverWeekChange
           (inject_Z (reach (metrics b))) (inject_Z (reach (metrics a)))
    /\ WeekTrend.engagementsChange t
       = calculateWeekOverWeekChange
           (inject_Z (engagements (metrics b)))
           (inject_Z (engagements (metrics a))).
Proof.
  revert previous i.
  induction ahead as [|current ahead IH]; intros previous i Ha Hb;
    [discriminate|].
  destruct i as [|i].
  - simpl in Ha. injection Ha as ->.
    destruct ahead as [|next ahead]; [discriminate|].
    simpl in Hb. injection Hb as ->.
    eexists. split; [reflexivity|]. repeat split.
  - simpl in Ha, Hb. simpl weekTrendLoop.
    destruct (IH (Some current) i Ha Hb) as (t & Ht & Hfields).
    exists t. split; [exact Ht|exact Hfields].
Qed.

(** [calculateWeekToWeekTrend] returns one entry per record, in
    ascending order of [startDate] and with the record's period, reach
    and engagements.  The first entry has both changes 0; every later
    entry holds the week-over-week change from the record just before
    it in that order. *)
Theorem calculateWeekToWeekTrend_series (weeklyDataArray : list WeeklyPageData) :
  let sorted := sortByStartDate weeklyDataArray in
  let series := calculateWeekToWeekTrend weeklyDataArray in
  length series = length weeklyDataArray
  /\ (Permutation sorted weeklyDataArray /\ StronglySorted startsNoLater sorted)
  /\ map (fun t => (WeekTrend.period t, WeekTrend.reach t, WeekTrend.engagements t))
       series
     = map (fun d => (period d, reach (metrics d), engagements (metrics d))) sorted
  /\ (forall t : WeekTrend.t,
        series !! 0%nat = Some t ->
        WeekTrend.reachChange t = 0%Q /\ WeekTrend.engagementsChange t = 0%Q)
  /\ (forall (i : nat) (a b : WeeklyPageData),
        sorted !! i = Some a -> sorted !! S i = Some b ->
        exists t : WeekTrend.t,
          series !! S i = Some t
          /\ WeekTrend.period t = period b
          /\ WeekTrend.reachChange t
             = calculateWeekOverWeekChange
                 (inject_Z (reach (metrics b))) (inject_Z (reach (metrics a)))
          /\ WeekTrend.engagementsChange t
             = calculateWeekOverWeekChange
                 (inject_Z (engagements (metrics b)))
                 (inject_Z (engagements (metrics a)))).
Proof.
  cbv zeta.
  assert (Hunfold :
            calculateWeekToWeekTrend weeklyDataArray
            = weekTrendLoop None (sortByStartDate weeklyDataArray))
    by (destruct weeklyDataArray; reflexivity).
  rewrite Hunfold.
  split; [rewrite weekTrendLoop_length; apply sortByStartDate_length|].
  split; [split; apply sortByStartDate_spec|].
  split; [apply weekTrendLoop_fields|].
  split; [|apply weekTrendLoop_next].
  intros t Ht.
  destruct (sortByStartDate weeklyDataArray) as [|current ahead];
    [discriminate|].
  simpl in Ht. injection Ht as <-. split; reflexivity.
Qed.

(** ** weekly_analytics.js: comparing two periods *)

Lemma sum_map_app {A : Type} (f : A -> Z) (l1 l2 : list A) :
  sum (map f (l1 ++ l2)) = sum (map f l1) + sum (map f l2).
Proof. rewrite map_app. apply sum_app. Qed.






(** ** Sums, means and ranges *)

Lemma fold_add_map {A : Type} (f : A -> Z) (l : list A) (a : Z) :
  fold_left (fun sum x => sum + f x) l a = a + sum (map f l).
Proof.
  revert a. induction l as [|x l IH]; intros a; simpl.
  - unfold sum. simpl. lia.
  - rewrite IH, sum_cons. lia.
Qed.

Lemma sum_Permutation (l l' : list Z) : Permutation l l' -> sum l = sum l'.
Proof.
  induction 1 as [|x l l' _ IH|x y l|l l' l'' _ IH1 _ IH2].
  - reflexivity.
  - rewrite !sum_cons, IH. reflexivity.
  - rewrite !sum_cons. lia.
  - rewrite IH1. exact IH2.
Qed.

Lemma sum_bounds (l : list Z) (lo hi : Z) :
  Forall (fun v => lo <= v <= hi) l ->
  Z.of_nat (length l) * lo <= sum l <= Z.of_nat (length l) * hi.
Proof.
  induction 1 as [|v l Hv _ IH]; [unfold sum; simpl; lia|].
  rewrite sum_cons. simpl length. lia.
Qed.

(** The mean of integers between [lo] and [hi], rounded half-up, is
    between [lo] and [hi]. *)
Lemma rounded_mean_bounds (l : list Z) (lo hi : Z) :
  l <> [] -> Forall (fun v => lo <= v <= hi) l ->
  lo <= calculateAverageReach (Some l) <= hi.
Proof.
  intros Hne Hall. rewrite calculateAverageReach_nonempty by exact Hne.
  pose proof (sum_bounds l lo hi Hall) as Hsum.
  assert (Hlen : 0 < Z.of_nat (length l))
    by (destruct l; [congruence|simpl; lia]).
  rewrite Math_round_div by exact Hlen.
  split.
  - apply Z.div_le_lower_bound; nia.
  - apply Z.lt_succ_r, Z.div_lt_upper_bound; nia.
Qed.

Lemma Math_min_max_range (values : list Z) :
  values <> [] ->
  Forall (fun v => Math_min values <= v <= Math_max values) values.
Proof.
  intros Hne.
  destruct (Math_min_spec values Hne) as [_ Hmin].
  destruct (Math_max_spec values Hne) as [_ Hmax].
  rewrite Forall_forall in Hmin, Hmax. apply Forall_forall.
  intros v Hv. split; [apply Hmin, Hv|apply Hmax, Hv].
Qed.

(** The least and the greatest element do not depend on the order. *)
Lemma Math_min_Permutation (l l' : list Z) :
  l <> [] -> Permutation l l' -> Math_min l = Math_min l'.
Proof.
  intros Hne Hperm.
  assert (Hne' : l' <> [])
    by (intros ->; apply Permutation_nil_r in Hperm; congruence).
  destruct (Math_min_spec l Hne) as [Hin Hall].
  destruct (Math_min_spec l' Hne') as [Hin' Hall'].
  rewrite List.Forall_forall in Hall, Hall'.
  apply (Permutation_in _ Hperm) in Hin.
  apply (Permutation_in _ (Permutation_sym Hperm)) in Hin'.
  apply Hall' in Hin. apply Hall in Hin'. lia.
Qed.

Lemma Math_max_Permutation (l l' : list Z) :
  l <> [] -> Permutation l l' -> Math_max l = Math_max l'.
Proof.
  intros Hne Hperm.
  assert (Hne' : l' <> [])
    by (intros ->; apply Permutation_nil_r in Hperm; congruence).
  destruct (Math_max_spec l Hne) as [Hin Hall].
  destruct (Math_max_spec l' Hne') as [Hin' Hall'].
  rewrite List.Forall_forall in Hall, Hall'.
  apply (Permutation_in _ Hperm) in Hin.
  apply (Permutation_in _ (Permutation_sym Hperm)) in Hin'.
  apply Hall' in Hin. apply Hall in Hin'. lia.
Qed.

Lemma calculateAverageReach_Permutation (l l' : list Z) :
  Permutation l l' ->
  calculateAverageReach (Some l) = calculateAverageReach (Some l').
Proof.
  intros Hperm. unfold calculateAverageReach.
  rewrite (Permutation_length Hperm), (sum_Permutation _ _ Hperm). reflexivity.
Qed.

(** ** reach_calculator.js: range and average *)

(** [findReachRange] on a non-empty array returns its least and its
    greatest value, and the average of [calculateAverageReach] lies
    between them. *)
Theorem findReachRange_bounds_average (reachValues : list Z) :
  reachValues <> [] ->
  let range := findReachRange reachValues in
  In (ReachRange.min range) reachValues
  /\ In (ReachRange.max range) reachValues
  /\ Forall (fun v => ReachRange.min range <= v <= ReachRange.max range)
       reachValues
  /\ ReachRange.min range
     <= calculateAverageReach (Some reachValues)
     <= ReachRange.max range.
Proof.
  intros Hne. cbv zeta.
  assert (Hrange :
            findReachRange reachValues
            = {| ReachRange.min := Math_min reachValues;
                 ReachRange.max := Math_max reachValues |})
    by (destruct reachValues; [congruence|reflexivity]).
  rewrite Hrange. cbn [ReachRange.min ReachRange.max].
  split; [apply Math_min_spec, Hne|].
  split; [apply Math_max_spec, Hne|].
  split; [apply Math_min_max_range, Hne|].
  apply rounded_mean_bounds; [exact Hne|apply Math_min_max_range, Hne].
Qed.

(** Reach 100000 and 120000: range 100000 to 120000 around the average
    110000. *)
Lemma findReachRange_bounds_average_witness :
  findReachRange [100000; 120000]
  = {| ReachRange.min := 100000; ReachRange.max := 120000 |}
  /\ 100000 <= calculateAverageReach (Some [100000; 120000]) <= 120000.
Proof.
  split; [reflexivity|].
  apply (findReachRange_bounds_average [100000; 120000]). discriminate.
Defined.

(** ** reach_calculator.js: comparing two weeks *)

Lemma compareReachBetweenWeeks_positive (week1Reach week2Reach : Z) :
  0 < week1Reach ->
  compareReachBetweenWeeks week1Reach week2Reach
  = let percentChange :=
      js_div (inject_Z (shareTenths week1Reach (week2Reach - week1Reach))) 10 in
    {| ReachComparison.difference := week2Reach - week1Reach;
       ReachComparison.percentChange := percentChange;
       ReachComparison.interpretation :=
         if Qgt_bool percentChange 5 then "increase"%string
         else if Qgt_bool (-5) percentChange then "decrease"%string
         else "neutral"%string |}.
Proof.
  intros Hpos. unfold compareReachBetweenWeeks.
  replace (0 <? week1Reach) with true by (symmetry; apply Z.ltb_lt, Hpos).
  reflexivity.
Qed.

(** [compareReachBetweenWeeks] reports the difference of the two
    values.  From a positive first value, and for a difference below
    [2 ^ 50 / 2000], its percent change is the one
    [calculateWeekOverWeekChange] computes, and the interpretation is
    ['increase'] exactly from a growth of 5.05% and ['decrease'] exactly
    from a loss of 5.05%.  From a first value that is not positive it
    reports 0 and ['neutral'] whatever the second value is, where
    [calculateWeekOverWeekChange] reports 100 for a growth from 0. *)
Theorem compareReachBetweenWeeks_interpretation (week1Reach week2Reach : Z) :
  let result := compareReachBetweenWeeks week1Reach week2Reach in
  ReachComparison.difference result = week2Reach - week1Reach
  /\ (0 < week1Reach -> 2000 * Z.abs (week2Reach - week1Reach) < 2 ^ 50 ->
      ReachComparison.percentChange result
      = calculateWeekOverWeekChange (inject_Z week2Reach) (inject_Z week1Reach)
      /\ (ReachComparison.interpretation result = "increase"%string
          <-> 101 * week1Reach <= 2000 * (week2Reach - week1Reach))
      /\ (ReachComparison.interpretation result = "decrease"%string
          <-> 2000 * (week2Reach - week1Reach) <= -101 * week1Reach))
  /\ (week1Reach <= 0 ->
      ReachComparison.percentChange result = 0%Q
      /\ ReachComparison.interpretation result = "neutral"%string)
  /\ (week1Reach = 0 -> 0 < week2Reach ->
      calculateWeekOverWeekChange (inject_Z week2Reach) (inject_Z week1Reach)
      = 100%Q).
Proof.
  cbv zeta. split; [reflexivity|]. split; [|split].
  - intros Hpos Hsmall.
    rewrite compareReachBetweenWeeks_positive by exact Hpos. cbv zeta.
    cbn [ReachComparison.percentChange ReachComparison.interpretation].
    split.
    { symmetry. apply calculateWeekOverWeekChange_integers;
        [lia|apply small_difference, Hsmall]. }
    pose proof (share_gt_5 week1Reach (week2Reach - week1Reach) Hpos Hsmall)
      as Hup.
    pose proof (share_lt_minus_5 week1Reach (week2Reach - week1Reach) Hpos Hsmall)
      as Hdown.
    destruct (Qgt_bool
                (js_div
                   (inject_Z (shareTenths week1Reach (week2Reach - week1Reach)))
                   10) 5) eqn:Eup;
      [|destruct (Qgt_bool (-5)
                   (js_div
                      (inject_Z (shareTenths week1Reach (week2Reach - week1Reach)))
                      10)) eqn:Edown].
    + assert (101 * week1Reach <= 2000 * (week2Reach - week1Reach))
        by (apply Hup; reflexivity).
      split; split; try discriminate; try tauto; lia.
    + assert (2000 * (week2Reach - week1Reach) <= -101 * week1Reach)
        by (apply Hdown; reflexivity).
      split; split; try discriminate; try tauto; lia.
    + split; split; try discriminate.
      * intros Hge. apply Hup in Hge. discriminate.
      * intros Hle. apply Hdown in Hle. discriminate.
  - intros Hle. unfold compareReachBetweenWeeks.
    replace (0 <? week1Reach) with false by (symmetry; apply Z.ltb_ge, Hle).
    split; reflexivity.
  - intros -> Hpos.
    rewrite calculateWeekOverWeekChange_zero_previous by reflexivity.
    rewrite Qgt_bool_integer_0.
    replace (0 <? week2Reach) with true by (symmetry; apply Z.ltb_lt, Hpos).
    reflexivity.
Qed.

(** From 2000 to 1899 the loss is exactly 5.05%: a ['decrease'] of
    5.1%. *)
Lemma compareReachBetweenWeeks_interpretation_witness :
  ReachComparison.interpretation (compareReachBetweenWeeks 2000 1899)
  = "decrease"%string
  /\ ReachComparison.percentChange (compareReachBetweenWeeks 2000 1899)
     = calculateWeekOverWeekChange 1899 2000.
Proof.
  destruct (compareReachBetweenWeeks_interpretation 2000 1899)
    as (_ & Hpos & _).
  destruct (Hpos ltac:(lia) ltac:(reflexivity)) as (Hpercent & _ & Hdown).
  split; [apply Hdown; lia|exact Hpercent].
Defined.

(** ** Entry points for the average reach and the engagement total *)

Lemma sumEngagements_sum (l : list WeeklyPageData) :
  sumEngagements l = sum (map (fun data => engagements (metrics data)) l).
Proof.
  unfold sumEngagements. destruct l as [|d l]; [reflexivity|].
  cbn [length Nat.eqb]. rewrite fold_add_map. lia.
Qed.

Lemma calculateTotalReach_average (l : list WeeklyPageData) :
  calculateTotalReach l
  = calculateAverageReach (Some (map (fun data => reach (metrics data)) l)).
Proof. destruct l; reflexivity. Qed.

(** The functions that average reach agree, and so do the functions that
    total engagements: [calculateAverageReach] of weekly_models.js,
    [calculateAverageReachFromData] and [calculateTotalReach] return the
    same number on every array, and [calculateTotalEngagements] returns
    what [sumEngagements] returns.  Both results are independent of the
    order of the records; the total of two arrays joined is the sum of
    their totals, and the "total reach" of an array joined with itself
    is that of the array. *)
Theorem reach_and_engagement_entry_points_agree
    (weeklyDataArray : list WeeklyPageData) :
  WeeklyModels.calculateAverageReach weeklyDataArray
  = calculateTotalReach weeklyDataArray
  /\ calculateAverageReachFromData weeklyDataArray
     = calculateTotalReach weeklyDataArray
  /\ WeeklyModels.calculateTotalEngagements weeklyDataArray
     = sumEngagements weeklyDataArray
  /\ (forall reordered : list WeeklyPageData,
        Permutation weeklyDataArray reordered ->
        sumEngagements reordered = sumEngagements weeklyDataArray
        /\ calculateTotalReach reordered = calculateTotalReach weeklyDataArray)
  /\ (forall more : list WeeklyPageData,
        sumEngagements (weeklyDataArray ++ more)
        = sumEngagements weeklyDataArray + sumEngagements more)
  /\ calculateTotalReach (weeklyDataArray ++ weeklyDataArray)
     = calculateTotalReach weeklyDataArray.
Proof.
  split.
  { unfold WeeklyModels.calculateAverageReach, calculateTotalReach.
    destruct weeklyDataArray as [|d l]; [reflexivity|].
    cbn [length Nat.eqb]. rewrite fold_add_map.
    unfold calculateAverageReach. rewrite length_map.
    cbn [length Nat.eqb]. rewrite Z.add_0_l. reflexivity. }
  split; [reflexivity|].
  split.
  { unfold WeeklyModels.calculateTotalEngagements.
    rewrite sumEngagements_sum, fold_add_map. lia. }
  split.
  { intros reordered Hperm. rewrite !sumEngagements_sum, !calculateTotalReach_average.
    split.
    - apply sum_Permutation, Permutation_map, Permutation_sym, Hperm.
    - apply calculateAverageReach_Permutation, Permutation_map,
        Permutation_sym, Hperm. }
  split.
  { intros more. rewrite !sumEngagements_sum. apply sum_map_app. }
  rewrite !calculateTotalReach_average.
  destruct (decide (weeklyDataArray = [])) as [->|Hne]; [reflexivity|].
  rewrite !calculateAverageReach_nonempty;
    [|destruct weeklyDataArray; [congruence|discriminate]
     |destruct weeklyDataArray; [congruence|discriminate]].
  apply Math_round_comp.
  rewrite sum_map_app, !length_map, length_app, Nat2Z.inj_add, !inject_Z_plus.
  assert (Hlen : 0 < Z.of_nat (length weeklyDataArray))
    by (destruct weeklyDataArray; [congruence|simpl; lia]).
  field. split; intros H0.
  - apply (inject_Z_injective (Z.of_nat (length weeklyDataArray)) 0) in H0. lia.
  - rewrite <- inject_Z_plus in H0.
    apply (inject_Z_injective
             (Z.of_nat (length weeklyDataArray) + Z.of_nat (length weeklyDataArray))
             0) in H0.
    lia.
Qed.

(** ** reach_calculator.js: the reach trend *)

Lemma StronglySorted_lookup_le (l : list Z) (i j : nat) (x y : Z) :
  StronglySorted Z.le l -> l !! i = Some x -> l !! j = Some y ->
  (i <= j)%nat -> x <= y.
Proof.
  intros Hs. revert i j.
  induction Hs as [|a l Hs IH Hall]; intros i j Hi Hj Hij; [discriminate|].
  destruct i as [|i], j as [|j]; simpl in Hi, Hj.
  - assert (x = y) by congruence. lia.
  - injection Hi as <-. rewrite List.Forall_forall in Hall.
    apply Hall. apply list_elem_of_In, list_elem_of_lookup. eauto.
  - lia.
  - apply (IH i j); [assumption|assumption|lia].
Qed.

Lemma at_index_lookup (l : list Z) (i : nat) :
  (i < length l)%nat -> l !! i = Some (at_index l i).
Proof.
  revert i. induction l as [|a l IH]; intros i Hi; simpl in Hi; [lia|].
  destruct i as [|i]; [reflexivity|]. simpl. apply IH. lia.
Qed.

(** [analyzeReachTrend] on a non-empty array counts its elements and
    reports the average, least and greatest reach of the array whatever
    its order, with the average between the two; the trend and the
    overall change compare the reach of an element of the earliest week
    with the reach of an element of the latest week. *)
Theorem analyzeReachTrend_summary (weeklyData : list ReachTrend.point) :
  weeklyData <> [] ->
  exists result : ReachTrend.t,
    analyzeReachTrend weeklyData = Some result
    /\ ReachTrend.weekCount result = length weeklyData
    /\ ReachTrend.average result
       = calculateAverageReach (Some (map ReachTrend.reach weeklyData))
    /\ ReachTrend.min result
       = ReachRange.min (findReachRange (map ReachTrend.reach weeklyData))
    /\ ReachTrend.max result
       = ReachRange.max (findReachRange (map ReachTrend.reach weeklyData))
    /\ ReachTrend.min result <= ReachTrend.average result <= ReachTrend.max result
    /\ exists earliest latest : ReachTrend.point,
         In earliest weeklyData /\ In latest weeklyData
         /\ Forall
              (fun p =>
                 ReachTrend.week earliest <= ReachTrend.week p
                 <= ReachTrend.week latest)
              weeklyData
         /\ ReachTrend.trend result
            = ReachComparison.interpretation
                (compareReachBetweenWeeks
                   (ReachTrend.reach earliest) (ReachTrend.reach latest))
         /\ ReachTrend.overallChange result
            = ReachComparison.percentChange
                (compareReachBetweenWeeks
                   (ReachTrend.reach earliest) (ReachTrend.reach latest)).
Proof.
  intros Hne. unfold analyzeReachTrend.
  replace ((length weeklyData =? 0)%nat) with false
    by (destruct weeklyData; [congruence|reflexivity]).
  set (compareFn := fun a b : ReachTrend.point =>
                      ReachTrend.week a - ReachTrend.week b).
  set (sorted := Array_sort compareFn weeklyData).
  assert (Hperm : Permutation sorted weeklyData)
    by apply Array_sort_Permutation.
  assert (Hlen : length sorted = length weeklyData)
    by apply Array_sort_length.
  assert (Hsorted : StronglySorted Z.le (map ReachTrend.week sorted)).
  { apply StronglySorted_fmap with (R1 := before compareFn).
    - unfold before, compareFn. intros a b Hab. lia.
    - apply Array_sort_StronglySorted; unfold before, compareFn; intros; lia. }
  assert (Hreach : Permutation (map ReachTrend.reach sorted)
                     (map ReachTrend.reach weeklyData))
    by (apply Permutation_map, Hperm).
  assert (Hvalues : map ReachTrend.reach sorted <> [])
    by (destruct sorted; [destruct weeklyData; [congruence|discriminate]
                         |discriminate]).
  assert (Hvalues' : map ReachTrend.reach weeklyData <> [])
    by (destruct weeklyData; [congruence|discriminate]).
  assert (Hrange : forall l, l <> [] ->
                     findReachRange l
                     = {| ReachRange.min := Math_min l; ReachRange.max := Math_max l |})
    by (intros l Hl; destruct l; [congruence|reflexivity]).
  eexists. split; [reflexivity|].
  cbn [ReachTrend.weekCount ReachTrend.average ReachTrend.min ReachTrend.max
       ReachTrend.trend ReachTrend.overallChange].
  rewrite !Hrange by assumption. cbn [ReachRange.min ReachRange.max].
  split; [exact Hlen|].
  split; [apply calculateAverageReach_Permutation, Hreach|].
  split; [apply Math_min_Permutation; assumption|].
  split; [apply Math_max_Permutation; assumption|].
  split; [apply rounded_mean_bounds;
            [exact Hvalues|apply Math_min_max_range, Hvalues]|].
  assert (Hpos : (0 < length sorted)%nat)
    by (rewrite Hlen; destruct weeklyData; [congruence|simpl; lia]).
  destruct (lookup_lt_is_Some_2 sorted 0%nat Hpos) as [earliest He].
  destruct (lookup_lt_is_Some_2 sorted (length sorted - 1)%nat ltac:(lia))
    as [latest Hl].
  exists earliest, latest.
  assert (Hat : forall i p, sorted !! i = Some p ->
                  at_index (map ReachTrend.reach sorted) i = ReachTrend.reach p).
  { intros i p Hp.
    assert (Hi : (i < length (map ReachTrend.reach sorted))%nat)
      by (rewrite length_map; apply lookup_lt_Some in Hp; exact Hp).
    pose proof (at_index_lookup _ _ Hi) as Hlk.
    change (map ReachTrend.reach sorted) with (ReachTrend.reach <$> sorted) in Hlk at 1.
    rewrite list_lookup_fmap, Hp in Hlk. simpl in Hlk. congruence. }
  rewrite (Hat _ _ He), (Hat _ _ Hl).
  split; [apply (Permutation_in _ Hperm), list_elem_of_In,
            list_elem_of_lookup; eauto|].
  split; [apply (Permutation_in _ Hperm), list_elem_of_In,
            list_elem_of_lookup; eauto|].
  split; [|split; reflexivity].
  apply List.Forall_forall. intros p Hp.
  apply (Permutation_in _ (Permutation_sym Hperm)) in Hp.
  apply list_elem_of_In, list_elem_of_lookup in Hp as [i Hi].
  assert (Hweek : forall j q, sorted !! j = Some q ->
                    map ReachTrend.week sorted !! j = Some (ReachTrend.week q)).
  { intros j q Hq.
    change (map ReachTrend.week sorted) with (ReachTrend.week <$> sorted).
    rewrite list_lookup_fmap, Hq. reflexivity. }
  pose proof (lookup_lt_Some _ _ _ Hi) as Hbound.
  split.
  - apply (StronglySorted_lookup_le _ 0%nat i _ _ Hsorted);
      [apply Hweek, He|apply Hweek, Hi|lia].
  - apply (StronglySorted_lookup_le _ i (length sorted - 1)%nat _ _ Hsorted);
      [apply Hweek, Hi|apply Hweek, Hl|lia].
Qed.

(** Weeks 43, 41, 42 with reach 120, 100, 90: the trend goes from week
    41 to week 43, an increase of 20%. *)
Lemma analyzeReachTrend_summary_witness :
  exists result : ReachTrend.t,
    analyzeReachTrend
      [ {| ReachTrend.week := 43; ReachTrend.reach := 120 |};
        {| ReachTrend.week := 41; ReachTrend.reach := 100 |};
        {| ReachTrend.week := 42; ReachTrend.reach := 90 |} ]
    = Some result
    /\ ReachTrend.weekCount result = 3%nat
    /\ ReachTrend.trend result = "increase"%string.
Proof.
  destruct (analyzeReachTrend_summary
              [ {| ReachTrend.week := 43; ReachTrend.reach := 120 |};
                {| ReachTrend.week := 41; ReachTrend.reach := 100 |};
                {| ReachTrend.week := 42; ReachTrend.reach := 90 |} ])
    as (result & Heq & Hcount & _); [discriminate|].
  exists result. split; [exact Heq|]. split; [exact Hcount|].
  assert (Htrend :
            option_map ReachTrend.trend
              (analyzeReachTrend
                 [ {| ReachTrend.week := 43; ReachTrend.reach := 120 |};
                   {| ReachTrend.week := 41; ReachTrend.reach := 100 |};
                   {| ReachTrend.week := 42; ReachTrend.reach := 90 |} ])
            = Some "increase"%string)
    by (vm_compute; reflexivity).
  rewrite Heq in Htrend. injection Htrend as Htrend. exact Htrend.
Defined.

(** ** The three groupings by month *)

(** A [forEach] callback that pushes [f data] onto the array under the
    key of [data], creating the array when the key reads as falsy. *)
Section PushLoop.
Context {V : Type}.
Variable keyOf : WeeklyPageData -> string.
Variable f : WeeklyPageData -> V.
Variable step : completion (gmap string (list V)) -> WeeklyPageData
                -> completion (gmap string (list V)).
Hypothesis step_unfold :
  forall acc data,
    step acc data
    = match acc with
      | TypeError => TypeError
      | Normal groups =>
          let k := keyOf data in
          let groups' :=
            if negb (truthy (js_get groups k)) then <[k := []]> groups
            else groups in
          match js_get groups' k with
          | Own values => Normal (<[k := values ++ [f data]]> groups')
          | Inherited | Undefined => TypeError
          end
      end.
Hypothesis keyOf_fine : forall data, keyOf data ∉ Object_prototype_keys.

Lemma pushStep_members (groups : gmap string (list V))
    (visited : list WeeklyPageData) (data : WeeklyPageData) :
  (forall k, groups !! k
             = match membersOf keyOf k visited with
               | [] => None
               | (_ :: _) as members => Some (map f members)
               end) ->
  exists groups' : gmap string (list V),
    step (Normal groups) data = Normal groups'
    /\ forall k, groups' !! k
                 = match membersOf keyOf k (visited ++ [data]) with
                   | [] => None
                   | (_ :: _) as members => Some (map f members)
                   end.
Proof.
  intros Hinv. rewrite step_unfold. cbv zeta.
  pose proof (Hinv (keyOf data)) as Hkey.
  destruct (membersOf keyOf (keyOf data) visited) as [|first rest] eqn:Hmembers.
  - rewrite (js_get_undefined _ _ Hkey (keyOf_fine data)). simpl negb. cbv iota.
    rewrite (js_get_own _ _ _ (lookup_insert_eq _ _ _)).
    eexists. split; [reflexivity|].
    intros k. rewrite insert_insert_eq, membersOf_snoc.
    destruct (String.eqb_spec (keyOf data) k) as [<-|Hne].
    + rewrite lookup_insert_eq, Hmembers. reflexivity.
    + rewrite lookup_insert_ne by exact Hne. rewrite app_nil_r. apply Hinv.
  - rewrite (js_get_own _ _ _ Hkey). simpl negb. cbv iota.
    rewrite (js_get_own _ _ _ Hkey).
    eexists. split; [reflexivity|].
    intros k. rewrite membersOf_snoc.
    destruct (String.eqb_spec (keyOf data) k) as [<-|Hne].
    + rewrite lookup_insert_eq, Hmembers. cbn [app map].
      rewrite map_app. reflexivity.
    + rewrite lookup_insert_ne by exact Hne. rewrite app_nil_r. apply Hinv.
Qed.

Lemma fold_pushStep_members (weeklyDataArray visited : list WeeklyPageData)
    (groups : gmap string (list V)) :
  (forall k, groups !! k
             = match membersOf keyOf k visited with
               | [] => None
               | (_ :: _) as members => Some (map f members)
               end) ->
  exists groups' : gmap string (list V),
    fold_left step weeklyDataArray (Normal groups) = Normal groups'
    /\ forall k, groups' !! k
                 = match membersOf keyOf k (visited ++ weeklyDataArray) with
                   | [] => None
                   | (_ :: _) as members => Some (map f members)
                   end.
Proof.
  revert visited groups.
  induction weeklyDataArray as [|data rest IH]; intros visited groups Hinv.
  - exists groups. rewrite app_nil_r. split; [reflexivity|exact Hinv].
  - destruct (pushStep_members groups visited data Hinv)
      as (groups1 & Hstep & Hinv1).
    destruct (IH (visited ++ [data]) groups1 Hinv1) as (groups2 & Hfold & Hinv2).
    exists groups2. cbn [fold_left]. rewrite Hstep.
    split; [exact Hfold|].
    intros k. rewrite Hinv2, <- app_assoc. reflexivity.
Qed.

End PushLoop.

(** The three groupings by month never throw and agree: under every
    key, [groupReachByMonth] holds the [averageReach] of the group that
    [aggregateByMonth] holds there, and [groupByMonth] of
    weekly_models.js holds its [weeks]; a key absent from one is absent
    from all three. *)
Theorem month_groupings_agree
    (getMonthNumber : WeekPeriod -> Z) (getMonthName : WeekPeriod -> string)
    (weeklyDataArray : list WeeklyPageData) :
  exists (groups : gmap string (Group MonthHeader))
         (averages : gmap string Z)
         (grouped : gmap string (list WeeklyPageData)),
    aggregateByMonth getMonthNumber getMonthName weeklyDataArray = Normal groups
    /\ groupReachByMonth getMonthNumber weeklyDataArray = Normal averages
    /\ WeeklyModels.groupByMonth getMonthNumber weeklyDataArray = Normal grouped
    /\ forall k : string,
         averages !! k = (fun g => averageReach (groupMetrics g)) <$> groups !! k
         /\ grouped !! k = weeks <$> groups !! k.
Proof.
  assert (Hfine : forall data,
            monthKey getMonthNumber data ∉ Object_prototype_keys)
    by (intros data; apply startsWithNumber_not_inherited,
          monthKey_startsWithNumber).
  destruct (decide (weeklyDataArray = [])) as [->|Hne].
  { exists ∅, ∅, ∅. repeat split; rewrite !lookup_empty; reflexivity. }
  unfold aggregateByMonth, aggregateBy, groupReachByMonth,
    WeeklyModels.groupByMonth.
  replace ((length weeklyDataArray =? 0)%nat) with false
    by (destruct weeklyDataArray; [congruence|reflexivity]).
  destruct (fold_groupStep_groupOf (monthKey getMonthNumber)
              (fun data =>
                 {| monthYear := year (period data);
                    month := getMonthNumber (period data);
                    monthName := getMonthName (period data) |})
              weeklyDataArray [] ∅)
    as (groups & -> & Hgroups);
    [intros k; rewrite lookup_empty; reflexivity
    |apply Forall_forall; intros data _; apply Hfine|].
  destruct (fold_pushStep_members (monthKey getMonthNumber)
              (fun data => reach (metrics data))
              (reachByMonthStep getMonthNumber)
              ltac:(intros [?|] ?; reflexivity) Hfine
              weeklyDataArray [] ∅)
    as (monthlyGroups & -> & Hreach);
    [intros k; rewrite lookup_empty; reflexivity|].
  destruct (fold_pushStep_members (monthKey getMonthNumber)
              (fun data => data)
              (WeeklyModels.groupByMonthStep getMonthNumber)
              ltac:(intros [?|] ?; reflexivity) Hfine
              weeklyDataArray [] ∅)
    as (grouped & -> & Hgrouped);
    [intros k; rewrite lookup_empty; reflexivity|].
  simpl app in Hgroups, Hreach, Hgrouped.
  eexists _, _, grouped. split; [reflexivity|]. split; [reflexivity|].
  split; [reflexivity|].
  intros k. rewrite !lookup_fmap, Hgroups, Hreach, Hgrouped. unfold groupOf.
  destruct (membersOf (monthKey getMonthNumber) k weeklyDataArray)
    as [|first rest]; [split; reflexivity|].
  cbn [fmap option_fmap option_map setAverageReach groupMetrics averageReach weeks].
  rewrite map_id. split; reflexivity.
Qed.

(** ** Grouping conserves the totals *)

Section GroupTotals.
Context {H : Type}.
Variable keyOf : WeeklyPageData -> string.
Variable headerOf : WeeklyPageData -> H.
Variable field : GroupMetrics -> Z.

Lemma overGroups_insert_fresh (groups : gmap string (Group H)) (k : string)
    (g : Group H) :
  groups !! k = None ->
  overGroups field (<[k := g]> groups)
  = overGroups field groups + field (groupMetrics g).
Proof.
  intros Hk. unfold overGroups.
  rewrite map_fold_insert_L; [reflexivity| |exact Hk].
  intros. lia.
Qed.

Lemma overGroups_insert_update (groups : gmap string (Group H)) (k : string)
    (g g' : Group H) :
  groups !! k = Some g ->
  overGroups field (<[k := g']> groups)
  = overGroups field groups - field (groupMetrics g) + field (groupMetrics g').
Proof.
  intros Hk. rewrite <- insert_delete_eq.
  rewrite overGroups_insert_fresh by apply lookup_delete_eq.
  unfold overGroups at 2.
  rewrite (map_fold_delete_L _ _ k g groups); [|intros; lia|exact Hk].
  fold (overGroups field (delete k groups)). lia.
Qed.

Lemma overGroups_setAverageReach (groups : gmap string (Group H)) :
  (forall g : Group H,
     field (groupMetrics (setAverageReach g)) = field (groupMetrics g)) ->
  overGroups field (setAverageReach <$> groups) = overGroups field groups.
Proof.
  intros Hfield. unfold overGroups. rewrite map_fold_fmap.
  induction groups as [|k g groups Hk IH] using map_ind.
  - rewrite !map_fold_empty. reflexivity.
  - rewrite (map_fold_insert_L _ _ k g groups);
      [|intros; unfold compose; lia|exact Hk].
    rewrite (map_fold_insert_L _ _ k g groups); [|intros; lia|exact Hk].
    unfold compose at 1. rewrite Hfield, IH. reflexivity.
Qed.

Variable delta : WeeklyPageData -> Z.
Hypothesis field_fresh :
  forall data, field (groupMetrics (freshGroup headerOf data)) = 0.
Hypothesis field_addMember :
  forall (g : Group H) data,
    field (groupMetrics (addMember g data)) = field (groupMetrics g) + delta data.

Lemma groupStep_totals (groups groups' : gmap string (Group H))
    (data : WeeklyPageData) :
  groupStep keyOf headerOf (Normal groups) data = Normal groups' ->
  overGroups field groups' = overGroups field groups + delta data.
Proof.
  unfold groupStep. cbv zeta.
  destruct (groups !! keyOf data) as [g|] eqn:Hk.
  - rewrite (js_get_own _ _ _ Hk). simpl negb. cbv iota.
    rewrite (js_get_own _ _ _ Hk). intros [= <-].
    rewrite (overGroups_insert_update _ _ g) by exact Hk.
    rewrite field_addMember. lia.
  - destruct (decide (keyOf data ∈ Object_prototype_keys)) as [Hproto|Hfine].
    + rewrite (js_get_inherited _ _ Hk Hproto). simpl negb. cbv iota.
      rewrite (js_get_inherited _ _ Hk Hproto). discriminate.
    + rewrite (js_get_undefined _ _ Hk Hfine). simpl negb. cbv iota.
      rewrite (js_get_own _ _ _ (lookup_insert_eq _ _ _)). intros [= <-].
      rewrite insert_insert_eq, overGroups_insert_fresh by exact Hk.
      rewrite field_addMember, field_fresh. lia.
Qed.

Lemma fold_groupStep_totals (weeklyDataArray : list WeeklyPageData)
    (groups groups' : gmap string (Group H)) :
  fold_left (groupStep keyOf headerOf) weeklyDataArray (Normal groups)
  = Normal groups' ->
  overGroups field groups'
  = overGroups field groups + sum (map delta weeklyDataArray).
Proof.
  revert groups.
  induction weeklyDataArray as [|data rest IH]; intros groups.
  - intros [= <-]. unfold sum. simpl. lia.
  - cbn [fold_left map]. rewrite sum_cons.
    destruct (groupStep keyOf headerOf (Normal groups) data) as [groups1|] eqn:Hstep.
    + intros Hfold. rewrite (IH _ Hfold), (groupStep_totals _ _ _ Hstep). lia.
    + rewrite fold_groupStep_TypeError. discriminate.
Qed.

Lemma aggregateBy_totals (weeklyDataArray : list WeeklyPageData)
    (groups : gmap string (Group H)) :
  (forall g : Group H,
     field (groupMetrics (setAverageReach g)) = field (groupMetrics g)) ->
  aggregateBy keyOf headerOf weeklyDataArray = Normal groups ->
  overGroups field groups = sum (map delta weeklyDataArray).
Proof.
  intros Hfield. unfold aggregateBy.
  destruct weeklyDataArray as [|data rest] eqn:Hl; [intros [= <-]; reflexivity|].
  rewrite <- Hl. replace ((length weeklyDataArray =? 0)%nat) with false
    by (subst; reflexivity).
  destruct (fold_left (groupStep keyOf headerOf) weeklyDataArray (Normal ∅))
    as [groups0|] eqn:Hfold; [|discriminate].
  intros [= <-]. rewrite (overGroups_setAverageReach _ Hfield).
  rewrite (fold_groupStep_totals _ _ _ Hfold).
  unfold overGroups at 1. rewrite map_fold_empty. lia.
Qed.

End GroupTotals.

Lemma aggregateBy_conserves {H : Type} (keyOf : WeeklyPageData -> string)
    (headerOf : WeeklyPageData -> H) (weeklyDataArray : list WeeklyPageData)
    (groups : gmap string (Group H)) :
  aggregateBy keyOf headerOf weeklyDataArray = Normal groups ->
  overGroups totalEngagements groups = sumEngagements weeklyDataArray
  /\ overGroups weekCount groups = Z.of_nat (length weeklyDataArray).
Proof.
  intros Hresult. split.
  - rewrite sumEngagements_sum.
    apply (aggregateBy_totals keyOf headerOf totalEngagements
             (fun data => engagements (metrics data)));
      [reflexivity|reflexivity|reflexivity|exact Hresult].
  - rewrite (aggregateBy_totals keyOf headerOf weekCount (fun _ => 1)
               ltac:(reflexivity) ltac:(reflexivity) weeklyDataArray groups
               ltac:(reflexivity) Hresult).
    clear Hresult. induction weeklyDataArray as [|d l IH]; [reflexivity|].
    cbn [map length]. rewrite sum_cons, IH. lia.
Qed.

Lemma aggregateBy_returns {H : Type} (keyOf : WeeklyPageData -> string)
    (headerOf : WeeklyPageData -> H) (weeklyDataArray : list WeeklyPageData) :
  (forall data, startsWithNumber (keyOf data) = true) ->
  exists groups, aggregateBy keyOf headerOf weeklyDataArray = Normal groups.
Proof.
  intros Hkeys.
  destruct (aggregateBy keyOf headerOf weeklyDataArray) as [groups|] eqn:Hresult;
    [exists groups; reflexivity|].
  apply aggregateBy_TypeError_iff, Exists_exists in Hresult
    as (data & _ & Hproto).
  destruct (startsWithNumber_not_inherited _ (Hkeys data) Hproto).
Qed.

(** Grouping neither loses nor duplicates a record: over the groups of
    each result, the [totalEngagements] add up to [sumEngagements] of
    the whole input and the [weekCount] ([pageCount]) to its length.
    [aggregateByWeek], [aggregateByMonth] and [aggregateByQuarter] always
    return such a result, [aggregateByPage] whenever it returns at all. *)
Theorem grouping_conserves_totals
    (getMonthNumber : WeekPeriod -> Z) (getMonthName : WeekPeriod -> string)
    (weeklyDataArray : list WeeklyPageData) :
  (forall groups,
     aggregateByPage weeklyDataArray = Normal groups ->
     overGroups totalEngagements groups = sumEngagements weeklyDataArray
     /\ overGroups weekCount groups = Z.of_nat (length weeklyDataArray))
  /\ (exists groups,
        aggregateByWeek weeklyDataArray = Normal groups
        /\ overGroups totalEngagements groups = sumEngagements weeklyDataArray
        /\ overGroups weekCount groups = Z.of_nat (length weeklyDataArray))
  /\ (exists groups,
        aggregateByMonth getMonthNumber getMonthName weeklyDataArray
        = Normal groups
        /\ overGroups totalEngagements groups = sumEngagements weeklyDataArray
        /\ overGroups weekCount groups = Z.of_nat (length weeklyDataArray))
  /\ (exists groups,
        aggregateByQuarter getMonthNumber weeklyDataArray = Normal groups
        /\ overGroups totalEngagements groups = sumEngagements weeklyDataArray
        /\ overGroups weekCount groups = Z.of_nat (length weeklyDataArray)).
Proof.
  split; [intros groups; apply aggregateBy_conserves|].
  split.
  { destruct (aggregateBy_returns (fun data => getPeriodKey (period data)) period
                weeklyDataArray) as [groups Hresult];
      [intros data; apply getPeriodKey_startsWithNumber|].
    exists groups. split; [exact Hresult|].
    apply (aggregateBy_conserves _ _ _ _ Hresult). }
  split.
  { destruct (aggregateBy_returns (monthKey getMonthNumber)
                (fun data =>
                   {| monthYear := year (period data);
                      month := getMonthNumber (period data);
                      monthName := getMonthName (period data) |})
                weeklyDataArray) as [groups Hresult];
      [intros data; apply monthKey_startsWithNumber|].
    exists groups. split; [exact Hresult|].
    apply (aggregateBy_conserves _ _ _ _ Hresult). }
  destruct (aggregateBy_returns (quarterKey getMonthNumber)
              (fun data =>
                 {| quarterYear := year (period data);
                    quarter := quarterOf (getMonthNumber (period data)) |})
              weeklyDataArray) as [groups Hresult];
    [intros data; apply quarterKey_startsWithNumber|].
  exists groups. split; [exact Hresult|].
  apply (aggregateBy_conserves _ _ _ _ Hresult).
Qed.

(** ** Keys identify what they are built from *)

Lemma Number_toString_inj (m n : Z) :
  Number_toString m = Number_toString n -> m = n.
Proof.
  unfold Number_toString. intros Heq.
  assert (Hisi : forall z : Z,
            NilZero.int_of_string (NilZero.string_of_int (Z.to_int z))
            = Some (Z.to_int z)).
  { intros z. apply NilZero.isi; destruct z as [|p|p]; simpl;
      try discriminate; intros [= Hp];
      exact (DecimalPos.Unsigned.to_uint_nonnil p Hp). }
  pose proof (Hisi m) as Hm. rewrite Heq, Hisi in Hm.
  injection Hm as Hm.
  rewrite <- (DecimalZ.of_to m), <- (DecimalZ.of_to n), Hm. reflexivity.
Qed.

Lemma string_of_uint_no_underscore (d : Decimal.uint) :
  Forall (fun c => c <> "_"%char)
    (list_ascii_of_string (NilEmpty.string_of_uint d)).
Proof.
  induction d; simpl; constructor; try discriminate; assumption.
Qed.

Lemma Number_toString_no_underscore (n : Z) :
  Forall (fun c => c <> "_"%char) (list_ascii_of_string (Number_toString n)).
Proof.
  unfold Number_toString, NilZero.string_of_int, NilZero.string_of_uint.
  destruct (Z.to_int n) as [u|u].
  - destruct u; try apply string_of_uint_no_underscore.
    repeat constructor. discriminate.
  - simpl. constructor; [discriminate|].
    destruct u; try apply string_of_uint_no_underscore.
    repeat constructor. discriminate.
Qed.

(** A string is cut at its first underscore in one way only. *)
Lemma cut_at_underscore (s1 s2 t1 t2 : string) :
  Forall (fun c => c <> "_"%char) (list_ascii_of_string s1) ->
  Forall (fun c => c <> "_"%char) (list_ascii_of_string s2) ->
  s1 +:+ String "_" t1 = s2 +:+ String "_" t2 -> s1 = s2 /\ t1 = t2.
Proof.
  revert s2.
  induction s1 as [|c s1 IH]; intros [|c2 s2] H1 H2 Heq.
  - change (String "_" t1 = String "_" t2) in Heq.
    injection Heq as ->. split; reflexivity.
  - change (String "_" t1 = String c2 (s2 +:+ String "_" t2)) in Heq.
    injection Heq as <- _. inversion H2 as [|? ? Hc _]. congruence.
  - change (String c (s1 +:+ String "_" t1) = String "_" t2) in Heq.
    injection Heq as -> _. inversion H1 as [|? ? Hc _]. congruence.
  - change (String c (s1 +:+ String "_" t1) = String c2 (s2 +:+ String "_" t2))
      in Heq.
    injection Heq as -> Heq.
    inversion H1 as [|? ? _ H1']. inversion H2 as [|? ? _ H2']. subst.
    destruct (IH s2 H1' H2' Heq) as [-> ->]. split; reflexivity.
Qed.

Lemma getPeriodKey_same_iff (p q : WeekPeriod) :
  getPeriodKey p = getPeriodKey q <-> year p = year q /\ week p = week q.
Proof.
  unfold getPeriodKey. split.
  - intros Heq.
    apply cut_at_underscore in Heq as [Hy Hw];
      try apply Number_toString_no_underscore.
    split; apply Number_toString_inj; assumption.
  - intros [-> ->]. reflexivity.
Qed.

Lemma getUniqueId_same_iff (a b : WeeklyPageData) :
  WeeklyModels.getUniqueId a = WeeklyModels.getUniqueId b <->
  getPeriodKey (period a) = getPeriodKey (period b)
  /\ pageId (page a) = pageId (page b).
Proof.
  unfold WeeklyModels.getUniqueId. split.
  - unfold getPeriodKey.
    rewrite !MetricCategorizerFacts.append_assoc. intros Heq.
    apply cut_at_underscore in Heq as [Hy Heq];
      try apply Number_toString_no_underscore.
    apply cut_at_underscore in Heq as [Hw Hp];
      try apply Number_toString_no_underscore.
    rewrite Hy, Hw, Hp. split; reflexivity.
  - intros [-> ->]. reflexivity.
Qed.

(** Two periods have the same key exactly when they have the same year
    and week, and two records the same [getUniqueId] exactly when they
    have the same year, week and page id, whatever characters the page
    id holds. *)
Theorem keys_identify_their_parts :
  (forall p q : WeekPeriod,
     getPeriodKey p = getPeriodKey q <-> year p = year q /\ week p = week q)
  /\ (forall a b : WeeklyPageData,
        WeeklyModels.getUniqueId a = WeeklyModels.getUniqueId b <->
        year (period a) = year (period b)
        /\ week (period a) = week (period b)
        /\ pageId (page a) = pageId (page b))
  /\ (forall a b : WeeklyPageData,
        WeeklyModels.getUniqueId a = WeeklyModels.getUniqueId b <->
        uniqueId a = uniqueId b).
Proof.
  split; [exact getPeriodKey_same_iff|]. split.
  - intros a b. rewrite getUniqueId_same_iff, getPeriodKey_same_iff. tauto.
  - intros a b. rewrite getUniqueId_same_iff. unfold uniqueId. split.
    + intros [-> ->]. reflexivity.
    + intros [= -> ->]. split; reflexivity.
Qed.

(** ** weekly_models.js: the unique pages and periods of a dataset *)

Section MapLoop.
Context {V : Type}.
Variable keyOf : WeeklyPageData -> string.
Variable valueOf : WeeklyPageData -> V.

Lemma Map_has_keys (m : list (string * V)) (k : string) :
  WeeklyModels.Map_has m k = bool_decide (k ∈ map fst m).
Proof.
  unfold WeeklyModels.Map_has.
  induction m as [|[k' v] m IH]; [reflexivity|].
  cbn [existsb map fst]. rewrite IH.
  destruct (String.eqb_spec k' k) as [->|Hne].
  - symmetry. apply bool_decide_eq_true. left.
  - cbn [orb]. apply bool_decide_ext. rewrite elem_of_cons.
    split; [tauto|]. intros [Heq|Hin]; [congruence|exact Hin].
Qed.

Lemma Map_set_if_absent_keys (m : list (string * V)) (k : string) (v : V) :
  map fst (WeeklyModels.Map_set_if_absent m k v) = Set_add (map fst m) k.
Proof.
  unfold WeeklyModels.Map_set_if_absent, Set_add. rewrite Map_has_keys.
  destruct (bool_decide (k ∈ map fst m)); [reflexivity|].
  cbn [negb]. rewrite map_app. reflexivity.
Qed.

Lemma loop_keys (data : list WeeklyPageData) (m : list (string * V)) :
  map fst (fold_left
       (fun m item =>
          WeeklyModels.Map_set_if_absent m (keyOf item) (valueOf item))
       data m) = fold_left Set_add (map keyOf data) (map fst m).
Proof.
  revert m. induction data as [|d data IH]; intros m; [reflexivity|].
  cbn [fold_left map]. rewrite IH, Map_set_if_absent_keys. reflexivity.
Qed.

Lemma membersOf_absent (k : string) (data : list WeeklyPageData) :
  ~ In k (map keyOf data) -> membersOf keyOf k data = [].
Proof.
  unfold membersOf. induction data as [|d data IH]; intros Hk; [reflexivity|].
  cbn [List.filter]. destruct (String.eqb_spec (keyOf d) k) as [Heq|_].
  - destruct Hk. left. exact Heq.
  - apply IH. intros Hin. apply Hk. right. exact Hin.
Qed.

Lemma membersOf_head (k : string) (data : list WeeklyPageData)
    (first : WeeklyPageData) (rest : list WeeklyPageData) :
  membersOf keyOf k data = first :: rest -> In first data /\ keyOf first = k.
Proof.
  intros Hmembers.
  assert (Hin : In first (membersOf keyOf k data))
    by (rewrite Hmembers; left; reflexivity).
  apply filter_In in Hin as [Hin Hkey].
  split; [exact Hin|]. apply String.eqb_eq, Hkey.
Qed.

(** Each entry of the [Map] holds the value of the first record with
    its key. *)
Lemma loop_values (data : list WeeklyPageData) :
  Forall
    (fun entry =>
       exists first rest,
         membersOf keyOf (fst entry) data = first :: rest
         /\ snd entry = valueOf first)
    (fold_left
       (fun m item =>
          WeeklyModels.Map_set_if_absent m (keyOf item) (valueOf item))
       data []).
Proof.
  induction data as [|d data IH] using rev_ind; [constructor|].
  rewrite fold_left_app. cbn [fold_left].
  assert (Hold : Forall
                   (fun entry =>
                      exists first rest,
                        membersOf keyOf (fst entry) (data ++ [d]) = first :: rest
                        /\ snd entry = valueOf first)
                   (fold_left
       (fun m item =>
          WeeklyModels.Map_set_if_absent m (keyOf item) (valueOf item))
       data [])).
  { eapply List.Forall_impl; [|exact IH].
    intros entry (first & rest & Hmembers & Hvalue).
    rewrite membersOf_snoc, Hmembers. eexists first, _.
    split; [reflexivity|exact Hvalue]. }
  unfold WeeklyModels.Map_set_if_absent. rewrite Map_has_keys, loop_keys.
  case_bool_decide as Hnew; [exact Hold|].
  cbn [negb]. apply Forall_app. split; [exact Hold|].
  constructor; [|constructor].
  exists d, []. split; [|reflexivity].
  cbn [fst]. rewrite membersOf_snoc, String.eqb_refl, membersOf_absent;
    [reflexivity|].
  intros Hin. apply Hnew, list_elem_of_In.
  apply (proj1 (fold_Set_add_spec _ _)). right. exact Hin.
Qed.

Lemma loop_values_keys (data : list WeeklyPageData) (keyOfValue : V -> string) :
  (forall d, keyOfValue (valueOf d) = keyOf d) ->
  map keyOfValue (map snd (fold_left
       (fun m item =>
          WeeklyModels.Map_set_if_absent m (keyOf item) (valueOf item))
       data [])) = Set_of (map keyOf data).
Proof.
  intros Hkey. unfold Set_of.
  change (@nil string) with (map fst (@nil (string * V))).
  rewrite <- loop_keys.
  pose proof (loop_values data) as Hvalues.
  induction Hvalues as [|entry m (first & rest & Hmembers & Hvalue) _ IH];
    [reflexivity|].
  cbn [map]. rewrite IH, Hvalue, Hkey.
  apply membersOf_head in Hmembers as [_ ->]. reflexivity.
Qed.

End MapLoop.

Lemma Set_of_length (l : list string) :
  (length (Set_of l) <= length l)%nat
  /\ (l <> [] -> (1 <= length (Set_of l))%nat).
Proof.
  destruct (Set_of_spec l) as [Hnodup Hin]. split.
  - apply submseteq_length, NoDup_submseteq; [exact Hnodup|].
    intros x Hx. apply list_elem_of_In, Hin, list_elem_of_In, Hx.
  - intros Hne. destruct l as [|x l]; [congruence|].
    assert (Hx : In x (Set_of (x :: l))) by (apply Hin; left; reflexivity).
    destruct (Set_of (x :: l)); [destruct Hx|simpl; lia].
Qed.

(** [getUniquePages] returns one page per distinct page id, in order of
    first occurrence, and each is the page object of the first record
    with its id, the head of [getDataForPage]. *)
Theorem getUniquePages_first_per_id (data : list WeeklyPageData) :
  map pageId (WeeklyModels.getUniquePages data)
  = Set_of (map (fun item => pageId (page item)) data)
  /\ NoDup (map pageId (WeeklyModels.getUniquePages data))
  /\ (forall id : string,
        In id (map pageId (WeeklyModels.getUniquePages data)) <->
        exists item, In item data /\ pageId (page item) = id)
  /\ Forall
       (fun p =>
          exists first rest,
            WeeklyModels.getDataForPage data (pageId p) = first :: rest
            /\ p = page first)
       (WeeklyModels.getUniquePages data).
Proof.
  assert (Hids : map pageId (WeeklyModels.getUniquePages data)
                 = Set_of (map (fun item => pageId (page item)) data))
    by (apply (loop_values_keys (fun item => pageId (page item)) page);
        reflexivity).
  destruct (Set_of_spec (map (fun item => pageId (page item)) data))
    as [Hnodup Hin].
  split; [exact Hids|]. rewrite Hids.
  split; [exact Hnodup|]. split.
  - intros id. rewrite Hin, in_map_iff. split.
    + intros (item & <- & Hitem). exists item. split; [exact Hitem|reflexivity].
    + intros (item & Hitem & <-). exists item. split; [reflexivity|exact Hitem].
  - unfold WeeklyModels.getUniquePages. apply Forall_map.
    eapply List.Forall_impl;
      [|exact (loop_values (fun item => pageId (page item)) page data)].
    intros entry (first & rest & Hmembers & Hvalue).
    exists first, rest. split; [|exact Hvalue].
    pose proof (membersOf_head _ _ _ _ _ Hmembers) as [_ Hkey].
    rewrite Hvalue, Hkey. exact Hmembers.
Qed.

Lemma before_period (a b : WeekPeriod) :
  before
    (fun a b => if negb (year a =? year b) then year a - year b else week a - week b)
    a b
  <-> periodNoLater a b.
Proof.
  unfold before, periodNoLater.
  destruct (Z.eqb_spec (year a) (year b)) as [Heq|Hne]; cbn [negb]; lia.
Qed.

Lemma StronglySorted_distinct {A B : Type} (R : A -> A -> Prop) (f : A -> B)
    (l : list A) :
  StronglySorted R l -> NoDup (map f l) ->
  StronglySorted (fun a b => R a b /\ f a <> f b) l.
Proof.
  induction 1 as [|a l Hsorted IH Hall]; intros Hnodup; [constructor|].
  cbn [map] in Hnodup. apply NoDup_cons in Hnodup as [Hnotin Hnodup].
  constructor; [apply IH, Hnodup|].
  apply List.Forall_forall. intros b Hb. split.
  - rewrite List.Forall_forall in Hall. apply Hall, Hb.
  - intros Heq. apply Hnotin. rewrite Heq.
    apply list_elem_of_In, in_map, Hb.
Qed.

Lemma getUniquePages_ids (data : list WeeklyPageData) :
  map pageId (WeeklyModels.getUniquePages data)
  = Set_of (map (fun item => pageId (page item)) data).
Proof.
  apply (loop_values_keys (fun item => pageId (page item)) page). reflexivity.
Qed.

Lemma getUniquePeriods_keys (data : list WeeklyPageData) :
  Permutation
    (map getPeriodKey (WeeklyModels.getUniquePeriods data))
    (Set_of (map (fun item => getPeriodKey (period item)) data)).
Proof.
  unfold WeeklyModels.getUniquePeriods.
  rewrite <- (loop_values_keys (fun item => getPeriodKey (period item)) period
                data getPeriodKey) by reflexivity.
  apply Permutation_map, Array_sort_Permutation.
Qed.

(** [getUniquePeriods] returns one period per distinct (year, week) of
    the data, in strictly ascending order of year, then week; each is
    the period object of the first record of that week, the head of
    [getDataForPeriod]. *)
Theorem getUniquePeriods_sorted_distinct (data : list WeeklyPageData) :
  StronglySorted
    (fun a b => year a < year b \/ (year a = year b /\ week a < week b))
    (WeeklyModels.getUniquePeriods data)
  /\ Permutation
       (map getPeriodKey (WeeklyModels.getUniquePeriods data))
       (Set_of (map (fun item => getPeriodKey (period item)) data))
  /\ (forall y w : Z,
        (exists p, In p (WeeklyModels.getUniquePeriods data)
                   /\ year p = y /\ week p = w) <->
        exists item, In item data
                     /\ year (period item) = y /\ week (period item) = w)
  /\ Forall
       (fun p =>
          exists first rest,
            WeeklyModels.getDataForPeriod data (year p) (week p) = first :: rest
            /\ p = period first)
       (WeeklyModels.getUniquePeriods data).
Proof.
  unfold WeeklyModels.getUniquePeriods.
  set (compareFn := fun a b : WeekPeriod =>
                      if negb (year a =? year b) then year a - year b
                      else week a - week b).
  set (periods := map snd
                    (fold_left
                       (fun m item =>
                          WeeklyModels.Map_set_if_absent m
                            (getPeriodKey (period item)) (period item))
                       data [])).
  assert (Hkeys : map getPeriodKey periods
                  = Set_of (map (fun item => getPeriodKey (period item)) data))
    by (apply (loop_values_keys (fun item => getPeriodKey (period item)) period);
        reflexivity).
  assert (Hperm : Permutation (Array_sort compareFn periods) periods)
    by apply Array_sort_Permutation.
  assert (Hpermkeys : Permutation (map getPeriodKey (Array_sort compareFn periods))
                        (Set_of (map (fun item => getPeriodKey (period item)) data)))
    by apply getUniquePeriods_keys.
  destruct (Set_of_spec (map (fun item => getPeriodKey (period item)) data))
    as [Hnodup Hin].
  assert (Hfirst : Forall
                     (fun p =>
                        exists first rest,
                          WeeklyModels.getDataForPeriod data (year p) (week p)
                          = first :: rest
                          /\ p = period first)
                     periods).
  { unfold periods. apply Forall_map.
    eapply List.Forall_impl;
      [|exact (loop_values (fun item => getPeriodKey (period item)) period data)].
    intros entry (first & rest & Hmembers & Hvalue).
    exists first, rest. split; [|exact Hvalue].
    pose proof (membersOf_head _ _ _ _ _ Hmembers) as [_ Hkey].
    rewrite <- Hmembers, <- Hkey, Hvalue.
    unfold WeeklyModels.getDataForPeriod, membersOf.
    apply filter_ext. intros item.
    apply eq_true_iff_eq.
    rewrite andb_true_iff, !Z.eqb_eq, String.eqb_eq.
    symmetry. apply getPeriodKey_same_iff. }
  split.
  { eapply StronglySorted_weaken;
      [|apply (StronglySorted_distinct periodNoLater getPeriodKey)].
    - intros a b [Hle Hne]. unfold periodNoLater in Hle.
      destruct Hle as [Hlt|[Hy Hw]]; [left; exact Hlt|]. right.
      split; [exact Hy|].
      destruct (Z.eq_dec (week a) (week b)) as [Heq|Hneq]; [|lia].
      destruct Hne. apply getPeriodKey_same_iff. split; assumption.
    - eapply StronglySorted_weaken;
        [|apply (Array_sort_StronglySorted compareFn)].
      + intros a b. apply before_period.
      + intros x y. unfold before, compareFn.
        destruct (Z.eqb_spec (year x) (year y)),
                 (Z.eqb_spec (year y) (year x)); cbn [negb]; lia.
      + intros x y z Hxy Hyz.
        apply before_period. apply before_period in Hxy, Hyz.
        unfold periodNoLater in *. lia.
    - apply (NoDup_Permutation_proper _ _ Hpermkeys), Hnodup. }
  split; [exact Hpermkeys|]. split.
  { intros y w. split.
    - intros (p & Hp & Hy & Hw).
      apply (Permutation_in _ Hperm) in Hp.
      rewrite List.Forall_forall in Hfirst.
      destruct (Hfirst p Hp) as (first & rest & Hdata & ->).
      exists first. split; [|split; assumption].
      assert (Hfirst' : In first (WeeklyModels.getDataForPeriod data
                                    (year (period first)) (week (period first))))
        by (rewrite Hdata; left; reflexivity).
      apply filter_In in Hfirst' as [Hfirst' _]. exact Hfirst'.
    - intros (item & Hitem & Hy & Hw).
      assert (Hkey : In (getPeriodKey (period item))
                       (map getPeriodKey (Array_sort compareFn periods))).
      { apply (Permutation_in _ (Permutation_sym Hpermkeys)), Hin.
        apply (in_map (fun item => getPeriodKey (period item))), Hitem. }
      apply in_map_iff in Hkey as (p & Hsame & Hp).
      apply getPeriodKey_same_iff in Hsame as [Hy' Hw'].
      exists p. split; [exact Hp|]. split; congruence. }
  apply List.Forall_forall. intros p Hp.
  apply (Permutation_in _ Hperm) in Hp.
  rewrite List.Forall_forall in Hfirst. apply Hfirst, Hp.
Qed.

(** ** aggregation_service.js: the summary *)

(** The summary of a non-empty array counts every record, as many pages
    as [getUniquePages] returns and as many weeks as [getUniquePeriods]
    returns, each at least one and at most the number of records; the
    pivot table has [totalPages] page ids and [totalWeeks] week keys.
    When no two records share week and page, there are at most
    [totalWeeks * totalPages] records. *)
Theorem createSummary_counts (weeklyDataArray : list WeeklyPageData) :
  weeklyDataArray <> [] ->
  Summary.totalDataPoints (createSummary weeklyDataArray)
  = Some (length weeklyDataArray)
  /\ Summary.totalPages (createSummary weeklyDataArray)
     = length (WeeklyModels.getUniquePages weeklyDataArray)
  /\ Summary.totalWeeks (createSummary weeklyDataArray)
     = length (WeeklyModels.getUniquePeriods weeklyDataArray)
  /\ (1 <= Summary.totalPages (createSummary weeklyDataArray)
      <= length weeklyDataArray)%nat
  /\ (1 <= Summary.totalWeeks (createSummary weeklyDataArray)
      <= length weeklyDataArray)%nat
  /\ (NoDup (map uniqueId weeklyDataArray) ->
      (length weeklyDataArray
       <= Summary.totalWeeks (createSummary weeklyDataArray)
          * Summary.totalPages (createSummary weeklyDataArray))%nat)
  /\ (forall (metric : MetricKey) (table : PivotTable.t),
        createPivotTable weeklyDataArray metric = Normal table ->
        length (PivotTable.pages table)
        = Summary.totalPages (createSummary weeklyDataArray)
        /\ length (PivotTable.weeks table)
           = Summary.totalWeeks (createSummary weeklyDataArray)).
Proof.
  intros Hne. unfold createSummary.
  replace ((length weeklyDataArray =? 0)%nat) with false
    by (destruct weeklyDataArray; [congruence|reflexivity]).
  cbn [Summary.totalDataPoints Summary.totalPages Summary.totalWeeks].
  set (ids := map (fun d => pageId (page d)) weeklyDataArray).
  set (keys := map (fun d => getPeriodKey (period d)) weeklyDataArray).
  assert (Hids : ids <> []) by (destruct weeklyDataArray; [congruence|discriminate]).
  assert (Hkeys : keys <> []) by (destruct weeklyDataArray; [congruence|discriminate]).
  destruct (Set_of_length ids) as [Hids_le Hids_ge].
  destruct (Set_of_length keys) as [Hkeys_le Hkeys_ge].
  unfold ids, keys in Hids_le, Hkeys_le. rewrite length_map in Hids_le, Hkeys_le.
  split; [reflexivity|]. split.
  { rewrite <- (length_map pageId).
    rewrite getUniquePages_ids. reflexivity. }
  split.
  { rewrite <- (length_map getPeriodKey).
    apply Permutation_length, Permutation_sym.
    apply (getUniquePeriods_keys weeklyDataArray). }
  split; [split; [apply Hids_ge, Hids|exact Hids_le]|].
  split; [split; [apply Hkeys_ge, Hkeys|exact Hkeys_le]|].
  split.
  { intros Hnodup. rewrite <- length_prod, <- (length_map uniqueId).
    apply submseteq_length, NoDup_submseteq; [exact Hnodup|].
    intros [w p] Hin. apply list_elem_of_In in Hin.
    apply in_map_iff in Hin as (data & [= <- <-] & Hdata).
    apply list_elem_of_In, in_prod.
    - apply (proj2 (Set_of_spec keys)).
      apply (in_map (fun d => getPeriodKey (period d))), Hdata.
    - apply (proj2 (Set_of_spec ids)).
      apply (in_map (fun d => pageId (page d))), Hdata. }
  intros metric table. unfold createPivotTable.
  replace ((length weeklyDataArray =? 0)%nat) with false
    by (destruct weeklyDataArray; [congruence|reflexivity]).
  destruct (fold_left (pivotStep metric) weeklyDataArray (Normal ∅));
    [|discriminate].
  intros [= <-]. cbn [PivotTable.pages PivotTable.weeks].
  split; [reflexivity|apply Array_sort_length].
Qed.

(** Two pages in week 41 and one of them again in week 42: three
    records, two weeks, two pages. *)
Lemma createSummary_counts_witness :
  Summary.totalDataPoints
    (createSummary
       [ weekRecord "a" 2025 41 "2025-10-06" 100 10;
         weekRecord "b" 2025 41 "2025-10-06" 50 5;
         weekRecord "a" 2025 42 "2025-10-13" 120 20 ])
  = Some 3%nat
  /\ (3 <= Summary.totalWeeks
             (createSummary
                [ weekRecord "a" 2025 41 "2025-10-06" 100 10;
                  weekRecord "b" 2025 41 "2025-10-06" 50 5;
                  weekRecord "a" 2025 42 "2025-10-13" 120 20 ])
           * Summary.totalPages
               (createSummary
                  [ weekRecord "a" 2025 41 "2025-10-06" 100 10;
                    weekRecord "b" 2025 41 "2025-10-06" 50 5;
                    weekRecord "a" 2025 42 "2025-10-13" 120 20 ]))%nat.
Proof.
  destruct (createSummary_counts
              [ weekRecord "a" 2025 41 "2025-10-06" 100 10;
                weekRecord "b" 2025 41 "2025-10-06" 50 5;
                weekRecord "a" 2025 42 "2025-10-13" 120 20 ])
    as (Hpoints & _ & _ & _ & _ & Hbound & _); [discriminate|].
  split; [exact Hpoints|].
  apply Hbound. apply (bool_decide_unpack _). vm_compute. exact I.
Defined.

(** ** aggregation_service.js: a page over time *)

(** [aggregatePageTimeseries] on a non-empty array returns one entry per
    record in ascending order of [startDate]; its summary counts the
    records, totals their engagements and averages their reach as
    [sumEngagements] and [calculateTotalReach] do on the unsorted array;
    [page] is the page of the first record of the array among those
    with the earliest [startDate]. *)
Theorem aggregatePageTimeseries_series (weeklyDataArray : list WeeklyPageData) :
  weeklyDataArray <> [] ->
  exists (result : Timeseries.t) (first : WeeklyPageData)
         (rest : list WeeklyPageData),
    aggregatePageTimeseries weeklyDataArray = Some result
    /\ Timeseries.timeseries result
       = map timeseriesEntry (sortByStartDate weeklyDataArray)
    /\ (Permutation (sortByStartDate weeklyDataArray) weeklyDataArray
        /\ StronglySorted startsNoLater (sortByStartDate weeklyDataArray))
    /\ Timeseries.weekCount (Timeseries.seriesSummary result)
       = length weeklyDataArray
    /\ Timeseries.totalEngagements (Timeseries.seriesSummary result)
       = sumEngagements weeklyDataArray
    /\ Timeseries.averageReach (Timeseries.seriesSummary result)
       = calculateTotalReach weeklyDataArray
    /\ Timeseries.page result = page first
    /\ Forall (startsNoLater first) weeklyDataArray
    /\ List.filter
         (fun d => String.eqb (startDate (period d)) (startDate (period first)))
         weeklyDataArray
       = first :: rest.
Proof.
  intros Hne. unfold aggregatePageTimeseries.
  replace ((length weeklyDataArray =? 0)%nat) with false
    by (destruct weeklyDataArray; [congruence|reflexivity]).
  destruct (sortByStartDate_spec weeklyDataArray) as (Hperm & Hsorted & Hstable).
  destruct (sortByStartDate weeklyDataArray) as [|first sorted] eqn:Hsort.
  { apply Permutation_nil in Hperm. congruence. }
  specialize (Hstable (startDate (period first))).
  cbn [List.filter] in Hstable. rewrite String.eqb_refl in Hstable.
  eexists _, first, _. split; [reflexivity|].
  cbn [Timeseries.timeseries Timeseries.seriesSummary Timeseries.weekCount
       Timeseries.totalEngagements Timeseries.averageReach Timeseries.page].
  split; [reflexivity|].
  split; [split; [exact Hperm|exact Hsorted]|].
  split; [rewrite length_map; apply Permutation_length, Hperm|].
  split.
  { rewrite !sumEngagements_sum.
    apply sum_Permutation, Permutation_map, Hperm. }
  split.
  { rewrite !calculateTotalReach_average.
    apply calculateAverageReach_Permutation, Permutation_map, Hperm. }
  split; [reflexivity|].
  split; [|symmetry; exact Hstable].
  apply List.Forall_forall. intros d Hd.
  apply (Permutation_in _ (Permutation_sym Hperm)) in Hd.
  destruct Hd as [<-|Hd].
  - unfold startsNoLater, String.le.
    destruct (String.leb_total (startDate (period first))
                (startDate (period first))) as [Hle|Hle];
      rewrite Hle; exact I.
  - inversion Hsorted as [|? ? _ Hall]; subst.
    rewrite List.Forall_forall in Hall. apply Hall, Hd.
Qed.

(** Weeks 42 and 41 of page "a": the series starts with week 41. *)
Lemma aggregatePageTimeseries_series_witness :
  exists result : Timeseries.t,
    aggregatePageTimeseries
      [ weekRecord "a" 2025 42 "2025-10-13" 120 20;
        weekRecord "a" 2025 41 "2025-10-06" 100 10 ]
    = Some result
    /\ Timeseries.weekCount (Timeseries.seriesSummary result) = 2%nat
    /\ Timeseries.totalEngagements (Timeseries.seriesSummary result) = 30.
Proof.
  destruct (aggregatePageTimeseries_series
              [ weekRecord "a" 2025 42 "2025-10-13" 120 20;
                weekRecord "a" 2025 41 "2025-10-06" 100 10 ])
    as (result & first & rest & Heq & _ & _ & Hcount & Htotal & _);
    [discriminate|].
  exists result. split; [exact Heq|]. split; [exact Hcount|exact Htotal].
Defined.

(** ** aggregation_service.js: the pages of one week *)

Lemma sort_insert_map {A B : Type} (f : A -> B) (compareA : A -> A -> Z)
    (compareB : B -> B -> Z) (x : A) (l : list A) :
  (forall x y, compareB (f x) (f y) = compareA x y) ->
  map f (sort_insert compareA x l) = sort_insert compareB (f x) (map f l).
Proof.
  intros Hcompare. induction l as [|y l IH]; [reflexivity|].
  cbn [sort_insert map]. rewrite Hcompare.
  destruct (compareA x y <=? 0); [reflexivity|].
  cbn [map]. rewrite IH. reflexivity.
Qed.

Lemma Array_sort_map {A B : Type} (f : A -> B) (compareA : A -> A -> Z)
    (compareB : B -> B -> Z) (l : list A) :
  (forall x y, compareB (f x) (f y) = compareA x y) ->
  map f (Array_sort compareA l) = Array_sort compareB (map f l).
Proof.
  intros Hcompare. induction l as [|x l IH]; [reflexivity|].
  cbn [Array_sort fold_right map].
  rewrite (sort_insert_map f compareA compareB) by exact Hcompare.
  f_equal. exact IH.
Qed.

(** [aggregateForWeekComparison] returns the entries of the records
    that [getDataForPeriod] selects, by descending engagements, entries
    with equal engagements in input order; it lists the pages in the
    order in which [rankPagesByMetric] ranks the week by engagements. *)
Theorem aggregateForWeekComparison_ranks_the_week
    (weeklyDataArray : list WeeklyPageData) (y w : Z) :
  let weekData := WeeklyModels.getDataForPeriod weeklyDataArray y w in
  let result := aggregateForWeekComparison weeklyDataArray y w in
  Permutation result (map comparisonEntry weekData)
  /\ StronglySorted
       (fun a b =>
          engagements (WeekComparison.metrics b)
          <= engagements (WeekComparison.metrics a))
       result
  /\ (forall e : Z,
        List.filter (fun t => engagements (WeekComparison.metrics t) =? e) result
        = List.filter (fun t => engagements (WeekComparison.metrics t) =? e)
            (map comparisonEntry weekData))
  /\ map
       (fun t =>
          (WeekComparison.page t, engagements (WeekComparison.metrics t),
           WeekComparison.status t))
       result
     = map rankedFields (rankPagesByMetric weekData engagementsKey).
Proof.
  cbv zeta.
  set (compareFn := fun a b : WeekComparison.t =>
                      engagements (WeekComparison.metrics b)
                      - engagements (WeekComparison.metrics a)).
  assert (Hresult :
            aggregateForWeekComparison weeklyDataArray y w
            = Array_sort compareFn
                (map comparisonEntry
                   (WeeklyModels.getDataForPeriod weeklyDataArray y w)))
    by (destruct weeklyDataArray; reflexivity).
  rewrite Hresult. split; [apply Array_sort_Permutation|].
  split.
  { eapply StronglySorted_weaken;
      [|apply (Array_sort_StronglySorted compareFn)].
    - intros a b. unfold before, compareFn. lia.
    - intros a b. unfold before, compareFn. lia.
    - intros a b c. unfold before, compareFn. lia. }
  split.
  { intros e. apply Array_sort_filter.
    intros a b Ha Hb. apply Z.eqb_eq in Ha, Hb.
    unfold before, compareFn. lia. }
  rewrite rankPagesByMetric_unfold.
  rewrite (map_imap_item rankedFields _ rankedFields) by reflexivity.
  rewrite (Array_sort_map _ compareFn
             (fun a b : Page * Z * string => snd (fst b) - snd (fst a)))
    by reflexivity.
  rewrite (Array_sort_map rankedFields _
             (fun a b : Page * Z * string => snd (fst b) - snd (fst a)))
    by reflexivity.
  rewrite !map_map. reflexivity.
Qed.

(** ** aggregation_service.js: the distribution of engagements *)

Lemma Qsum_ext {A : Type} (f g : A -> Q) (l : list A) :
  (forall d, (f d == g d)%Q) -> (Qsum (map f l) == Qsum (map g l))%Q.
Proof.
  intros Hfg. unfold Qsum.
  induction l as [|d l IH]; cbn [map fold_right]; [reflexivity|].
  rewrite IH, Hfg. reflexivity.
Qed.

Lemma Qsum_scaled {A : Type} (e : A -> Z) (c : Q) (l : list A) :
  (Qsum (map (fun d => inject_Z (e d) * c) l) == inject_Z (sum (map e l)) * c)%Q.
Proof.
  unfold Qsum.
  induction l as [|d l IH]; cbn [map fold_right]; [unfold sum; simpl; ring|].
  rewrite IH, sum_cons, inject_Z_plus. ring.
Qed.

(** Rounding each term to a nearest integer moves a sum by at most half
    a unit per term. *)
Lemma Qsum_nearest {A : Type} (x : A -> Q) (r : A -> Z) (l : list A) :
  Forall
    (fun d => (inject_Z (r d) - (1 # 2) <= x d)%Q
              /\ (x d <= inject_Z (r d) + (1 # 2))%Q) l ->
  (Qsum (map x l) - inject_Z (Z.of_nat (length l)) * (1 # 2)
   <= inject_Z (sum (map r l)))%Q
  /\ (inject_Z (sum (map r l))
      <= Qsum (map x l) + inject_Z (Z.of_nat (length l)) * (1 # 2))%Q.
Proof.
  unfold Qsum.
  induction 1 as [|d l [Hl Hu] _ [IHl IHu]]; cbn [map fold_right length].
  - change (inject_Z (sum [])) with 0%Q.
    change (inject_Z (Z.of_nat 0)) with 0%Q. split; lra.
  - rewrite sum_cons, inject_Z_plus, Nat2Z.inj_succ, <- Z.add_1_r, inject_Z_plus.
    change (inject_Z 1) with 1%Q. split; lra.
Qed.

Lemma sum_nonnegative_ge (l : list Z) (v : Z) :
  Forall (fun x => 0 <= x) l -> In v l -> 0 <= v <= sum l.
Proof.
  induction 1 as [|x l Hx Hall IH]; intros Hin; [destruct Hin|].
  rewrite sum_cons.
  assert (Hsum : 0 <= sum l).
  { clear IH Hin. induction Hall as [|y l Hy _ IH]; [unfold sum; simpl; lia|].
    rewrite sum_cons. lia. }
  destruct Hin as [<-|Hin]; [lia|].
  specialize (IH Hin). lia.
Qed.

(** The tenths of a part of a positive total lie between 0 and 1000. *)
Lemma shareTenths_range (total e : Z) :
  0 <= e <= total -> 0 < total -> 0 <= shareTenths total e <= 1000.
Proof.
  intros He Htotal.
  pose proof (Math_round_within _ _ _ (shareTenths_within total e)) as H.
  fold (shareTenths total e) in H.
  assert (Hq : (0 < inject_Z total)%Q) by (rewrite <- (Zlt_Qlt 0); exact Htotal).
  assert (Hlo : (0 <= inject_Z e / inject_Z total)%Q).
  { apply Qle_shift_div_l; [exact Hq|].
    rewrite Qmult_0_l, <- (Zle_Qle 0). lia. }
  assert (Hhi : (inject_Z e / inject_Z total <= 1)%Q).
  { apply Qle_shift_div_r; [exact Hq|].
    rewrite Qmult_1_l, <- Zle_Qle. lia. }
  set (x := (inject_Z e / inject_Z total)%Q) in *.
  rewrite (Qabs_pos (x * 1000)) in H by lra.
  assert (Hslack : (slack == 1 # 1125899906842624)%Q) by reflexivity.
  rewrite Hslack in H.
  apply Qabs_Qle_condition in H. destruct H as [Hdown Hup].
  assert (Hr : -1 < shareTenths total e < 1001).
  { rewrite !Zlt_Qlt. change (inject_Z (-1)) with (-1)%Q.
    change (inject_Z 1001) with 1001%Q. split; lra. }
  lia.
Qed.

(** A whole number of tenths between 0 and 1000, divided by 10 in
    binary64, lies between 0 and 100. *)
Lemma percentage_range (r : Z) :
  0 <= r <= 1000 ->
  (0 <= js_div (inject_Z r) 10)%Q /\ (js_div (inject_Z r) 10 <= 100)%Q.
Proof.
  intros Hr.
  destruct (Z.eq_dec r 1000) as [->|Hne]; [split; vm_compute; discriminate|].
  assert (Hlo : (0 <= inject_Z r)%Q) by (rewrite <- (Zle_Qle 0); lia).
  assert (Hhi : (inject_Z r <= 999)%Q)
    by (change 999%Q with (inject_Z 999); rewrite <- Zle_Qle; lia).
  unfold js_div.
  pose proof (binary64_error (inject_Z r / 10)) as Herr.
  assert (Hu : (unitRoundoff == 1 # 9007199254740992)%Q) by reflexivity.
  rewrite Hu in Herr. clear Hu.
  unfold Qdiv in *. change (/ 10)%Q with (1 # 10)%Q in *.
  rewrite (Qabs_pos (inject_Z r * (1 # 10))) in Herr by lra.
  apply Qabs_Qle_condition in Herr. split; lra.
Qed.

(** [calculateEngagementDistribution] returns one entry per record.
    When the engagements total 0 every entry reports 0 engagements and
    0 percent, in input order.  Otherwise the entries carry the
    records' engagements in descending order, and each percentage is
    the binary64 quotient by 10 of a whole number of tenths.  When
    every engagement is below [2 ^ 50 / 2000] in magnitude, the tenths
    are the exact share of the total rounded half-up, or the lower
    integer for a share halfway between two integers, and the tenths
    add up to 1000 within half a unit per entry.  When no engagement is
    negative each percentage lies between 0 and 100. *)
Theorem calculateEngagementDistribution_shares
    (weeklyDataArray : list WeeklyPageData) :
  let total := sumEngagements weeklyDataArray in
  let result := calculateEngagementDistribution weeklyDataArray in
  let tenths := fun t => shareTenths total (Distribution.engagements t) in
  let exact :=
    fun t => (inject_Z (Distribution.engagements t) / inject_Z total * 1000)%Q in
  length result = length weeklyDataArray
  /\ (total = 0 ->
      map Distribution.page result = map page weeklyDataArray
      /\ Forall
           (fun t => Distribution.engagements t = 0
                     /\ Distribution.percentage t = 0%Q)
           result)
  /\ (total <> 0 ->
      Permutation
        (map (fun t => (Distribution.page t, Distribution.engagements t)) result)
        (map (fun d => (page d, engagements (metrics d))) weeklyDataArray)
      /\ StronglySorted
           (fun a b => Distribution.engagements b <= Distribution.engagements a)
           result
      /\ Forall
           (fun t => Distribution.percentage t = js_div (inject_Z (tenths t)) 10)
           result)
  /\ (total <> 0 ->
      Forall (fun d => 2000 * Z.abs (engagements (metrics d)) < 2 ^ 50)
        weeklyDataArray ->
      Forall
        (fun t =>
           rounds_half_up (exact t) (tenths t)
           \/ (exact t == inject_Z (tenths t) + (1 # 2))%Q)
        result
      /\ 2 * Z.abs (sum (map tenths result) - 1000)
         <= Z.of_nat (length weeklyDataArray))
  /\ (0 < total ->
      Forall (fun d => 0 <= engagements (metrics d)) weeklyDataArray ->
      Forall
        (fun t => (0 <= Distribution.percentage t)%Q
                  /\ (Distribution.percentage t <= 100)%Q)
        result).
Proof.
  cbv zeta. unfold calculateEngagementDistribution.
  destruct (decide (weeklyDataArray = [])) as [->|Hne].
  { cbn [length Nat.eqb]. split; [reflexivity|].
    split; [intros _; split; [reflexivity|constructor]|].
    split; [intros Htotal; destruct Htotal; reflexivity|].
    split; [intros Htotal; destruct Htotal; reflexivity|].
    intros _ _. constructor. }
  replace ((length weeklyDataArray =? 0)%nat) with false
    by (destruct weeklyDataArray; [congruence|reflexivity]).
  set (total := sumEngagements weeklyDataArray).
  set (entry := fun data : WeeklyPageData =>
                  {| Distribution.page := page data;
                     Distribution.engagements := engagements (metrics data);
                     Distribution.percentage :=
                       js_div
                         (inject_Z (shareTenths total (engagements (metrics data))))
                         10 |}).
  set (compareFn := fun a b : Distribution.t =>
                      Distribution.engagements b - Distribution.engagements a).
  destruct (Z.eqb_spec total 0) as [Hzero|Hnonzero].
  { split; [apply length_map|].
    split; [|split; [intros Htotal; contradiction|
                     split; [intros Htotal; contradiction|intros Hpos; lia]]].
    intros _. split; [rewrite map_map; reflexivity|].
    apply Forall_map, Forall_forall. intros d _. split; reflexivity. }
  assert (Hperm : Permutation (Array_sort compareFn (map entry weeklyDataArray))
                    (map entry weeklyDataArray))
    by apply Array_sort_Permutation.
  assert (Hentry : forall t,
             In t (Array_sort compareFn (map entry weeklyDataArray)) ->
             exists d, t = entry d /\ In d weeklyDataArray).
  { intros t Ht.
    apply (Permutation_in _ Hperm), in_map_iff in Ht as (d & <- & Hd).
    exists d. split; [reflexivity|exact Hd]. }
  split; [rewrite Array_sort_length; apply length_map|].
  split; [intros Htotal; contradiction|].
  split.
  { intros _. split.
    { rewrite (Permutation_map _ Hperm), map_map. reflexivity. }
    split.
    { eapply StronglySorted_weaken;
        [|apply (Array_sort_StronglySorted compareFn)].
      - intros a b. unfold before, compareFn. lia.
      - intros a b. unfold before, compareFn. lia.
      - intros a b c. unfold before, compareFn. lia. }
    apply List.Forall_forall. intros t Ht.
    destruct (Hentry t Ht) as (d & -> & _). reflexivity. }
  split.
  { intros _ Hsmall. rewrite List.Forall_forall in Hsmall. split.
    { apply List.Forall_forall. intros t Ht.
      destruct (Hentry t Ht) as (d & -> & Hd).
      unfold entry. cbn [Distribution.engagements].
      apply shareTenths_rounds; [exact Hnonzero|apply Hsmall, Hd]. }
    rewrite (sum_Permutation _ _ (Permutation_map _ Hperm)), map_map.
    cbn [entry Distribution.engagements].
    destruct (Qsum_nearest
                (fun d => inject_Z (engagements (metrics d))
                          * (/ inject_Z total * 1000))%Q
                (fun d => shareTenths total (engagements (metrics d)))
                weeklyDataArray) as [Hl Hu].
    { apply List.Forall_forall. intros d Hd.
      assert (Hx : (inject_Z (engagements (metrics d)) * (/ inject_Z total * 1000)
                    == inject_Z (engagements (metrics d)) / inject_Z total * 1000)%Q)
        by (unfold Qdiv; ring).
      rewrite Hx.
      destruct (shareTenths_rounds total (engagements (metrics d)) Hnonzero
                  (Hsmall d Hd)) as [[Hlo Hhi]|Htie].
      - split; [exact Hlo|apply Qlt_le_weak, Hhi].
      - rewrite Htie. split; lra. }
    rewrite Qsum_scaled in Hl, Hu.
    rewrite <- sumEngagements_sum in Hl, Hu. fold total in Hl, Hu.
    assert (Hone : (inject_Z total * (/ inject_Z total * 1000) == 1000)%Q)
      by (field; apply inject_Z_nonzero, Hnonzero).
    rewrite Hone in Hl, Hu.
    set (s := sum (map (fun d => shareTenths total (engagements (metrics d)))
                     weeklyDataArray)) in *.
    set (n := Z.of_nat (length weeklyDataArray)) in *.
    assert (Hl' : (inject_Z (2 * 1000 - n) <= inject_Z (2 * s))%Q).
    { unfold Z.sub. rewrite inject_Z_plus, inject_Z_opp, !inject_Z_mult.
      change (inject_Z 2) with 2%Q. change (inject_Z 1000) with 1000%Q. lra. }
    assert (Hu' : (inject_Z (2 * s) <= inject_Z (2 * 1000 + n))%Q).
    { rewrite inject_Z_plus, !inject_Z_mult.
      change (inject_Z 2) with 2%Q. change (inject_Z 1000) with 1000%Q. lra. }
    rewrite <- Zle_Qle in Hl', Hu'. lia. }
  intros Hpos Hnonneg.
  apply List.Forall_forall. intros t Ht.
  destruct (Hentry t Ht) as (d & -> & Hd).
  unfold entry. cbn [Distribution.percentage].
  assert (He : 0 <= engagements (metrics d) <= total).
  { unfold total. rewrite sumEngagements_sum.
    apply sum_nonnegative_ge.
    - apply Forall_map. exact Hnonneg.
    - apply (in_map (fun d => engagements (metrics d))), Hd. }
  apply percentage_range, shareTenths_range; assumption.
Qed.

(** Engagements of 23 and 57 total 80: the shares are 28.75% and
    71.25%, both halfway between two tenths, and the tenths returned
    are 287 and 713. *)
Lemma calculateEngagementDistribution_shares_witness :
  let result :=
    calculateEngagementDistribution
      [weekRecord "P1" 2025 1 "2025-01-01" 0 23;
       weekRecord "P2" 2025 1 "2025-01-01" 0 57] in
  map Distribution.percentage result = [js_div 713 10; js_div 287 10]
  /\ Forall
       (fun t =>
          rounds_half_up
            (inject_Z (Distribution.engagements t) / 80 * 1000)
            (shareTenths 80 (Distribution.engagements t))
          \/ (inject_Z (Distribution.engagements t) / 80 * 1000
              == inject_Z (shareTenths 80 (Distribution.engagements t)) + (1 # 2))%Q)
       result.
Proof.
  cbv zeta.
  destruct (calculateEngagementDistribution_shares
              [weekRecord "P1" 2025 1 "2025-01-01" 0 23;
               weekRecord "P2" 2025 1 "2025-01-01" 0 57])
    as (_ & _ & _ & Hsmall & _).
  split; [vm_compute; reflexivity|].
  apply Hsmall; [discriminate|].
  repeat constructor.
Defined.

(** ** weekly_analytics.js: statistics and the order of the records *)

Lemma Array_sort_ascending_Permutation (l l' : list Z) :
  Permutation l l' ->
  Array_sort (fun a b => a - b) l = Array_sort (fun a b => a - b) l'.
Proof.
  intros Hperm.
  destruct (ascending_sort_spec l) as [Hl Hsorted].
  destruct (ascending_sort_spec l') as [Hl' Hsorted'].
  apply (StronglySorted_unique Z.le); [exact Hsorted|exact Hsorted'|].
  rewrite Hl, Hl'. exact Hperm.
Qed.

Lemma at_index_range (l : list Z) (i : nat) (lo hi : Z) :
  Forall (fun v => lo <= v <= hi) l -> (i < length l)%nat ->
  lo <= at_index l i <= hi.
Proof.
  intros Hall Hi. rewrite List.Forall_forall in Hall.
  apply Hall. unfold at_index. apply nth_In, Hi.
Qed.

(** The statistics do not depend on the order of the records, and the
    average and the median lie between the least and the greatest
    value. *)
Theorem calculateMetricStatistics_order_independent
    (weeklyDataArray : list WeeklyPageData) (metric : MetricKey) :
  let stats := calculateMetricStatistics weeklyDataArray metric in
  (forall reordered : list WeeklyPageData,
     Permutation weeklyDataArray reordered ->
     calculateMetricStatistics reordered metric = stats)
  /\ Statistics.min stats <= Statistics.average stats <= Statistics.max stats
  /\ Statistics.min stats <= Statistics.median stats <= Statistics.max stats.
Proof.
  cbv zeta.
  destruct (decide (weeklyDataArray = [])) as [->|Hne].
  { split; [|cbn; lia].
    intros reordered Hperm. apply Permutation_nil in Hperm. subst. reflexivity. }
  set (values := map (metricValue metric) weeklyDataArray).
  assert (Hvalues : values <> [])
    by (unfold values; destruct weeklyDataArray; [congruence|discriminate]).
  split.
  { intros reordered Hperm.
    assert (Hne' : reordered <> []).
    { intros ->. apply Permutation_sym, Permutation_nil in Hperm. congruence. }
    assert (Hmap : Permutation (map (metricValue metric) reordered) values)
      by (apply Permutation_map, Permutation_sym, Hperm).
    unfold calculateMetricStatistics.
    replace ((length weeklyDataArray =? 0)%nat) with false
      by (destruct weeklyDataArray; [congruence|reflexivity]).
    replace ((length reordered =? 0)%nat) with false
      by (destruct reordered; [congruence|reflexivity]).
    cbv zeta. fold values.
    rewrite (Array_sort_ascending_Permutation _ _ Hmap).
    rewrite (sum_Permutation _ _ Hmap), (Permutation_length Hmap).
    rewrite (Math_min_Permutation _ values), (Math_max_Permutation _ values);
      [reflexivity| | | |]; try assumption;
      destruct reordered; (congruence || discriminate). }
  pose proof (Math_min_max_range values Hvalues) as Hrange.
  unfold calculateMetricStatistics.
  replace ((length weeklyDataArray =? 0)%nat) with false
    by (destruct weeklyDataArray; [congruence|reflexivity]).
  cbv zeta. fold values.
  cbn [Statistics.min Statistics.max Statistics.average Statistics.median].
  split.
  { pose proof (rounded_mean_bounds values _ _ Hvalues Hrange) as Hmean.
    rewrite calculateAverageReach_nonempty in Hmean by exact Hvalues.
    exact Hmean. }
  set (sorted := Array_sort (fun a b => a - b) values).
  assert (Hperm : Permutation sorted values) by apply ascending_sort_spec.
  assert (Hsorted : Forall (fun v => Math_min values <= v <= Math_max values) sorted)
    by (rewrite Hperm; exact Hrange).
  assert (Hlen : (0 < length sorted)%nat).
  { rewrite (Permutation_length Hperm).
    destruct values; [congruence|simpl; lia]. }
  assert (Hmid : (length sorted / 2 < length sorted)%nat)
    by (apply Nat.div_lt; lia).
  destruct (length sorted mod 2 =? 0)%nat;
    [|apply at_index_range; assumption].
  pose proof (at_index_range sorted (length sorted / 2 - 1) _ _ Hsorted
                ltac:(lia)) as Hlow.
  pose proof (at_index_range sorted (length sorted / 2) _ _ Hsorted Hmid) as Hhigh.
  pose proof (rounded_mean_bounds
                [at_index sorted (length sorted / 2 - 1);
                 at_index sorted (length sorted / 2)]
                (Math_min values) (Math_max values) ltac:(discriminate)
                ltac:(repeat constructor; lia)) as Hmean.
  rewrite calculateAverageReach_nonempty in Hmean by discriminate.
  rewrite (Math_round_comp _
             (inject_Z (at_index sorted (length sorted / 2 - 1)
                        + at_index sorted (length sorted / 2)) / 2)) in Hmean;
    [exact Hmean|].
  unfold sum. cbn [fold_left length Z.of_nat Pos.of_succ_nat Pos.succ].
  rewrite Z.add_0_l. reflexivity.
Qed.

(** ** period_extractor.js: missing weeks *)

Module PeriodExtractorFacts.
Import PeriodExtractor.

Lemma weeksFromTo_In (first last w : Z) :
  In w (weeksFromTo first last) <-> first <= w <= last.
Proof.
  unfold weeksFromTo. rewrite in_map_iff. split.
  - intros (i & <- & Hi). apply in_seq in Hi. lia.
  - intros Hw. exists (Z.to_nat (w - first)). split; [lia|].
    apply in_seq. lia.
Qed.

Lemma weeksFromTo_length (first last : Z) :
  first <= last ->
  Z.of_nat (length (weeksFromTo first last)) = last - first + 1.
Proof.
  intros Hle. unfold weeksFromTo. rewrite length_map, length_seq. lia.
Qed.

Lemma ascending_from (first : Z) (n start : nat) :
  StronglySorted Z.lt (map (fun i => first + Z.of_nat i) (seq start n)).
Proof.
  revert start. induction n as [|n IH]; intros start; [constructor|].
  cbn [seq map]. constructor; [apply IH|].
  apply List.Forall_forall. intros w Hw.
  apply in_map_iff in Hw as (i & <- & Hi). apply in_seq in Hi. lia.
Qed.

Lemma StronglySorted_filter_bool {A : Type} (R : A -> A -> Prop)
    (f : A -> bool) (l : list A) :
  StronglySorted R l -> StronglySorted R (List.filter f l).
Proof.
  induction 1 as [|x l Hsorted IH Hall]; [constructor|].
  cbn [List.filter]. destruct (f x); [|exact IH].
  constructor; [exact IH|].
  apply List.Forall_forall. intros y Hy. apply filter_In in Hy as [Hy _].
  rewrite List.Forall_forall in Hall. apply Hall, Hy.
Qed.

Lemma StronglySorted_lt_NoDup (l : list Z) :
  StronglySorted Z.lt l -> NoDup l.
Proof.
  induction 1 as [|x l Hsorted IH Hall]; [constructor|].
  constructor; [|exact IH].
  intros Hin. apply list_elem_of_In in Hin.
  rewrite List.Forall_forall in Hall. specialize (Hall x Hin). lia.
Qed.

Lemma Set_has_In (elements : list Z) (x : Z) :
  Set_has elements x = true <-> In x elements.
Proof.
  unfold Set_has. rewrite existsb_exists. split.
  - intros (y & Hy & Heq). apply Z.eqb_eq in Heq. subst. exact Hy.
  - intros Hx. exists x. split; [exact Hx|apply Z.eqb_refl].
Qed.

(** The loop of [findMissingWeeks] runs from the least to the greatest
    week. *)
Lemma findMissingWeeks_unfold (periods : list WeekPeriod) :
  periods <> [] ->
  findMissingWeeks periods
  = List.filter (fun w => negb (Set_has (map week periods) w))
      (weeksFromTo (Math_min (map week periods)) (Math_max (map week periods))).
Proof.
  intros Hne. unfold findMissingWeeks.
  replace ((length periods =? 0)%nat) with false
    by (destruct periods; [congruence|reflexivity]).
  cbv zeta.
  set (compareFn := fun a b : WeekPeriod => week a - week b).
  set (sorted := Array_sort compareFn periods).
  assert (Hperm : Permutation (map week sorted) (map week periods))
    by (apply Permutation_map, Array_sort_Permutation).
  assert (Hsorted : StronglySorted Z.le (map week sorted)).
  { apply StronglySorted_fmap with (R1 := before compareFn).
    - unfold before, compareFn. intros a b Hab. lia.
    - apply Array_sort_StronglySorted; unfold before, compareFn; intros; lia. }
  assert (Hweeks : map week periods <> [])
    by (destruct periods; [congruence|discriminate]).
  assert (Hlen : length (map week sorted) = length sorted) by apply length_map.
  assert (Hpos : (0 < length sorted)%nat).
  { rewrite <- Hlen, (Permutation_length Hperm).
    destruct (map week periods); [congruence|simpl; lia]. }
  destruct (Math_min_spec _ Hweeks) as [Hmin_in Hmin_le].
  destruct (Math_max_spec _ Hweeks) as [Hmax_in Hmax_ge].
  rewrite List.Forall_forall in Hmin_le, Hmax_ge.
  pose proof (at_index_lookup (map week sorted) 0 ltac:(lia)) as Hfirst.
  pose proof (at_index_lookup (map week sorted) (length sorted - 1) ltac:(lia))
    as Hlast.
  assert (Hbetween : forall w, In w (map week sorted) ->
            at_index (map week sorted) 0 <= w
            <= at_index (map week sorted) (length sorted - 1)).
  { intros w Hw. apply list_elem_of_In, list_elem_of_lookup in Hw as [i Hi].
    pose proof (lookup_lt_Some _ _ _ Hi) as Hbound.
    split.
    - apply (StronglySorted_lookup_le _ 0%nat i _ _ Hsorted Hfirst Hi). lia.
    - apply (StronglySorted_lookup_le _ i (length sorted - 1)%nat _ _
               Hsorted Hi Hlast). lia. }
  assert (Hfirst_in : In (at_index (map week sorted) 0) (map week periods)).
  { apply (Permutation_in _ Hperm), list_elem_of_In, list_elem_of_lookup.
    eauto. }
  assert (Hlast_in : In (at_index (map week sorted) (length sorted - 1))
                       (map week periods)).
  { apply (Permutation_in _ Hperm), list_elem_of_In, list_elem_of_lookup.
    eauto. }
  replace (at_index (map week sorted) 0) with (Math_min (map week periods)).
  2:{ apply Z.le_antisymm; [apply Hmin_le, Hfirst_in|].
      apply Hbetween, (Permutation_in _ (Permutation_sym Hperm)), Hmin_in. }
  replace (at_index (map week sorted) (length sorted - 1))
    with (Math_max (map week periods)).
  2:{ apply Z.le_antisymm; [|apply Hmax_ge, Hlast_in].
      apply Hbetween, (Permutation_in _ (Permutation_sym Hperm)), Hmax_in. }
  reflexivity.
Qed.

End PeriodExtractorFacts.

(** [findMissingWeeks] returns, in ascending order and each once, the
    week numbers that are no week of the list but lie between two weeks
    of the list; the result does not depend on the order of the
    periods.  When no week occurs twice, the missing weeks and the
    periods together count the weeks from the least to the greatest. *)
Theorem findMissingWeeks_gaps (periods : list WeekPeriod) :
  let weeks := map week periods in
  let missing := PeriodExtractor.findMissingWeeks periods in
  (forall w : Z,
     In w missing <->
     ~ In w weeks
     /\ (exists a, In a weeks /\ a < w) /\ (exists b, In b weeks /\ w < b))
  /\ StronglySorted Z.lt missing
  /\ (forall reordered : list WeekPeriod,
        Permutation periods reordered ->
        PeriodExtractor.findMissingWeeks reordered = missing)
  /\ (periods <> [] -> NoDup weeks ->
      Z.of_nat (length missing) + Z.of_nat (length periods)
      = Math_max weeks - Math_min weeks + 1).
Proof.
  cbv zeta.
  destruct (decide (periods = [])) as [->|Hne].
  { split.
    { intros w. split; [intros []|intros (_ & (a & [] & _) & _)]. }
    split; [constructor|].
    split; [|congruence].
    intros reordered Hperm. apply Permutation_nil in Hperm. subst. reflexivity. }
  assert (Hweeks : map week periods <> [])
    by (destruct periods; [congruence|discriminate]).
  destruct (Math_min_spec _ Hweeks) as [Hmin_in Hmin_le].
  destruct (Math_max_spec _ Hweeks) as [Hmax_in Hmax_ge].
  rewrite List.Forall_forall in Hmin_le, Hmax_ge.
  rewrite (PeriodExtractorFacts.findMissingWeeks_unfold _ Hne).
  split.
  { intros w. rewrite filter_In, PeriodExtractorFacts.weeksFromTo_In,
      negb_true_iff, <- not_true_iff_false, PeriodExtractorFacts.Set_has_In.
    split.
    - intros [Hrange Hnot]. split; [exact Hnot|]. split.
      + exists (Math_min (map week periods)). split; [exact Hmin_in|].
        destruct (Z.eq_dec (Math_min (map week periods)) w) as [<-|Hneq];
          [contradiction|lia].
      + exists (Math_max (map week periods)). split; [exact Hmax_in|].
        destruct (Z.eq_dec (Math_max (map week periods)) w) as [<-|Hneq];
          [contradiction|lia].
    - intros (Hnot & (a & Ha & Haw) & (b & Hb & Hwb)).
      split; [|exact Hnot].
      specialize (Hmin_le a Ha). specialize (Hmax_ge b Hb). lia. }
  split.
  { apply PeriodExtractorFacts.StronglySorted_filter_bool,
      PeriodExtractorFacts.ascending_from. }
  split.
  { intros reordered Hperm.
    assert (Hne' : reordered <> []).
    { intros ->. apply Permutation_sym, Permutation_nil in Hperm. congruence. }
    assert (Hmap : Permutation (map week periods) (map week reordered))
      by (apply Permutation_map, Hperm).
    rewrite (PeriodExtractorFacts.findMissingWeeks_unfold _ Hne').
    rewrite <- (Math_min_Permutation _ _ Hweeks Hmap),
      <- (Math_max_Permutation _ _ Hweeks Hmap).
    apply filter_ext. intros w. f_equal.
    apply eq_true_iff_eq. rewrite !PeriodExtractorFacts.Set_has_In.
    split; apply Permutation_in; [symmetry|]; exact Hmap. }
  intros _ Hnodup.
  set (range := PeriodExtractor.weeksFromTo (Math_min (map week periods))
                  (Math_max (map week periods))).
  assert (Hle : Math_min (map week periods) <= Math_max (map week periods))
    by (apply Hmin_le, Hmax_in).
  pose proof (PeriodExtractorFacts.weeksFromTo_length _ _ Hle) as Hrange.
  fold range in Hrange.
  pose proof (filter_length (PeriodExtractor.Set_has (map week periods)) range)
    as Hsplit.
  assert (Hpresent : Permutation
                       (List.filter (PeriodExtractor.Set_has (map week periods)) range)
                       (map week periods)).
  { apply NoDup_Permutation; [| exact Hnodup |].
    - apply NoDup_ListNoDup, List.NoDup_filter, NoDup_ListNoDup.
      apply PeriodExtractorFacts.StronglySorted_lt_NoDup,
        PeriodExtractorFacts.ascending_from.
    - intros w. rewrite !list_elem_of_In, filter_In.
      unfold range.
      rewrite PeriodExtractorFacts.weeksFromTo_In,
        PeriodExtractorFacts.Set_has_In.
      split; [tauto|]. intros Hw. split; [|exact Hw].
      split; [apply Hmin_le, Hw|apply Hmax_ge, Hw]. }
  apply Permutation_length in Hpresent. rewrite length_map in Hpresent.
  lia.
Qed.

(** ** period_extractor.js: duplicate periods *)

Lemma sequenceStep_fold (visited : list WeekPeriod) :
  let state :=
    fold_left PeriodExtractor.sequenceStep visited
      ({| PeriodExtractor.PeriodSequence.isValid := true;
          PeriodExtractor.PeriodSequence.duplicates := [] |}, []) in
  snd state = Set_of (map getPeriodKey visited)
  /\ (PeriodExtractor.PeriodSequence.isValid (fst state) = true <->
      PeriodExtractor.PeriodSequence.duplicates (fst state) = [])
  /\ (PeriodExtractor.PeriodSequence.isValid (fst state) = true <->
      NoDup (map getPeriodKey visited))
  /\ (length (PeriodExtractor.PeriodSequence.duplicates (fst state))
      + length (snd state) = length visited)%nat
  /\ (forall p : WeekPeriod,
        In p (PeriodExtractor.PeriodSequence.duplicates (fst state)) <->
        exists earlier later,
          visited = earlier ++ p :: later
          /\ In (getPeriodKey p) (map getPeriodKey earlier)).
Proof.
  cbv zeta.
  induction visited as [|x visited IH] using rev_ind.
  { cbn. split; [reflexivity|]. split; [tauto|].
    split; [split; [constructor|reflexivity]|]. split; [reflexivity|].
    intros p. split; [intros []|].
    intros (earlier & later & Heq & _). destruct earlier; discriminate. }
  rewrite fold_left_app. cbn [fold_left].
  destruct (fold_left PeriodExtractor.sequenceStep visited _)
    as [result seen] eqn:Hfold.
  cbn [fst snd] in IH. destruct IH as (Hseen & Hflag & Hnodup & Hcount & Hdups).
  assert (Hkeys : forall k, k ∈ seen <-> In k (map getPeriodKey visited)).
  { intros k. rewrite Hseen, list_elem_of_In. apply Set_of_spec. }
  unfold PeriodExtractor.sequenceStep.
  change (Number_toString (year x) +:+ "_" +:+ Number_toString (week x))
    with (getPeriodKey x).
  rewrite map_app. cbn [map].
  unfold Set_of. rewrite fold_left_app. cbn [fold_left].
  fold (Set_of (map getPeriodKey visited)). rewrite <- Hseen.
  unfold Set_add.
  case_bool_decide as Hin; cbn [fst snd PeriodExtractor.PeriodSequence.isValid
                                  PeriodExtractor.PeriodSequence.duplicates].
  - split; [reflexivity|].
    split; [split; [discriminate|intros Heq; destruct (app_cons_not_nil _ _ _ (eq_sym Heq))]|].
    split.
    { split; [discriminate|]. intros Hnd.
      apply NoDup_app in Hnd as (_ & Hdisjoint & _).
      destruct (Hdisjoint (getPeriodKey x)); [|left].
      apply list_elem_of_In, Hkeys, Hin. }
    split; [rewrite !length_app; simpl; lia|].
    intros p. rewrite in_app_iff, Hdups. split.
    + intros [(earlier & later & -> & Hearlier)|[<-|[]]].
      * exists earlier, (later ++ [x]).
        split; [rewrite <- app_assoc; reflexivity|exact Hearlier].
      * exists visited, []. split; [reflexivity|]. apply Hkeys, Hin.
    + intros (earlier & later & Heq & Hearlier).
      destruct later as [|y later _] using rev_ind.
      * apply app_inj_tail in Heq as [-> ->]. right. left. reflexivity.
      * left. exists earlier, later.
        change (earlier ++ p :: later ++ [y])
          with (earlier ++ (p :: later) ++ [y]) in Heq.
        rewrite app_assoc in Heq. apply app_inj_tail in Heq as [-> _].
        split; [reflexivity|exact Hearlier].
  - split; [reflexivity|]. split; [exact Hflag|].
    split.
    { rewrite Hnodup. split.
      - intros Hnd. apply NoDup_app. split; [exact Hnd|].
        split; [|apply NoDup_singleton].
        intros k Hk Hx. apply list_elem_of_In in Hx as [<-|[]].
        apply Hin, Hkeys, list_elem_of_In, Hk.
      - intros Hnd. apply NoDup_app in Hnd as (Hnd & _). exact Hnd. }
    split; [rewrite !length_app; simpl; lia|].
    intros p. rewrite Hdups. split.
    + intros (earlier & later & -> & Hearlier).
      exists earlier, (later ++ [x]).
      split; [rewrite <- app_assoc; reflexivity|exact Hearlier].
    + intros (earlier & later & Heq & Hearlier).
      destruct later as [|y later _] using rev_ind.
      * apply app_inj_tail in Heq as [-> ->].
        destruct Hin. apply Hkeys, Hearlier.
      * exists earlier, later.
        change (earlier ++ p :: later ++ [y])
          with (earlier ++ (p :: later) ++ [y]) in Heq.
        rewrite app_assoc in Heq. apply app_inj_tail in Heq as [-> _].
        split; [reflexivity|exact Hearlier].
Qed.

(** [validatePeriodSequence] reports as duplicates exactly the periods
    that follow a period of the same year and week, and [isValid]
    exactly when there is none, that is when no two periods share year
    and week; the duplicates and the periods that [getUniquePeriods]
    keeps together count the input. *)
Theorem validatePeriodSequence_duplicates (periods : list WeekPeriod) :
  let result := PeriodExtractor.validatePeriodSequence periods in
  (PeriodExtractor.PeriodSequence.isValid result = true <->
   PeriodExtractor.PeriodSequence.duplicates result = [])
  /\ (PeriodExtractor.PeriodSequence.isValid result = true <->
      NoDup (map (fun p => (year p, week p)) periods))
  /\ (forall p : WeekPeriod,
        In p (PeriodExtractor.PeriodSequence.duplicates result) <->
        exists earlier later q,
          periods = earlier ++ p :: later
          /\ In q earlier /\ year q = year p /\ week q = week p)
  /\ (forall data : list WeeklyPageData,
        periods = map period data ->
        (length (PeriodExtractor.PeriodSequence.duplicates result)
         + length (WeeklyModels.getUniquePeriods data) = length data)%nat).
Proof.
  cbv zeta.
  assert (Hresult :
            PeriodExtractor.validatePeriodSequence periods
            = fst (fold_left PeriodExtractor.sequenceStep periods
                     ({| PeriodExtractor.PeriodSequence.isValid := true;
                         PeriodExtractor.PeriodSequence.duplicates := [] |}, [])))
    by (destruct periods; reflexivity).
  rewrite Hresult.
  destruct (sequenceStep_fold periods) as (Hseen & Hflag & Hnodup & Hcount & Hdups).
  split; [exact Hflag|]. split.
  { rewrite Hnodup.
    assert (Hinj : forall p q : WeekPeriod,
              getPeriodKey p = getPeriodKey q <->
              (year p, week p) = (year q, week q)).
    { intros p q. rewrite getPeriodKey_same_iff. split.
      - intros [-> ->]. reflexivity.
      - intros [= -> ->]. split; reflexivity. }
    clear - Hinj. induction periods as [|p periods IH]; cbn [map].
    - split; constructor.
    - rewrite !NoDup_cons, IH, !list_elem_of_In, !in_map_iff.
      split; intros [Hnot Hnd]; (split; [|exact Hnd]);
        intros (q & Heq & Hq); apply Hnot; exists q;
        (split; [apply Hinj; exact Heq|exact Hq]). }
  split.
  { intros p. rewrite Hdups. split.
    - intros (earlier & later & Heq & Hearlier).
      apply in_map_iff in Hearlier as (q & Hkey & Hq).
      apply getPeriodKey_same_iff in Hkey as [Hy Hw].
      exists earlier, later, q. repeat split; assumption.
    - intros (earlier & later & q & Heq & Hq & Hy & Hw).
      exists earlier, later. split; [exact Heq|].
      apply in_map_iff. exists q. split; [|exact Hq].
      apply getPeriodKey_same_iff. split; assumption. }
  intros data ->.
  rewrite <- (length_map getPeriodKey (WeeklyModels.getUniquePeriods data)).
  rewrite (Permutation_length (getUniquePeriods_keys data)).
  rewrite Hseen, length_map, map_map in Hcount. exact Hcount.
Qed.

(** ** metric_categorizer.js: the views agree with the lookups *)

Module MetricViewsFacts.
Import MetricCategorizer MetricViews MetricCategorizerFacts.

Lemma registered_cases (k : string) :
  (k = "reach"%string \/ k = "engagements"%string
   \/ k = "status"%string \/ k = "comment"%string)
  \/ METRIC_DEFINITIONS !! k = None.
Proof.
  destruct (METRIC_DEFINITIONS !! k) as [d|] eqn:Hk; [left|right; reflexivity].
  apply METRIC_DEFINITIONS_lookup in Hk. tauto.
Qed.

Lemma js_get_unregistered (k : string) :
  METRIC_DEFINITIONS !! k = None ->
  js_get METRIC_DEFINITIONS k = Inherited
  \/ js_get METRIC_DEFINITIONS k = Undefined.
Proof.
  intros Hk. unfold js_get. rewrite Hk.
  destruct (bool_decide (k ∈ Object_prototype_keys)); [left|right]; reflexivity.
Qed.

End MetricViewsFacts.

(** For every string used as a metric key, registered or not, the views
    of the registry agree with the lookups: the summable metrics are the
    keys [canSumMetric] accepts and the ones valid with ['sum'], the
    non-summable metrics are the keys whose aggregation method is
    ['average'], the numeric metrics are those two views together, two
    keys can be compared exactly when both are numeric, and the options
    without metadata are the numeric metrics. *)
Theorem metric_views_agree_with_lookups :
  (forall k : string,
     (In k MetricViews.getSummableMetrics <->
      MetricCategorizer.canSumMetric k = MetricCategorizer.boolean true)
     /\ (In k MetricViews.getSummableMetrics <->
         MetricCategorizer.isValid
           (MetricCategorizer.validateAggregationMethod k "sum") = true)
     /\ (In k MetricViews.getNonSummableMetrics <->
         MetricCategorizer.getAggregationMethod k
         = MetricCategorizer.text "average")
     /\ (In k MetricViews.getNonSummableMetrics <->
         MetricCategorizer.isValid
           (MetricCategorizer.validateAggregationMethod k "average") = true)
     /\ (In k MetricViews.getMetadataFields <->
         MetricCategorizer.isValid
           (MetricCategorizer.validateAggregationMethod k "none") = true)
     /\ (In k MetricViews.getNumericMetrics <->
         In k MetricViews.getSummableMetrics
         \/ In k MetricViews.getNonSummableMetrics)
     /\ (MetricCategorizer.METRIC_DEFINITIONS !! k <> None <->
         In k MetricViews.getNumericMetrics
         \/ In k MetricViews.getMetadataFields)
     /\ ~ (In k MetricViews.getNumericMetrics
           /\ In k MetricViews.getMetadataFields)
     /\ ~ (In k MetricViews.getSummableMetrics
           /\ In k MetricViews.getNonSummableMetrics))
  /\ (forall a b : string,
        MetricViews.canCompareMetrics a b = true <->
        In a MetricViews.getNumericMetrics /\ In b MetricViews.getNumericMetrics)
  /\ map MetricViews.optionKey (MetricViews.getMetricOptions false)
     = MetricViews.getNumericMetrics
  /\ map MetricViews.optionKey (MetricViews.getMetricOptions true)
     = MetricViews.Object_keys_METRIC_DEFINITIONS.
Proof.
  assert (Hviews :
            MetricViews.getSummableMetrics = ["engagements"%string]
            /\ MetricViews.getNonSummableMetrics = ["reach"%string]
            /\ MetricViews.getNumericMetrics = ["reach"; "engagements"]%string
            /\ MetricViews.getMetadataFields = ["status"; "comment"]%string)
    by (repeat split; reflexivity).
  destruct Hviews as (-> & -> & -> & ->).
  split.
  { intros k.
    destruct (MetricViewsFacts.registered_cases k)
      as [[-> | [-> | [-> | ->]]] | Hnone].
    1-4: cbn; repeat split; intros; try discriminate; intuition discriminate.
    assert (Hk : k <> "reach"%string /\ k <> "engagements"%string
                 /\ k <> "status"%string /\ k <> "comment"%string)
      by (apply MetricCategorizerFacts.METRIC_DEFINITIONS_unregistered, Hnone).
    unfold MetricCategorizer.canSumMetric,
      MetricCategorizer.getAggregationMethod,
      MetricCategorizer.validateAggregationMethod.
    destruct (MetricViewsFacts.js_get_unregistered k Hnone)
      as [-> | ->];
      cbn; repeat split; intros; try discriminate; try congruence;
      intuition (discriminate || congruence). }
  split.
  { intros a b. unfold MetricViews.canCompareMetrics, MetricViews.isNumber.
    destruct (MetricViewsFacts.registered_cases a)
      as [[-> | [-> | [-> | ->]]] | Ha];
      destruct (MetricViewsFacts.registered_cases b)
        as [[-> | [-> | [-> | ->]]] | Hb];
      try (cbn; split; intros; try discriminate; intuition discriminate).
    all: try (assert (Hb' := MetricCategorizerFacts.METRIC_DEFINITIONS_unregistered b);
              apply Hb' in Hb;
              destruct (MetricViewsFacts.js_get_unregistered b
                          (proj2 Hb' Hb)) as [-> | ->]).
    all: try (assert (Ha' := MetricCategorizerFacts.METRIC_DEFINITIONS_unregistered a);
              apply Ha' in Ha;
              destruct (MetricViewsFacts.js_get_unregistered a
                          (proj2 Ha' Ha)) as [-> | ->]).
    all: cbn; split; intros; try discriminate; intuition (discriminate || congruence). }
  split; reflexivity.
Qed.

(** ** period_extractor.js: the week in a file name *)

Module FilenameFacts.
Import Filename.

Lemma literally_spec (literal s rest : list ascii) :
  literally literal s = Some rest <->
  exists word,
    s = word ++ rest
    /\ Forall2 (fun c l => sameIgnoringCase c l = true) word literal.
Proof.
  revert s. induction literal as [|l literal IH]; intros s; cbn [literally].
  - split.
    + intros [= ->]. exists []. split; [reflexivity|constructor].
    + intros (word & -> & Hword). inversion Hword. reflexivity.
  - destruct s as [|c s].
    + split; [discriminate|].
      intros (word & Heq & Hword). inversion Hword; subst. discriminate.
    + destruct (sameIgnoringCase c l) eqn:Hc.
      * rewrite IH. split.
        -- intros (word & -> & Hword). exists (c :: word).
           split; [reflexivity|constructor; assumption].
        -- intros (word & Heq & Hword).
           inversion Hword as [|c' l' word' literal' Hc' Hword']; subst.
           injection Heq as <- ->. exists word'. split; [reflexivity|assumption].
      * split; [discriminate|].
        intros (word & Heq & Hword).
        inversion Hword as [|c' l' word' literal' Hc' Hword']; subst.
        injection Heq as <- _. congruence.
Qed.

Lemma digit_not_separator (c : ascii) :
  isDigit c = true -> isSeparator c = false.
Proof. destruct c as [[] [] [] [] [] [] [] []]; vm_compute; congruence. Qed.

Lemma digit_not_dot (c : ascii) :
  isDigit c = true -> sameIgnoringCase c "." = false.
Proof. destruct c as [[] [] [] [] [] [] [] []]; vm_compute; congruence. Qed.

Lemma digit_not_v (c : ascii) :
  isDigit c = true -> sameIgnoringCase c "v" = false.
Proof. destruct c as [[] [] [] [] [] [] [] []]; vm_compute; congruence. Qed.

Lemma digit_not_k (c : ascii) :
  isDigit c = true -> sameIgnoringCase c "k" = false.
Proof. destruct c as [[] [] [] [] [] [] [] []]; vm_compute; congruence. Qed.

Lemma optionalCsvThenEnd_spec (s : list ascii) :
  optionalCsvThenEnd s = true <->
  s = []
  \/ Forall2 (fun c l => sameIgnoringCase c l = true) s
       (list_ascii_of_string ".csv").
Proof.
  unfold optionalCsvThenEnd.
  destruct (literally (list_ascii_of_string ".csv") s) as [rest|] eqn:Hlit.
  - apply literally_spec in Hlit as (word & -> & Hword).
    destruct rest as [|r rest].
    + rewrite app_nil_r. split; [intros _; right; exact Hword|reflexivity].
    + split.
      * destruct word; [inversion Hword|discriminate].
      * intros [Heq|Hall]; [destruct word; discriminate|].
        apply Forall2_length in Hall. apply Forall2_length in Hword.
        rewrite length_app in Hall. simpl in Hall, Hword. lia.
  - split.
    + destruct s; [left; reflexivity|discriminate].
    + intros [->|Hall]; [reflexivity|].
      assert (Hsome : literally (list_ascii_of_string ".csv") s = Some [])
        by (apply literally_spec; exists s; rewrite app_nil_r; split;
            [reflexivity|exact Hall]).
      congruence.
Qed.

Lemma csvThenEnd_spec (s : list ascii) :
  csvThenEnd s = true <->
  Forall2 (fun c l => sameIgnoringCase c l = true) s
    (list_ascii_of_string ".csv").
Proof.
  unfold csvThenEnd.
  destruct (literally (list_ascii_of_string ".csv") s) as [rest|] eqn:Hlit.
  - apply literally_spec in Hlit as (word & -> & Hword).
    destruct rest as [|r rest].
    + rewrite app_nil_r. split; [intros _; exact Hword|reflexivity].
    + split; [discriminate|]. intros Hall.
      apply Forall2_length in Hall. apply Forall2_length in Hword.
      rewrite length_app in Hall. simpl in Hall, Hword. lia.
  - split; [discriminate|]. intros Hall.
    assert (Hsome : literally (list_ascii_of_string ".csv") s = Some [])
      by (apply literally_spec; exists s; rewrite app_nil_r; split;
          [reflexivity|exact Hall]).
    congruence.
Qed.

Section Pattern.
Variable tail : list ascii -> bool.
Hypothesis tail_no_digit :
  forall c rest, isDigit c = true -> tail (c :: rest) = false.

Lemma digitsThen_spec (s group : list ascii) :
  digitsThen tail s = Some group <->
  exists rest,
    s = group ++ rest
    /\ (1 <= length group <= 2)%nat
    /\ Forall (fun c => isDigit c = true) group
    /\ tail rest = true.
Proof.
  unfold digitsThen. split.
  - destruct s as [|d1 [|d2 rest]]; [discriminate| |].
    + destruct (isDigit d1) eqn:H1; [|discriminate].
      destruct (tail []) eqn:Ht; [|discriminate].
      intros [= <-]. exists []. repeat split; simpl; try lia; try assumption.
      repeat constructor. exact H1.
    + destruct (isDigit d1) eqn:H1; [|discriminate].
      destruct (isDigit d2) eqn:H2; cbn [andb].
      * destruct (tail rest) eqn:Ht.
        -- intros [= <-]. exists rest.
           repeat split; simpl; try lia; try assumption.
           repeat constructor; assumption.
        -- rewrite (tail_no_digit d2 rest H2). discriminate.
      * destruct (tail (d2 :: rest)) eqn:Ht; [|discriminate].
        intros [= <-]. exists (d2 :: rest).
        repeat split; simpl; try lia; try assumption.
        repeat constructor. exact H1.
  - intros (rest & -> & Hlen & Hdigits & Htail).
    destruct group as [|d1 [|d2 [|d3 group]]]; simpl in Hlen; try lia.
    + inversion Hdigits as [|? ? H1 _]; subst.
      destruct rest as [|r rest]; cbn [app].
      * rewrite H1, Htail. reflexivity.
      * rewrite H1. cbn [andb].
        destruct (isDigit r) eqn:Hr.
        -- rewrite (tail_no_digit r rest Hr) in Htail. discriminate.
        -- cbn [andb]. rewrite Htail. reflexivity.
    + inversion Hdigits as [|? ? H1 Hrest]; subst.
      inversion Hrest as [|? ? H2 _]; subst.
      cbn [app]. rewrite H1, H2, Htail. reflexivity.
Qed.

Lemma digitsThen_starts_with_digit (c : ascii) (s : list ascii) :
  isDigit c = false -> digitsThen tail (c :: s) = None.
Proof.
  intros Hc. unfold digitsThen. destruct s; rewrite Hc; reflexivity.
Qed.

Lemma separator_not_digit (c : ascii) :
  isSeparator c = true -> isDigit c = false.
Proof.
  intros Hc. destruct (isDigit c) eqn:Hd; [|reflexivity].
  rewrite (digit_not_separator c Hd) in Hc. discriminate.
Qed.

Lemma weekPatternAt_spec (s group : list ascii) :
  weekPatternAt tail s = Some group <->
  exists word separator rest,
    s = word ++ separator ++ group ++ rest
    /\ Forall2 (fun c l => sameIgnoringCase c l = true) word
         (list_ascii_of_string "week")
    /\ (separator = [] \/ exists c, separator = [c] /\ isSeparator c = true)
    /\ (1 <= length group <= 2)%nat
    /\ Forall (fun c => isDigit c = true) group
    /\ tail rest = true.
Proof.
  unfold weekPatternAt. split.
  - destruct (literally (list_ascii_of_string "week") s) as [r|] eqn:Hlit;
      [|discriminate].
    apply literally_spec in Hlit as (word & -> & Hword).
    unfold optionalSeparatorThen.
    destruct r as [|c r].
    + intros Hnext. apply digitsThen_spec in Hnext as (rest & Heq & Hlen & _).
      destruct group; [simpl in Hlen; lia|discriminate].
    + destruct (isSeparator c) eqn:Hc.
      * destruct (digitsThen tail r) as [g|] eqn:Hnext.
        -- intros [= ->].
           apply digitsThen_spec in Hnext as (rest & -> & Hlen & Hdigits & Htail).
           exists word, [c], rest. repeat split; try assumption; try lia.
           right. exists c. split; [reflexivity|exact Hc].
        -- rewrite (digitsThen_starts_with_digit c r (separator_not_digit c Hc)).
           discriminate.
      * intros Hnext.
        apply digitsThen_spec in Hnext as (rest & Heq & Hlen & Hdigits & Htail).
        exists word, [], rest. rewrite Heq.
        repeat split; try assumption; try lia. left. reflexivity.
  - intros (word & separator & rest & -> & Hword & Hsep & Hlen & Hdigits & Htail).
    assert (Hlit : literally (list_ascii_of_string "week")
                     (word ++ separator ++ group ++ rest)
                   = Some (separator ++ group ++ rest))
      by (apply literally_spec; exists word; split; [reflexivity|exact Hword]).
    rewrite Hlit.
    assert (Hnext : digitsThen tail (group ++ rest) = Some group)
      by (apply digitsThen_spec; exists rest; repeat split; assumption || lia).
    destruct Hsep as [->|(c & -> & Hc)].
    + cbn [app]. unfold optionalSeparatorThen.
      destruct group as [|d group]; [simpl in Hlen; lia|].
      inversion Hdigits as [|? ? Hd _]; subst. cbn [app] in *.
      rewrite (digit_not_separator d Hd). exact Hnext.
    + cbn [app]. unfold optionalSeparatorThen. rewrite Hc, Hnext. reflexivity.
Qed.

End Pattern.

Lemma firstMatch_sound (pattern : list ascii -> option (list ascii))
    (s group : list ascii) :
  firstMatch pattern s = Some group ->
  exists before s', s = before ++ s' /\ pattern s' = Some group.
Proof.
  induction s as [|c s IH]; cbn [firstMatch].
  - destruct (pattern []) as [g|] eqn:Hp; [|discriminate].
    intros [= ->]. exists [], []. split; [reflexivity|exact Hp].
  - destruct (pattern (c :: s)) as [g|] eqn:Hp.
    + intros [= ->]. exists [], (c :: s). split; [reflexivity|exact Hp].
    + intros Hrest. destruct (IH Hrest) as (before & s' & -> & Hs').
      exists (c :: before), s'. split; [reflexivity|exact Hs'].
Qed.

Lemma firstMatch_complete (pattern : list ascii -> option (list ascii))
    (before s group : list ascii) :
  pattern s = Some group ->
  exists group', firstMatch pattern (before ++ s) = Some group'.
Proof.
  intros Hs. induction before as [|c before IH]; cbn [app].
  - exists group. destruct s; cbn [firstMatch]; rewrite Hs; reflexivity.
  - cbn [firstMatch]. destruct (pattern (c :: before ++ s)) as [g|].
    + exists g. reflexivity.
    + exact IH.
Qed.

Lemma optionalCsvThenEnd_no_digit (c : ascii) (rest : list ascii) :
  isDigit c = true -> optionalCsvThenEnd (c :: rest) = false.
Proof.
  intros Hc. unfold optionalCsvThenEnd. cbn [list_ascii_of_string literally].
  rewrite (digit_not_dot c Hc). reflexivity.
Qed.

Lemma csvThenEnd_no_digit (c : ascii) (rest : list ascii) :
  isDigit c = true -> csvThenEnd (c :: rest) = false.
Proof.
  intros Hc. unfold csvThenEnd. cbn [list_ascii_of_string literally].
  rewrite (digit_not_dot c Hc). reflexivity.
Qed.

End FilenameFacts.

Module FilenameUnique.
Import Filename FilenameFacts.

(** The character in front of the digits is no digit. *)
Lemma before_digits (word separator : list ascii) :
  Forall2 (fun c l => sameIgnoringCase c l = true) word
    (list_ascii_of_string "week") ->
  (separator = [] \/ exists c, separator = [c] /\ isSeparator c = true) ->
  exists front x, word ++ separator = front ++ [x] /\ isDigit x = false.
Proof.
  intros Hword Hsep.
  destruct Hsep as [->|(c & -> & Hc)].
  - rewrite app_nil_r.
    inversion Hword as [|w1 ? ? ? _ H1]; subst.
    inversion H1 as [|w2 ? ? ? _ H2]; subst.
    inversion H2 as [|w3 ? ? ? _ H3]; subst.
    inversion H3 as [|w4 ? ? ? Hk H4]; subst.
    inversion H4; subst.
    exists [w1; w2; w3], w4. split; [reflexivity|].
    destruct (isDigit w4) eqn:Hd; [|reflexivity].
    rewrite (digit_not_k w4 Hd) in Hk. discriminate.
  - exists word, c. split; [reflexivity|apply separator_not_digit, Hc].
Qed.

Lemma digits_at_end_unique (front1 front2 group1 group2 rest1 rest2 : list ascii)
    (x1 x2 : ascii) :
  front1 ++ [x1] ++ group1 ++ rest1 = front2 ++ [x2] ++ group2 ++ rest2 ->
  isDigit x1 = false -> isDigit x2 = false ->
  (1 <= length group1 <= 2)%nat -> (1 <= length group2 <= 2)%nat ->
  Forall (fun c => isDigit c = true) group1 ->
  Forall (fun c => isDigit c = true) group2 ->
  optionalCsvThenEnd rest1 = true -> optionalCsvThenEnd rest2 = true ->
  group1 = group2.
Proof.
  intros Heq Hx1 Hx2 Hlen1 Hlen2 Hd1 Hd2 Hrest1 Hrest2.
  apply (f_equal (@rev ascii)) in Heq.
  rewrite !rev_app_distr in Heq. rewrite <- !app_assoc in Heq.
  apply optionalCsvThenEnd_spec in Hrest1, Hrest2.
  assert (Hv : forall c, isDigit c = true -> sameIgnoringCase c "v" = true -> False)
    by (intros c Hc Hv; rewrite (digit_not_v c Hc) in Hv; discriminate).
  destruct group1 as [|a1 [|b1 [|? ?]]]; simpl in Hlen1; try lia;
    destruct group2 as [|a2 [|b2 [|? ?]]]; simpl in Hlen2; try lia;
    repeat match goal with
           | H : Forall _ (_ :: _) |- _ => inversion H; clear H; subst
           end;
    destruct Hrest1 as [->|Hr1]; destruct Hrest2 as [->|Hr2];
    repeat match goal with
           | H : Forall2 _ _ (list_ascii_of_string _) |- _ =>
               cbn [list_ascii_of_string] in H
           | H : Forall2 _ _ (_ :: _) |- _ => inversion H; clear H; subst
           | H : Forall2 _ _ [] |- _ => inversion H; clear H; subst
           end;
    cbn [rev app] in Heq; injection Heq; intros; subst;
    try reflexivity; try congruence; exfalso; eauto.
Qed.

End FilenameUnique.

Module FilenameSearch.
Import Filename FilenameFacts FilenameUnique.

(** The group that the pattern of [extractWeekFromFilename] captures:
    the digits of any reading of the name as a week file. *)
Lemma firstMatch_namesWeek (s group : list ascii) :
  firstMatch (weekPatternAt optionalCsvThenEnd) s = Some group <->
  exists before word separator extension,
    namesWeek s before word separator group extension.
Proof.
  split.
  - intros Hfirst.
    apply firstMatch_sound in Hfirst as (before & s' & -> & Hs').
    apply (weekPatternAt_spec _ optionalCsvThenEnd_no_digit) in Hs'
      as (word & separator & rest & -> & Hword & Hsep & Hlen & Hdigits & Htail).
    exists before, word, separator, rest.
    repeat split; try assumption; try lia.
    apply optionalCsvThenEnd_spec, Htail.
  - intros (before & word & separator & extension & Hnames).
    destruct Hnames as (-> & Hword & Hsep & Hlen & Hdigits & Hext).
    assert (Htail : optionalCsvThenEnd extension = true)
      by (apply optionalCsvThenEnd_spec, Hext).
    assert (Hhere : weekPatternAt optionalCsvThenEnd
                      (word ++ separator ++ group ++ extension)
                    = Some group).
    { apply (weekPatternAt_spec _ optionalCsvThenEnd_no_digit).
      exists word, separator, extension. repeat split; assumption || lia. }
    destruct (firstMatch_complete _ before _ _ Hhere) as [group' Hfirst].
    rewrite Hfirst. f_equal.
    apply firstMatch_sound in Hfirst as (before' & s' & Heq & Hs').
    apply (weekPatternAt_spec _ optionalCsvThenEnd_no_digit) in Hs'
      as (word' & separator' & rest' & -> & Hword' & Hsep' & Hlen' & Hdigits'
          & Htail').
    destruct (before_digits word separator Hword Hsep) as (front & x & Hfront & Hx).
    destruct (before_digits word' separator' Hword' Hsep')
      as (front' & x' & Hfront' & Hx').
    apply (digits_at_end_unique (before' ++ front') (before ++ front)
             group' group rest' extension x' x); try assumption.
    rewrite <- !app_assoc.
    rewrite (app_assoc front' [x']), (app_assoc front [x]).
    rewrite <- Hfront, <- Hfront', <- !app_assoc. symmetry. exact Heq.
Qed.

Lemma lower_of_same (c l : ascii) :
  In l (list_ascii_of_string ".csv") ->
  sameIgnoringCase c l = true -> toLowerCase c = l.
Proof.
  intros [<-|[<-|[<-|[<-|[]]]]];
    destruct c as [[] [] [] [] [] [] [] []]; vm_compute; congruence.
Qed.

Lemma same_as_lower (extension literal : list ascii) :
  (forall l, In l literal -> In l (list_ascii_of_string ".csv")) ->
  Forall2 (fun c l => sameIgnoringCase c l = true) extension literal ->
  map toLowerCase extension = literal.
Proof.
  intros Hin Hext.
  induction Hext as [|c l extension literal Hc _ IH]; [reflexivity|].
  cbn [map]. rewrite IH by (intros l' Hl'; apply Hin; right; exact Hl').
  rewrite (lower_of_same c l); [reflexivity| |exact Hc].
  apply Hin. left. reflexivity.
Qed.

Lemma same_as_csv_lower (extension : list ascii) :
  Forall2 (fun c l => sameIgnoringCase c l = true) extension
    (list_ascii_of_string ".csv") ->
  map toLowerCase extension = list_ascii_of_string ".csv".
Proof. apply same_as_lower. intros l Hl. exact Hl. Qed.

(** The standard names of weeks 1 to 53, checked one by one. *)
Lemma standard_names_accepted :
  forallb
    (fun w =>
       match extractWeekFromFilename (createStandardFilename w) with
       | Some w' => w' =? w
       | None => false
       end
       && isValid (validateFilenameAndExtractPeriod (createStandardFilename w))
       && (length (errors (validateFilenameAndExtractPeriod
                             (createStandardFilename w))) =? 0)%nat
       && match period (validateFilenameAndExtractPeriod
                          (createStandardFilename w)) with
          | Some p =>
              (week p =? w) && String.eqb (filename p) (createStandardFilename w)
          | None => false
          end)
    (map Z.of_nat (seq 1 53))
  = true.
Proof. vm_compute. reflexivity. Qed.

End FilenameSearch.

Module FilenameRules.
Import Filename FilenameFacts FilenameUnique FilenameSearch.

Lemma extractWeekFromFilename_spec (name : string) (w : Z) :
  extractWeekFromFilename name = Some w <->
  1 <= w <= 53
  /\ exists before word separator digits extension,
       namesWeek (list_ascii_of_string name) before word separator digits
         extension
       /\ parseInt digits = w.
Proof.
  unfold extractWeekFromFilename. split.
  - destruct (firstMatch _ _) as [group|] eqn:Hfirst; [|discriminate].
    cbv zeta.
    destruct (Z.leb_spec 1 (parseInt group)); [|discriminate].
    destruct (Z.leb_spec (parseInt group) 53); [|discriminate].
    intros [= <-]. split; [lia|].
    apply firstMatch_namesWeek in Hfirst
      as (before & word & separator & extension & Hnames).
    exists before, word, separator, group, extension.
    split; [exact Hnames|reflexivity].
  - intros (Hrange & before & word & separator & digits & extension & Hnames & <-).
    assert (Hfirst : firstMatch (weekPatternAt optionalCsvThenEnd)
                       (list_ascii_of_string name) = Some digits)
      by (apply firstMatch_namesWeek; eauto).
    rewrite Hfirst. cbv zeta.
    destruct (Z.leb_spec 1 (parseInt digits)); [|lia].
    destruct (Z.leb_spec (parseInt digits) 53); [|lia].
    reflexivity.
Qed.

Lemma matchesAcceptedPattern_spec (name : string) :
  matchesAcceptedPattern name = true <->
  exists word separator digits extension,
    namesWeek (list_ascii_of_string name) [] word separator digits extension
    /\ extension <> [].
Proof.
  unfold matchesAcceptedPattern. split.
  - destruct (weekPatternAt csvThenEnd _) as [group|] eqn:Hmatch; [|discriminate].
    intros _.
    apply (weekPatternAt_spec _ csvThenEnd_no_digit) in Hmatch
      as (word & separator & rest & Heq & Hword & Hsep & Hlen & Hdigits & Htail).
    apply csvThenEnd_spec in Htail.
    exists word, separator, group, rest.
    split; [repeat split; try assumption; try lia; right; exact Htail|].
    intros ->. inversion Htail.
  - intros (word & separator & digits & extension & Hnames & Hext).
    destruct Hnames as (Heq & Hword & Hsep & Hlen & Hdigits & Hcsv).
    destruct Hcsv as [->|Hcsv]; [congruence|].
    assert (Hmatch : weekPatternAt csvThenEnd (list_ascii_of_string name)
                     = Some digits).
    { apply (weekPatternAt_spec _ csvThenEnd_no_digit).
      exists word, separator, extension.
      repeat split; try assumption; try lia.
      apply csvThenEnd_spec, Hcsv. }
    rewrite Hmatch. reflexivity.
Qed.

Lemma accepted_endsWithCsv (name : string) :
  matchesAcceptedPattern name = true -> endsWithCsv name = true.
Proof.
  intros Hmatch.
  apply matchesAcceptedPattern_spec in Hmatch
    as (word & separator & digits & extension & Hnames & Hext).
  destruct Hnames as (Heq & _ & _ & _ & _ & Hcsv).
  destruct Hcsv as [->|Hcsv]; [congruence|].
  unfold endsWithCsv. cbv zeta. apply bool_decide_eq_true.
  rewrite Heq. cbn [app].
  rewrite !app_assoc, map_app, (same_as_csv_lower _ Hcsv).
  apply drop_app_length'. rewrite length_app. simpl. lia.
Qed.

Lemma extractWeekFromFilename_range (name : string) (w : Z) :
  extractWeekFromFilename name = Some w -> isValidWeek w = true.
Proof.
  intros Hw. apply extractWeekFromFilename_spec in Hw as [Hrange _].
  unfold isValidWeek.
  destruct (Z.leb_spec 1 w); [|lia]. destruct (Z.leb_spec w 53); [|lia].
  reflexivity.
Qed.

End FilenameRules.

(** [extractWeekFromFilename] returns the week [w] exactly when [w] is
    between 1 and 53 and the name reads: anything, the word "week" in
    any case, at most one of [_] and [-], one or two digits that read
    [w], and then nothing or the extension ".csv" in any case. *)
Theorem extractWeekFromFilename_reads_week_files (name : string) (w : Z) :
  Filename.extractWeekFromFilename name = Some w <->
  1 <= w <= 53
  /\ exists before word separator digits extension,
       namesWeek (list_ascii_of_string name) before word separator digits
         extension
       /\ Filename.parseInt digits = w.
Proof. apply FilenameRules.extractWeekFromFilename_spec. Qed.

(** Round trip: the week is read back from the name
    [createStandardFilename] gives it exactly when it is between 1 and
    53, and then [validateFilenameAndExtractPeriod] accepts the name
    without an error and returns the week. *)
Theorem createStandardFilename_round_trip (w : Z) :
  (Filename.extractWeekFromFilename (Filename.createStandardFilename w) = Some w
   <-> 1 <= w <= 53)
  /\ (1 <= w <= 53 ->
      Filename.validateFilenameAndExtractPeriod (Filename.createStandardFilename w)
      = {| Filename.isValid := true;
           Filename.errors := [];
           Filename.period :=
             Some {| Filename.week := w;
                     Filename.filename := Filename.createStandardFilename w |} |}).
Proof.
  assert (Hall : 1 <= w <= 53 ->
            Filename.extractWeekFromFilename (Filename.createStandardFilename w)
            = Some w
            /\ Filename.validateFilenameAndExtractPeriod
                 (Filename.createStandardFilename w)
               = {| Filename.isValid := true;
                    Filename.errors := [];
                    Filename.period :=
                      Some {| Filename.week := w;
                              Filename.filename :=
                                Filename.createStandardFilename w |} |}).
  { intros Hrange.
    pose proof FilenameSearch.standard_names_accepted as Hnames.
    rewrite forallb_forall in Hnames.
    specialize (Hnames w).
    assert (Hin : In w (map Z.of_nat (seq 1 53))).
    { apply in_map_iff. exists (Z.to_nat w). split; [lia|].
      apply in_seq. lia. }
    specialize (Hnames Hin).
    apply andb_true_iff in Hnames as [Hnames Hperiod].
    apply andb_true_iff in Hnames as [Hnames Herrors].
    apply andb_true_iff in Hnames as [Hextract Hvalid].
    split.
    - destruct (Filename.extractWeekFromFilename _) as [w'|]; [|discriminate].
      apply Z.eqb_eq in Hextract. subst. reflexivity.
    - destruct (Filename.validateFilenameAndExtractPeriod _)
        as [valid errs [p|]]; cbn in Hvalid, Herrors, Hperiod; [|discriminate].
      apply andb_true_iff in Hperiod as [Hweek Hname].
      apply Z.eqb_eq in Hweek. apply String.eqb_eq in Hname.
      destruct p as [pw pf]. cbn in Hweek, Hname. subst.
      destruct errs; [reflexivity|discriminate]. }
  split; [|intros Hrange; apply Hall, Hrange].
  split; [|intros Hrange; apply Hall, Hrange].
  intros Hw. apply FilenameRules.extractWeekFromFilename_spec in Hw as [Hrange _].
  exact Hrange.
Qed.

(** Week 41: the standard name is "week_41.csv" and is accepted. *)
Lemma createStandardFilename_round_trip_witness :
  Filename.createStandardFilename 41 = "week_41.csv"%string
  /\ Filename.validateFilenameAndExtractPeriod "week_41.csv"
     = {| Filename.isValid := true;
          Filename.errors := [];
          Filename.period :=
            Some {| Filename.week := 41; Filename.filename := "week_41.csv" |} |}.
Proof.
  split; [reflexivity|].
  apply (proj2 (createStandardFilename_round_trip 41)). lia.
Defined.

(** [validateFilenameAndExtractPeriod] accepts exactly the names that
    read, from their first to their last character: "week" in any case,
    at most one of [_] and [-], one or two digits between 1 and 53, and
    ".csv" in any case.  An accepted name has no error; the period is
    the week [extractWeekFromFilename] returns, also for a name that is
    not accepted; the check of the week number never adds an error, so
    there are at most three. *)
Theorem validateFilenameAndExtractPeriod_accepts (name : string) :
  let result := Filename.validateFilenameAndExtractPeriod name in
  (Filename.isValid result = true <->
   exists word separator digits extension,
     namesWeek (list_ascii_of_string name) [] word separator digits extension
     /\ extension <> []
     /\ 1 <= Filename.parseInt digits <= 53)
  /\ (Filename.isValid result = true <-> Filename.errors result = [])
  /\ Filename.period result
     = (fun w => {| Filename.week := w; Filename.filename := name |})
         <$> Filename.extractWeekFromFilename name
  /\ (length (Filename.errors result) <= 3)%nat.
Proof.
  cbv zeta. unfold Filename.validateFilenameAndExtractPeriod.
  destruct (Filename.extractWeekFromFilename name) as [w|] eqn:Hextract.
  - rewrite (FilenameRules.extractWeekFromFilename_range _ _ Hextract).
    cbn [negb Filename.isValid Filename.errors Filename.period].
    destruct (Filename.matchesAcceptedPattern name) eqn:Hmatch.
    + rewrite (FilenameRules.accepted_endsWithCsv _ Hmatch).
      cbn [negb length Nat.eqb].
      split; [|split; [tauto|split; [reflexivity|lia]]].
      split; [intros _|reflexivity].
      apply FilenameRules.matchesAcceptedPattern_spec in Hmatch
        as (word & separator & digits & extension & Hnames & Hext).
      exists word, separator, digits, extension.
      split; [exact Hnames|]. split; [exact Hext|].
      assert (Hsame : Filename.extractWeekFromFilename name
                      = Some (Filename.parseInt digits)).
      { unfold Filename.extractWeekFromFilename in *.
        rewrite (proj2 (FilenameSearch.firstMatch_namesWeek _ digits)) in *
          by eauto.
        cbv zeta in *.
        destruct ((1 <=? Filename.parseInt digits)
                  && (Filename.parseInt digits <=? 53)); [reflexivity|discriminate]. }
      apply FilenameRules.extractWeekFromFilename_spec in Hsame as [Hrange _].
      exact Hrange.
    + cbn [negb].
      assert (Hno : ~ exists word separator digits extension,
                      namesWeek (list_ascii_of_string name) [] word separator
                        digits extension
                      /\ extension <> []
                      /\ 1 <= Filename.parseInt digits <= 53).
      { intros (word & separator & digits & extension & Hnames & Hext & _).
        assert (Hyes : Filename.matchesAcceptedPattern name = true)
          by (apply FilenameRules.matchesAcceptedPattern_spec; eauto 6).
        congruence. }
      destruct (Filename.endsWithCsv name); cbn [negb app length Nat.eqb].
      * split; [split; [discriminate|intros H; destruct (Hno H)]|].
        split; [split; discriminate|]. split; [reflexivity|lia].
      * split; [split; [discriminate|intros H; destruct (Hno H)]|].
        split; [split; discriminate|]. split; [reflexivity|lia].
  - cbn [Filename.isValid Filename.errors Filename.period].
    split.
    { split; [discriminate|].
      intros (word & separator & digits & extension & Hnames & Hext & Hrange).
      assert (Hsome : Filename.extractWeekFromFilename name
                      = Some (Filename.parseInt digits))
        by (apply FilenameRules.extractWeekFromFilename_spec; split;
            [exact Hrange|eauto 8]).
      congruence. }
    split.
    { split; [discriminate|]. intros Heq.
      destruct (app_cons_not_nil _ _ _ (eq_sym Heq)). }
    split; [reflexivity|].
    rewrite length_app.
    destruct (Filename.endsWithCsv name), (Filename.matchesAcceptedPattern name);
      cbn; lia.
Qed.

(** ** When the functions keyed by page id throw *)

Lemma fold_pivotStep_TypeError (metric : MetricKey)
    (weeklyDataArray : list WeeklyPageData) :
  fold_left (pivotStep metric) weeklyDataArray TypeError = TypeError.
Proof. induction weeklyDataArray; [reflexivity|assumption]. Qed.

Lemma pivotStep_inherited (metric : MetricKey)
    (pivotData : gmap string PivotRow.t) (visited : list WeeklyPageData)
    (data : WeeklyPageData) :
  (forall p, pivotData !! p = rowOf metric p visited) ->
  Forall (fun data => pageId (page data) ∉ Object_prototype_keys) visited ->
  pageId (page data) ∈ Object_prototype_keys ->
  pivotStep metric (Normal pivotData) data = TypeError.
Proof.
  intros Hinv Hvisited Hproto. unfold pivotStep.
  assert (Hnone : pivotData !! pageId (page data) = None).
  { rewrite Hinv. unfold rowOf.
    rewrite (membersOf_not_inherited (fun d => pageId (page d)) _ _
               Hvisited Hproto).
    reflexivity. }
  cbv zeta.
  rewrite (js_get_inherited _ _ Hnone Hproto). simpl negb. cbv iota.
  rewrite (js_get_inherited _ _ Hnone Hproto). reflexivity.
Qed.

Lemma fold_pivotStep_inherited (metric : MetricKey)
    (weeklyDataArray visited : list WeeklyPageData)
    (pivotData : gmap string PivotRow.t) :
  (forall p, pivotData !! p = rowOf metric p visited) ->
  Forall (fun data => pageId (page data) ∉ Object_prototype_keys) visited ->
  Exists (fun data => pageId (page data) ∈ Object_prototype_keys)
    weeklyDataArray ->
  fold_left (pivotStep metric) weeklyDataArray (Normal pivotData) = TypeError.
Proof.
  revert visited pivotData.
  induction weeklyDataArray as [|data rest IH];
    intros visited pivotData Hinv Hvisited Hexists; [inversion Hexists|].
  cbn [fold_left].
  destruct (decide (pageId (page data) ∈ Object_prototype_keys))
    as [Hproto|Hfine].
  - rewrite (pivotStep_inherited _ _ _ _ Hinv Hvisited Hproto).
    apply fold_pivotStep_TypeError.
  - destruct (pivotStep_rowOf metric pivotData visited data Hinv Hfine)
      as (pivotData1 & Hstep & Hinv1).
    rewrite Hstep. apply (IH (visited ++ [data])); [exact Hinv1| |].
    + apply Forall_app. split; [exact Hvisited|].
      constructor; [exact Hfine|constructor].
    + inversion Hexists; subst; [contradiction|assumption].
Qed.

(** [aggregateByPage] and [createPivotTable] throw a [TypeError]
    exactly when some page id is the name of a member of
    [Object.prototype], wherever in the array that record stands;
    [aggregateByWeek], [aggregateByMonth] and [aggregateByQuarter] never
    throw. *)
Theorem page_keyed_functions_throw_iff
    (getMonthNumber : WeekPeriod -> Z) (getMonthName : WeekPeriod -> string)
    (weeklyDataArray : list WeeklyPageData) (metric : MetricKey) :
  (aggregateByPage weeklyDataArray = TypeError <->
   Exists (fun data => pageId (page data) ∈ Object_prototype_keys)
     weeklyDataArray)
  /\ (createPivotTable weeklyDataArray metric = TypeError <->
      Exists (fun data => pageId (page data) ∈ Object_prototype_keys)
        weeklyDataArray)
  /\ aggregateByWeek weeklyDataArray <> TypeError
  /\ aggregateByMonth getMonthNumber getMonthName weeklyDataArray <> TypeError
  /\ aggregateByQuarter getMonthNumber weeklyDataArray <> TypeError.
Proof.
  split; [apply aggregateBy_TypeError_iff|].
  split.
  { unfold createPivotTable.
    destruct weeklyDataArray as [|data rest] eqn:Hl;
      [split; [discriminate|intros Hex; inversion Hex]|].
    rewrite <- Hl. replace ((length weeklyDataArray =? 0)%nat) with false
      by (subst; reflexivity).
    cbv zeta.
    destruct (decide (Exists
                        (fun data => pageId (page data) ∈ Object_prototype_keys)
                        weeklyDataArray)) as [Hex|Hall].
    - rewrite (fold_pivotStep_inherited metric weeklyDataArray [] ∅);
        [tauto|intros p; rewrite lookup_empty; reflexivity|constructor|exact Hex].
    - assert (Hfine : Forall
                        (fun data => pageId (page data) ∉ Object_prototype_keys)
                        weeklyDataArray)
        by (apply Forall_Exists_neg, Hall).
      destruct (fold_pivotStep_rowOf metric weeklyDataArray [] ∅)
        as (pivotData & -> & _);
        [intros p; rewrite lookup_empty; reflexivity|exact Hfine|].
      split; [discriminate|contradiction]. }
  assert (Hnever : forall (H : Type) (keyOf : WeeklyPageData -> string)
                     (headerOf : WeeklyPageData -> H),
            (forall data, startsWithNumber (keyOf data) = true) ->
            aggregateBy keyOf headerOf weeklyDataArray <> TypeError).
  { intros H keyOf headerOf Hkeys Hthrows.
    apply aggregateBy_TypeError_iff, Exists_exists in Hthrows
      as (data & _ & Hproto).
    destruct (startsWithNumber_not_inherited _ (Hkeys data) Hproto). }
  split; [apply Hnever; intros data; apply getPeriodKey_startsWithNumber|].
  split; [apply Hnever; intros data; apply monthKey_startsWithNumber|].
  apply Hnever. intros data. apply quarterKey_startsWithNumber.
Qed.

(** ** period_validator.js: the structure of a parsed CSV *)

Module CsvStructureFacts.
Import CsvStructure.

Lemma Array_includes_In (l : list string) (x : string) :
  Array_includes l x = true <-> In x l.
Proof.
  unfold Array_includes. rewrite existsb_exists. split.
  - intros (y & Hy & Heq). apply String.eqb_eq in Heq. subst. exact Hy.
  - intros Hx. exists x. split; [exact Hx|apply String.eqb_refl].
Qed.

Lemma filter_none {A : Type} (f : A -> bool) (l : list A) :
  (0 <? length (List.filter f l))%nat = false <->
  forall x, In x l -> f x = false.
Proof.
  rewrite Nat.ltb_ge. split.
  - intros Hlen x Hx. destruct (f x) eqn:Hfx; [|reflexivity].
    assert (Hin : In x (List.filter f l)) by (apply filter_In; split; assumption).
    destruct (List.filter f l); [destruct Hin|simpl in Hlen; lia].
  - intros Hall. destruct (List.filter f l) as [|y rest] eqn:Hfilter;
      [simpl; lia|].
    assert (Hy : In y (List.filter f l)) by (rewrite Hfilter; left; reflexivity).
    apply filter_In in Hy as [Hy Hfy]. rewrite (Hall y Hy) in Hfy. discriminate.
Qed.

End CsvStructureFacts.

(** [validateCSVStructure] accepts exactly ten columns that hold every
    expected name after normalisation, with at least one row.  When the
    normalisation leaves the expected names as they are, accepted
    columns are the ten expected names in some order, so none is
    reported as extra, and up to 200 rows there is no warning. *)
Theorem validateCSVStructure_accepts (normalize : string -> string)
    (columns : list string) (rowCount : Z) :
  let result := CsvStructure.validateCSVStructure normalize columns rowCount in
  (CsvStructure.isValid result = true <->
   length columns = 10%nat
   /\ (forall expected,
         In expected CsvStructure.EXPECTED_COLUMNS ->
         In (normalize expected) (map normalize columns))
   /\ 1 <= rowCount)
  /\ (CsvStructure.isValid result = true <-> CsvStructure.errors result = [])
  /\ ((forall expected,
         In expected CsvStructure.EXPECTED_COLUMNS ->
         normalize expected = expected) ->
      CsvStructure.isValid result = true ->
      Permutation (map normalize columns) CsvStructure.EXPECTED_COLUMNS
      /\ (rowCount <= 200 -> CsvStructure.warnings result = [])).
Proof.
  cbv zeta. unfold CsvStructure.validateCSVStructure. cbv zeta.
  set (missing := List.filter
                    (fun exp =>
                       negb (CsvStructure.Array_includes (map normalize columns) exp))
                    (map normalize CsvStructure.EXPECTED_COLUMNS)).
  set (extra := List.filter
                  (fun act =>
                     negb (CsvStructure.Array_includes
                             (map normalize CsvStructure.EXPECTED_COLUMNS) act))
                  (map normalize columns)).
  cbn [CsvStructure.isValid CsvStructure.errors CsvStructure.warnings].
  assert (Hmissing : (0 <? length missing)%nat = false <->
            forall expected,
              In expected CsvStructure.EXPECTED_COLUMNS ->
              In (normalize expected) (map normalize columns)).
  { unfold missing. rewrite CsvStructureFacts.filter_none. split.
    - intros Hall expected Hexpected.
      apply CsvStructureFacts.Array_includes_In, negb_false_iff, Hall.
      apply in_map, Hexpected.
    - intros Hall x Hx. apply in_map_iff in Hx as (expected & <- & Hexpected).
      apply negb_false_iff, CsvStructureFacts.Array_includes_In, Hall, Hexpected. }
  assert (Hlist : forall (A : Type) (l : list A) (x : A),
            (length (l ++ [x]) =? 0)%nat = false)
    by (intros A l x; rewrite length_app, Nat.add_1_r; reflexivity).
  destruct (Z.ltb_spec rowCount 1) as [Hrows|Hrows].
  { rewrite Hlist.
    split; [split; [discriminate|intros (_ & _ & Hge); lia]|].
    split; [|discriminate].
    split; [discriminate|intros Heq; destruct (app_cons_not_nil _ _ _ (eq_sym Heq))]. }
  destruct (0 <? length missing)%nat eqn:Hm.
  { rewrite Hlist.
    split; [split; [discriminate|]|].
    { intros (_ & Hall & _). apply Hmissing in Hall. discriminate. }
    split; [|discriminate].
    split; [discriminate|intros Heq; destruct (app_cons_not_nil _ _ _ (eq_sym Heq))]. }
  destruct (Nat.eqb_spec (length columns) 10) as [Hten|Hten]; cbn [negb length Nat.eqb].
  2:{ split; [split; [discriminate|intros (Heq & _); contradiction]|].
      split; [split; discriminate|discriminate]. }
  split; [split; [intros _|reflexivity]|].
  { split; [exact Hten|]. split; [apply Hmissing; reflexivity|exact Hrows]. }
  split; [split; reflexivity|].
  intros Hfixed _.
  assert (Hexpected : map normalize CsvStructure.EXPECTED_COLUMNS
                      = CsvStructure.EXPECTED_COLUMNS).
  { rewrite <- (map_id CsvStructure.EXPECTED_COLUMNS) at 2.
    apply map_ext_in. intros expected Hin. apply Hfixed, Hin. }
  assert (Hperm : Permutation CsvStructure.EXPECTED_COLUMNS (map normalize columns)).
  { apply submseteq_length_Permutation.
    - apply NoDup_submseteq.
      + apply (bool_decide_unpack _). vm_compute. exact I.
      + intros expected Hin. apply list_elem_of_In in Hin.
        apply list_elem_of_In. rewrite <- (Hfixed expected Hin).
        apply Hmissing; [reflexivity|exact Hin].
    - rewrite length_map, Hten. simpl. lia. }
  split; [symmetry; exact Hperm|].
  intros Hmax.
  assert (Hextra : (0 <? length extra)%nat = false).
  { unfold extra. apply CsvStructureFacts.filter_none. intros x Hx.
    apply negb_false_iff, CsvStructureFacts.Array_includes_In.
    rewrite Hexpected. apply (Permutation_in _ (Permutation_sym Hperm)), Hx. }
  rewrite Hextra.
  destruct (Z.ltb_spec 200 rowCount); [lia|reflexivity].
Qed.

(** ** The periods of uploaded files *)

Lemma extractPeriodFromFile_spec (name : string) (p : Filename.FilePeriod) :
  FilePeriods.extractPeriodFromFile name = Some p <->
  Filename.filename p = name
  /\ Filename.extractWeekFromFilename name = Some (Filename.week p).
Proof.
  unfold FilePeriods.extractPeriodFromFile.
  destruct (String.eqb_spec name "") as [->|Hname].
  - split; [discriminate|]. intros [_ Hweek]. vm_compute in Hweek. discriminate.
  - destruct (Filename.extractWeekFromFilename name) as [w|].
    + split.
      * intros [= <-]. split; reflexivity.
      * intros [Hfile [= Hweek]]. destruct p as [pw pf]. cbn in *. subst.
        reflexivity.
    + split; [discriminate|intros [_ Hweek]; discriminate].
Qed.

(** [extractPeriodsFromFiles] returns one period per file whose name
    carries a week, with that name and that week, in ascending order of
    week and for equal weeks in the order of the files; every week is
    between 1 and 53.  [checkForPeriodDuplicate] warns exactly when the
    week is already among the existing periods, naming the first of
    them with that week, and never invalidates the file. *)
Theorem extractPeriodsFromFiles_sorted (names : list string) :
  let periods := FilePeriods.extractPeriodsFromFiles names in
  StronglySorted (fun a b => Filename.week a <= Filename.week b) periods
  /\ Forall
       (fun p =>
          Filename.extractWeekFromFilename (Filename.filename p)
          = Some (Filename.week p)
          /\ 1 <= Filename.week p <= 53)
       periods
  /\ (forall w : Z,
        map Filename.filename
          (List.filter (fun p => Filename.week p =? w) periods)
        = List.filter
            (fun name =>
               bool_decide (Filename.extractWeekFromFilename name = Some w))
            names)
  /\ (forall (period : Filename.FilePeriod)
             (existing : list Filename.FilePeriod),
        let check :=
          FilePeriods.checkForPeriodDuplicate (Some period) existing in
        FilePeriods.isValid check = true
        /\ (FilePeriods.warnings check <> [] <->
            In (Filename.week period) (map Filename.week existing))
        /\ (forall warning,
              In warning (FilePeriods.warnings check) ->
              exists earlier later,
                existing
                = earlier ++ FilePeriods.conflictingPeriod warning :: later
                /\ Filename.week (FilePeriods.conflictingPeriod warning)
                   = Filename.week period
                /\ ~ In (Filename.week period) (map Filename.week earlier))).
Proof.
  cbv zeta.
  set (compareFn := fun a b : Filename.FilePeriod =>
                      Filename.week a - Filename.week b).
  assert (Hresult : FilePeriods.extractPeriodsFromFiles names
                    = Array_sort compareFn
                        (omap FilePeriods.extractPeriodFromFile names))
    by (destruct names; reflexivity).
  rewrite Hresult.
  assert (Hperm : Permutation
                    (Array_sort compareFn
                       (omap FilePeriods.extractPeriodFromFile names))
                    (omap FilePeriods.extractPeriodFromFile names))
    by apply Array_sort_Permutation.
  split.
  { eapply StronglySorted_weaken;
      [|apply (Array_sort_StronglySorted compareFn)].
    - intros a b. unfold before, compareFn. lia.
    - intros a b. unfold before, compareFn. lia.
    - intros a b c. unfold before, compareFn. lia. }
  split.
  { apply List.Forall_forall. intros p Hp.
    apply (Permutation_in _ Hperm), list_elem_of_In, list_elem_of_omap in Hp
      as (name & _ & Hname).
    apply extractPeriodFromFile_spec in Hname as [Hfile Hweek].
    rewrite Hfile. split; [exact Hweek|].
    apply FilenameRules.extractWeekFromFilename_spec in Hweek as [Hrange _].
    exact Hrange. }
  split.
  { intros w.
    rewrite (Array_sort_filter compareFn (fun p => Filename.week p =? w)).
    2:{ intros a b Ha Hb. apply Z.eqb_eq in Ha, Hb.
        unfold before, compareFn. lia. }
    clear Hresult Hperm.
    induction names as [|name names IH]; [reflexivity|].
    cbn [omap list_omap List.filter].
    destruct (FilePeriods.extractPeriodFromFile name) as [p|] eqn:Hp.
    - apply extractPeriodFromFile_spec in Hp as [Hfile Hweek].
      cbn [List.filter]. rewrite Hweek.
      destruct (Z.eqb_spec (Filename.week p) w) as [->|Hne].
      + rewrite bool_decide_eq_true_2 by reflexivity.
        cbn [map]. rewrite Hfile. f_equal. exact IH.
      + rewrite bool_decide_eq_false_2 by congruence. exact IH.
    - rewrite bool_decide_eq_false_2; [exact IH|].
      intros Hweek.
      assert (Hsome : FilePeriods.extractPeriodFromFile name
                      = Some {| Filename.week := w; Filename.filename := name |})
        by (apply extractPeriodFromFile_spec; split; [reflexivity|exact Hweek]).
      congruence. }
  intros period existing. unfold FilePeriods.checkForPeriodDuplicate.
  destruct (decide (existing = [])) as [->|Hexisting].
  { cbn. split; [reflexivity|]. split; [tauto|]. intros warning []. }
  replace ((length existing =? 0)%nat) with false
    by (destruct existing; [congruence|reflexivity]).
  destruct (List.find (fun p => Filename.week p =? Filename.week period) existing)
    as [duplicate|] eqn:Hfind;
    cbn [FilePeriods.isValid FilePeriods.warnings].
  - split; [reflexivity|].
    assert (Hfirst : exists earlier later,
              existing = earlier ++ duplicate :: later
              /\ Filename.week duplicate = Filename.week period
              /\ ~ In (Filename.week period) (map Filename.week earlier)).
    { clear - Hfind. induction existing as [|e existing IH]; [discriminate|].
      cbn [List.find] in Hfind.
      destruct (Z.eqb_spec (Filename.week e) (Filename.week period)) as [Heq|Hne].
      - injection Hfind as <-. exists [], existing.
        split; [reflexivity|]. split; [exact Heq|]. intros [].
      - destruct (IH Hfind) as (earlier & later & -> & Hweek & Hnot).
        exists (e :: earlier), later. split; [reflexivity|].
        split; [exact Hweek|]. intros [Heq|Hin]; [contradiction|].
        apply Hnot, Hin. }
    split.
    + split; [intros _|discriminate].
      destruct Hfirst as (earlier & later & -> & Hweek & _).
      rewrite <- Hweek. apply in_map, in_elt.
    + intros warning [<-|[]]. exact Hfirst.
  - split; [reflexivity|]. split; [|intros warning []].
    split; [congruence|]. intros Hin.
    apply in_map_iff in Hin as (p & Hweek & Hp).
    pose proof (find_none _ _ Hfind p Hp) as Hno. cbn in Hno.
    apply Z.eqb_neq in Hno. contradiction.
Qed.
